(** * model-lookup: a verification model of [scripts/lookup.py]

    The script resolves free-text queries against a catalog of model
    records, translates aggregator identifiers into provider-native ones,
    and caches the catalog in one file.  This development embeds the
    functions of the script as Rocq functions and proves the properties
    stated about them.

    Conventions of the embedding:
    - A Python [str] is the [string] of the bytes of its UTF-8 encoding:
      a character below 128 is an ASCII character, the others are the
      bytes of the characters beyond ASCII.  Concatenation, comparison,
      the substring and prefix tests, the partition at [/] and the split
      at [:] of the text are those of its bytes.
    - [str.lower] and the class [\d] of the regular expression are read
      from the Unicode database of the interpreter.  [PyStr.lower] and
      [Re.is_digit] are what they are on ASCII text; where a statement
      about the scorer is to hold for every text, the scorer is taken
      over an arbitrary case mapping ([score_match_with]), and a
      statement that needs the digit class says that its text is ASCII.
    - Python exceptions are the [Err] branch of [result].
    - Python numbers are [pynum]: unbounded integers, and binary64 floats
      carried by the rational number they denote, every float operation
      being the exact operation followed by rounding to nearest-even. *)

From Stdlib Require Import ZArith QArith Qround Qabs Qpower Lqa SpecFloat.
From Stdlib Require Import String Ascii Lia List.
From Stdlib Require Import Sorted Permutation DecimalString.
From stdpp Require Import base list strings gmap.

Local Open Scope string_scope.

(** ** Python string operations *)

Module PyStr.

Definition is_upper (c : ascii) : bool :=
  let n := nat_of_ascii c in (65 <=? n)%nat && (n <=? 90)%nat.

Definition lower_char (c : ascii) : ascii :=
  if is_upper c then ascii_of_nat (nat_of_ascii c + 32) else c.

(** [s.lower()] on ASCII text: the letters [A] to [Z] become [a] to [z],
    every other byte is kept. *)
Fixpoint lower (s : string) : string :=
  match s with
  | EmptyString => EmptyString
  | String c s' => String (lower_char c) (lower s')
  end.

(** [s.startswith(p)] *)
Definition startswith (s p : string) : bool := String.prefix p s.

(** [needle in hay] on strings: substring test. *)
Fixpoint contains (needle hay : string) : bool :=
  String.prefix needle hay
  || match hay with
     | EmptyString => false
     | String _ hay' => contains needle hay'
     end.

(** [s.partition(sep)] for a one-character separator: the text before
    the first occurrence, the separator itself when it was found, and
    the text after it. *)
Fixpoint partition (sep : ascii) (s : string) : string * string * string :=
  match s with
  | EmptyString => (EmptyString, EmptyString, EmptyString)
  | String c s' =>
      if Ascii.eqb c sep then (EmptyString, String sep EmptyString, s')
      else let '(a, m, b) := partition sep s' in (String c a, m, b)
  end.

(** [s.split(sep)[0]] for a one-character separator. *)
Fixpoint split_head (sep : ascii) (s : string) : string :=
  match s with
  | EmptyString => EmptyString
  | String c s' =>
      if Ascii.eqb c sep then EmptyString else String c (split_head sep s')
  end.

(** [sep.join(l)] *)
Fixpoint join (sep : string) (l : list string) : string :=
  match l with
  | [] => EmptyString
  | [x] => x
  | x :: l' => x +:+ sep +:+ join sep l'
  end.

End PyStr.

(** ** The regular expression of [to_native_id]

    [re.sub(r"(\d+)\.(\d+)", r"\1-\2", s)]: the string is scanned from the
    left; at each position the pattern is tried, a match is replaced by
    its two groups joined with a dash and scanning resumes after the
    match; where the pattern does not match, the character is copied. *)

Module Re.

(** The class [\d] on ASCII text: the digits [0] to [9]. *)
Definition is_digit (c : ascii) : bool :=
  let n := nat_of_ascii c in (48 <=? n)%nat && (n <=? 57)%nat.

(** The longest run of digits at the head of [s], and what follows. *)
Fixpoint span_digits (s : string) : string * string :=
  match s with
  | EmptyString => (EmptyString, EmptyString)
  | String c s' =>
      if is_digit c
      then let '(d, r) := span_digits s' in (String c d, r)
      else (EmptyString, s)
  end.

(** The pattern tried at the head of [s].  Both groups are greedy; giving
    back digits of the first group never helps, since the character
    after a shorter run is a digit and not the dot. *)
Definition match_version (s : string) : option (string * string * string) :=
  let '(d1, r1) := span_digits s in
  match d1, r1 with
  | String _ _, String "."%char r2 =>
      let '(d2, r3) := span_digits r2 in
      match d2 with
      | String _ _ => Some (d1, d2, r3)
      | EmptyString => None
      end
  | _, _ => None
  end.

Fixpoint sub_from (fuel : nat) (s : string) : string :=
  match fuel with
  | O => s
  | S fuel' =>
      match match_version s with
      | Some (d1, d2, rest) => d1 +:+ "-" +:+ d2 +:+ sub_from fuel' rest
      | None =>
          match s with
          | EmptyString => EmptyString
          | String c s' => String c (sub_from fuel' s')
          end
      end
  end.

(** Every step consumes at least one character, so the length of the
    string is enough fuel (see [sub_from_enough]). *)
Definition sub_version (s : string) : string := sub_from (String.length s) s.

(** Some digit, a dot and a digit in a row: a substring of the form
    [<digits>.<digits>]. *)
Fixpoint has_dotted_version (s : string) : bool :=
  match s with
  | String a ((String b (String c _)) as s') =>
      (is_digit a && Ascii.eqb b "."%char && is_digit c)
      || has_dotted_version s'
  | _ => false
  end.

End Re.

(** ** ID translator *)

Definition to_native_id (openrouter_id : string) : string :=
  let '(provider, _, model_part) := PyStr.partition "/"%char openrouter_id in
  if String.eqb provider "anthropic"
  then
    let model_part := Re.sub_version model_part in
    PyStr.split_head ":"%char model_part
  else model_part.

(** An aggregator identifier [provider/slug] with both parts present. *)
Definition well_formed_id (s : string) : bool :=
  let '(provider, sep, slug) := PyStr.partition "/"%char s in
  negb (String.eqb provider "") && negb (String.eqb sep "")
  && negb (String.eqb slug "").

(** ** Binary64 arithmetic

    A Python [float] is an IEEE 754 binary64 number.  A finite float is
    carried by the rational it denotes (the two zeros are not told apart:
    nothing in the script can observe the sign of a zero).  Each operation
    is the exact one followed by [round64], rounding to nearest with ties
    to even on 53 significant bits, with gradual underflow below [2^-1022]
    and overflow to infinity from [2^1024]. *)

Module Float64.

Local Open Scope Q_scope.

Inductive float64 : Type :=
| Fin (q : Q)
| Inf (negative : bool)
| NaN.

(** [floor (log2 x)] for [0 < x]. *)
Definition ilog2 (x : Q) : Z :=
  let e := (Z.log2 (Qnum x) - Z.log2 (Zpos (Qden x)))%Z in
  if Qle_bool (2 ^ e) x then e else (e - 1)%Z.

(** The nearest integer, ties to the even one. *)
Definition rne (x : Q) : Z :=
  let f := Qfloor x in
  match Qcompare (x - inject_Z f) (1 # 2) with
  | Lt => f
  | Gt => (f + 1)%Z
  | Eq => if Z.even f then f else (f + 1)%Z
  end.

(** The exponent of the unit in the last place of the binade of [x]. *)
Definition ulp_exp (x : Q) : Z := Z.max (ilog2 x - 52) (-1074).

(** The multiple of [2^k] nearest to [x]. *)
Definition on_grid (k : Z) (x : Q) : Q := inject_Z (rne (x / 2 ^ k)) * 2 ^ k.

Definition round_pos (x : Q) : Q := Qred (on_grid (ulp_exp x) x).

Definition round64 (x : Q) : Q :=
  let x := Qred x in
  match Qcompare x 0 with
  | Eq => 0
  | Gt => round_pos x
  | Lt => Qred (- round_pos (Qred (- x)))
  end.

Definition overflow_threshold : Q := 2 ^ 1024.

(** The sign bit of a rational. *)
Definition sign_of (x : Q) : bool := negb (Qle_bool 0 x).

(** The float nearest to a rational. *)
Definition of_Q (x : Q) : float64 :=
  let r := round64 x in
  if Qle_bool overflow_threshold (Qabs r) then Inf (sign_of x) else Fin r.

Definition fneg (a : float64) : float64 :=
  match a with
  | Fin x => Fin (Qred (- x))
  | Inf s => Inf (negb s)
  | NaN => NaN
  end.

Definition fadd (a b : float64) : float64 :=
  match a, b with
  | NaN, _ | _, NaN => NaN
  | Fin x, Fin y => of_Q (x + y)
  | Inf s, Inf t => if Bool.eqb s t then Inf s else NaN
  | Inf s, Fin _ | Fin _, Inf s => Inf s
  end.

Definition fsub (a b : float64) : float64 := fadd a (fneg b).

Definition is_zero (a : float64) : bool :=
  match a with
  | Fin x => Qeq_bool x 0
  | _ => false
  end.

(** Division by a non-zero float. *)
Definition fdiv (a b : float64) : float64 :=
  match a, b with
  | NaN, _ | _, NaN => NaN
  | Fin x, Fin y => of_Q (x / y)
  | Inf s, Fin y => Inf (xorb s (sign_of y))
  | Fin _, Inf _ => Fin 0
  | Inf _, Inf _ => NaN
  end.

(** [a < b]; false as soon as one side is not a number. *)
Definition flt (a b : float64) : bool :=
  match a, b with
  | NaN, _ | _, NaN => false
  | Fin x, Fin y => negb (Qle_bool y x)
  | Fin _, Inf t => negb t
  | Inf s, Fin _ => s
  | Inf s, Inf t => s && negb t
  end.


(** [fle a b]: both are numbers and [a] is at most [b]. *)
Definition fle (a b : float64) : Prop :=
  match a, b with
  | NaN, _ | _, NaN => False
  | Fin x, Fin y => x <= y
  | Inf true, _ => True
  | _, Inf false => True
  | _, _ => False
  end.

Definition is_number (a : float64) : Prop :=
  match a with NaN => False | _ => True end.

End Float64.

Import Float64.

(** ** Exceptions

    A computation that may raise returns a [result]. *)

Inductive exn : Type :=
| KeyError (key : string)
| OSError
| OverflowError
| ZeroDivisionError
| JSONDecodeError
| URLError
| SystemExit (status : Z).

Inductive result (A : Type) : Type :=
| Ok (a : A)
| Err (e : exn).

Arguments Ok {A} a.
Arguments Err {A} e.

#[global] Instance result_ret : MRet result := @Ok.
#[global] Instance result_bind : MBind result :=
  fun A B f m => match m with Ok a => f a | Err e => Err e end.

(** All the results of [f] over a list, or the first exception. *)
Fixpoint traverse {A B : Type} (f : A -> result B) (l : list A)
  : result (list B) :=
  match l with
  | [] => Ok []
  | x :: l' => y ← f x; ys ← traverse f l'; Ok (y :: ys)
  end.

(** ** Python numbers *)

Module PyNum.

Inductive pynum : Type :=
| PyInt (z : Z)
| PyFloat (f : float64).

(** [float(z)]: the nearest float, [OverflowError] when there is none
    ("int too large to convert to float"). *)
Definition float_of_int (z : Z) : result float64 :=
  match of_Q (inject_Z z) with
  | Fin r => Ok (Fin r)
  | _ => Err OverflowError
  end.

Definition to_float (a : pynum) : result float64 :=
  match a with
  | PyInt z => float_of_int z
  | PyFloat f => Ok f
  end.

(** [a + b] *)
Definition add (a b : pynum) : result pynum :=
  match a, b with
  | PyInt x, PyInt y => Ok (PyInt (x + y))
  | _, _ => x ← to_float a; y ← to_float b; Ok (PyFloat (fadd x y))
  end.

(** [a - b] *)
Definition sub (a b : pynum) : result pynum :=
  match a, b with
  | PyInt x, PyInt y => Ok (PyInt (x - y))
  | _, _ => x ← to_float a; y ← to_float b; Ok (PyFloat (fsub x y))
  end.

(** [a / b] where [b] is a float. *)
Definition truediv (a : pynum) (b : float64) : result pynum :=
  x ← to_float a;
  if is_zero b then Err ZeroDivisionError else Ok (PyFloat (fdiv x b)).

(** [a < b].  Python compares an integer with a float by value, without
    converting the integer. *)
Definition lt (a b : pynum) : bool :=
  match a, b with
  | PyInt x, PyInt y => (x <? y)%Z
  | PyInt x, PyFloat g => flt (Fin (inject_Z x)) g
  | PyFloat f, PyInt y => flt f (Fin (inject_Z y))
  | PyFloat f, PyFloat g => flt f g
  end.

(** [a > b] *)
Definition gt (a b : pynum) : bool := lt b a.

(** The number denoted: an integer stands for itself, unrounded. *)
Definition value (a : pynum) : float64 :=
  match a with
  | PyInt z => Fin (inject_Z z)
  | PyFloat f => f
  end.

(** [a <= b] between numbers. *)
Definition le (a b : pynum) : Prop := fle (value a) (value b).

End PyNum.

Import PyNum.

(** ** Model records

    A record of the catalog is a JSON object; the script reads it through
    the keys below.  ["id"] is read by subscript and is always present;
    the other keys are read with [dict.get] and may be absent. *)

Record Model : Type := {
  model_id : string;
  model_name : option string;
  created : option Z;
  context_length : option Z;
  pricing_prompt : option string;
  pricing_completion : option string;
  input_modalities : list string;
  supported_parameters : list string
}.

Definition with_created (m : Model) (c : Z) : Model :=
  {| model_id := model_id m;
     model_name := model_name m;
     created := Some c;
     context_length := context_length m;
     pricing_prompt := pricing_prompt m;
     pricing_completion := pricing_completion m;
     input_modalities := input_modalities m;
     supported_parameters := supported_parameters m |}.

(** ** Constants of the script *)

Definition CACHE_PATH : string := ".models-cache.json".
Definition CACHE_TTL : Z := 3600.
Definition API_URL : string := "https://openrouter.ai/api/v1/models".

Definition PROVIDER_PREFIXES : gmap string string :=
  list_to_map
    [ ("google", "google/");
      ("openai", "openai/");
      ("anthropic", "anthropic/");
      ("deepseek", "deepseek/");
      ("meta-llama", "meta-llama/");
      ("mistralai", "mistralai/");
      ("cohere", "cohere/");
      ("qwen", "qwen/");
      ("x-ai", "x-ai/") ].

(** ** Matcher *)

(** The literal [1e12]. *)
Definition f1e12 : float64 := Fin (inject_Z 1000000000000).

(** The scorer compares its strings in lower case.  In the definitions
    whose name ends in [_with], the case mapping [str.lower] is the
    parameter [lower]; the definitions without the suffix are these over
    [PyStr.lower], the case mapping of ASCII text. *)

(** One turn of the loop over the query terms. *)
Definition score_term_with (lower : string -> string)
  (model_id model_name : string) (score : Z) (term : string) : Z :=
  let term := lower term in
  let score := if PyStr.contains term model_id then (score + 10)%Z else score in
  if PyStr.contains term model_name then (score + 5)%Z else score.

Definition score_match_with (lower : string -> string)
  (query_terms : list string) (model : Model) : result pynum :=
  let model_id := lower (model_id model) in
  let model_name := lower (default "" (model_name model)) in
  let score :=
    fold_left (score_term_with lower model_id model_name) query_terms 0%Z in
  let created := default 0%Z (created model) in
  score ← (if bool_decide (created ≠ 0%Z)
           then boost ← truediv (PyInt created) f1e12;
                add (PyInt score) boost
           else Ok (PyInt score));
  if PyStr.contains ":free" model_id
  then sub score (PyInt 3)
  else Ok score.

Definition score_term : string -> string -> Z -> string -> Z :=
  score_term_with PyStr.lower.

Definition score_match : list string -> Model -> result pynum :=
  score_match_with PyStr.lower.

(** The score in closed form, over the text of the identifier and of the
    display name: the points of every term, the recency boost of a
    timestamp that is present and not zero, the penalty of the free
    tier. *)
Definition term_points (id_text name_text term : string) : Z :=
  ((if PyStr.contains term id_text then 10 else 0)
   + (if PyStr.contains term name_text then 5 else 0))%Z.

Definition sum_Z (l : list Z) : Z := foldr Z.add 0%Z l.

Definition score_formula_with (lower : string -> string)
  (id_text name_text : string) (query_terms : list string)
  (timestamp : option Z) : result pynum :=
  let points :=
    sum_Z (map (fun t => term_points id_text name_text (lower t))
             query_terms) in
  boosted ← match timestamp with
            | Some c =>
                if bool_decide (c ≠ 0%Z)
                then boost ← truediv (PyInt c) f1e12; add (PyInt points) boost
                else Ok (PyInt points)
            | None => Ok (PyInt points)
            end;
  if PyStr.contains ":free" id_text
  then sub boosted (PyInt 3)
  else Ok boosted.

(** The formula over the identifier and the name as they are in the
    record. *)
Definition score_spec_literal (query_terms : list string) (model : Model)
  : result pynum :=
  score_formula_with PyStr.lower (model_id model)
    (default "" (model_name model)) query_terms (created model).

(** The formula over the lower-cased identifier and name. *)
Definition score_spec_with (lower : string -> string)
  (query_terms : list string) (model : Model) : result pynum :=
  score_formula_with lower (lower (model_id model))
    (lower (default "" (model_name model)))
    query_terms (created model).

(** The integer part of the score of a model. *)
Definition points_with (lower : string -> string) (terms : list string)
  (m : Model) : Z :=
  fold_left
    (score_term_with lower (lower (model_id m))
       (lower (default "" (model_name m))))
    terms 0%Z.

Definition is_free_with (lower : string -> string) (m : Model) : bool :=
  PyStr.contains ":free" (lower (model_id m)).

Definition points : list string -> Model -> Z := points_with PyStr.lower.

Definition is_free : Model -> bool := is_free_with PyStr.lower.

(** The float the score of a timestamp that converts to [fc] runs
    through, over the integer part converted to [fb]. *)
Definition float_score (fb fc : Q) (free : bool) : float64 :=
  let s := fadd (Fin fb) (fdiv (Fin fc) f1e12) in
  if free then fsub s (Fin 3%Q) else s.

(** [score a >= score b], both scores computed. *)
Definition score_ge (query_terms : list string) (a b : Model) : Prop :=
  exists sa sb,
    score_match query_terms a = Ok sa
    /\ score_match query_terms b = Ok sb
    /\ le sb sa.

(** [list.sort(key=lambda x: x[0], reverse=True)]: a stable sort on the
    first component, greatest first; elements with equal keys keep their
    order.  Only [<] on keys is used. *)
Fixpoint insert_desc {A : Type} (x : pynum * A) (l : list (pynum * A))
  : list (pynum * A) :=
  match l with
  | [] => [x]
  | y :: l' =>
      if lt (fst x) (fst y) then y :: insert_desc x l' else x :: y :: l'
  end.

Definition sort_desc {A : Type} (l : list (pynum * A)) : list (pynum * A) :=
  foldr insert_desc [] l.

Definition search (query_terms : list string) (models : list Model)
  : result (list Model) :=
  scored ← traverse (fun m => s ← score_match query_terms m; Ok (s, m)) models;
  let scored := List.filter (fun sm => gt (fst sm) (PyInt 0)) scored in
  let scored := sort_desc scored in
  Ok (map snd (take 8 scored)).

(** ** Provider lister *)

Definition list_provider (provider : string) (models : list Model)
  : list Model :=
  let prefix := default (provider +:+ "/") (PROVIDER_PREFIXES !! provider) in
  List.filter (fun m => PyStr.startswith (model_id m) prefix) models.

(** ** Formatter *)

Module Fmt.

(** [str(z)] for an integer. *)
Definition str_int (z : Z) : string := NilZero.string_of_int (Z.to_int z).

(** Commas between groups of three digits, on the digits in reverse. *)
Fixpoint group3 (rev_digits : list ascii) (n : nat) : list ascii :=
  match rev_digits with
  | [] => []
  | c :: l =>
      match n with
      | 3%nat => ","%char :: c :: group3 l 1
      | _ => c :: group3 l (S n)
      end
  end.

(** [f"{z:,}"] *)
Definition str_int_commas (z : Z) : string :=
  let digits := list_ascii_of_string (str_int (Z.abs z)) in
  let grouped := rev (group3 (rev digits) 0) in
  (if (z <? 0)%Z then "-" else "") +:+ string_of_list_ascii grouped.

Definition mem (x : string) (l : list string) : bool :=
  existsb (String.eqb x) l.

End Fmt.

Definition format_model (model : Model) : string :=
  let oid := model_id model in
  let native := to_native_id oid in
  let name := default "" (model_name model) in
  let ctx := context_length model in
  let prompt_price := default "?" (pricing_prompt model) in
  let completion_price := default "?" (pricing_completion model) in
  let lines :=
    [ "  Name:       " +:+ name;
      "  Native ID:  " +:+ native;
      "  OpenRouter: " +:+ oid;
      match ctx with
      | Some n => "  Context:    " +:+ Fmt.str_int_commas n
      | None => "  Context:    ?"
      end;
      "  Pricing:    $" +:+ prompt_price +:+ "/token in, $"
        +:+ completion_price +:+ "/token out" ] in
  let input_mods := input_modalities model in
  let lines :=
    match input_mods with
    | [] => lines
    | _ => (lines ++ ["  Inputs:     " +:+ PyStr.join ", " input_mods])%list
    end in
  let params := supported_parameters model in
  let features :=
    ((if Fmt.mem "tools" params then ["tool_use"] else [])
     ++ (if Fmt.mem "response_format" params
            || Fmt.mem "structured_outputs" params
         then ["structured_output"] else [])
     ++ (if Fmt.mem "include_reasoning" params || Fmt.mem "reasoning" params
         then ["reasoning"] else []))%list in
  let lines :=
    match features with
    | [] => lines
    | _ => (lines ++ ["  Features:   " +:+ PyStr.join ", " features])%list
    end in
  PyStr.join (String "010"%char "") lines.

(** ** The process and its environment

    What the script can observe and change: the clock, the one cache file
    (its modification time and its text), what the remote endpoint would
    answer, and the trace of its input and output, oldest event first. *)

Inductive event : Type :=
| HttpGet (url user_agent : string) (timeout : Z)
| ReadFile (path : string)
| WriteFile (path content : string)
| Print (text : string).

Record world : Type := {
  clock : float64;
  cache_file : option (float64 * string);
  remote : option string;
  events : list event
}.

Definition M (A : Type) : Type := world -> result A * world.

#[global] Instance M_ret : MRet M := fun A a w => (Ok a, w).
#[global] Instance M_bind : MBind M :=
  fun A B f m w =>
    match m w with
    | (Ok a, w') => f a w'
    | (Err e, w') => (Err e, w')
    end.

Definition raise {A : Type} (e : exn) : M A := fun w => (Err e, w).

Definition lift {A : Type} (r : result A) : M A := fun w => (r, w).

Definition emit (e : event) : M unit :=
  fun w =>
    (Ok tt,
     {| clock := clock w; cache_file := cache_file w; remote := remote w;
        events := events w ++ [e] |}).

(** The cache file takes a new text, and the time of the clock as its
    modification time. *)
Definition set_cache (content : string) : M unit :=
  fun w =>
    (Ok tt,
     {| clock := clock w; cache_file := Some (clock w, content);
        remote := remote w; events := events w |}).

(** [print(text)] *)
Definition print (text : string) : M unit := emit (Print text).

(** [sys.exit(status)] *)
Definition sys_exit {A : Type} (status : Z) : M A := raise (SystemExit status).

(** [os.path.exists(CACHE_PATH)] *)
Definition os_path_exists : M bool :=
  fun w => (Ok (bool_decide (is_Some (cache_file w))), w).

(** [os.path.getmtime(CACHE_PATH)] *)
Definition os_path_getmtime : M float64 :=
  fun w =>
    match cache_file w with
    | Some (mtime, _) => (Ok mtime, w)
    | None => (Err OSError, w)
    end.

(** [time.time()] *)
Definition time_time : M float64 := fun w => (Ok (clock w), w).

(** [open(CACHE_PATH).read()] *)
Definition read_cache : M string :=
  fun w =>
    match cache_file w with
    | Some (_, content) => (emit (ReadFile CACHE_PATH);; mret content) w
    | None => (Err OSError, w)
    end.

(** [open(CACHE_PATH, "w")]: the file is created or emptied. *)
Definition open_cache_for_writing : M unit := set_cache "".

(** Writing [content] to the file just opened. *)
Definition write_cache (content : string) : M unit :=
  set_cache content;;
  emit (WriteFile CACHE_PATH content).

(** [urllib.request.urlopen(Request(url, headers), timeout).read().decode()] *)
Definition urlopen (url user_agent : string) (timeout : Z) : M string :=
  emit (HttpGet url user_agent timeout);;
  (fun w =>
     match remote w with
     | Some body => (Ok body, w)
     | None => (Err URLError, w)
     end) : M string.

Fixpoint for_each {A : Type} (f : A -> M unit) (l : list A) : M unit :=
  match l with
  | [] => mret tt
  | x :: l' => f x;; for_each f l'
  end.

(** The requests sent over the network, in a trace. *)
Definition is_network (e : event) : bool :=
  match e with
  | HttpGet _ _ _ => true
  | _ => false
  end.

Definition network_calls (w : world) : nat :=
  length (List.filter is_network (events w)).

(** The status the interpreter hands back to the shell: 0 when [main]
    returns, the argument of [sys.exit], and 1 for an exception that
    nothing catches. *)
Definition exit_status (r : result unit) : Z :=
  match r with
  | Ok _ => 0
  | Err (SystemExit status) => status
  | Err _ => 1
  end.

Section Script.

(** The [json] module: the values it produces, its parser, its printer,
    and the subscript [data[key]] on a parsed value, [None] where Python
    raises (reported as [KeyError] whatever the value is). *)
Context {json : Type}.
Variable json_loads : string -> option json.
Variable json_dumps : json -> string.
Variable json_getitem : json -> string -> option json.
(** The records read out of a parsed catalog. *)
Variable records : json -> list Model.

Definition json_load (text : string) : M json :=
  match json_loads text with
  | Some v => mret v
  | None => raise JSONDecodeError
  end.

Definition getitem (data : json) (key : string) : M json :=
  match json_getitem data key with
  | Some v => mret v
  | None => raise (KeyError key)
  end.

(** ** Cache store and fetcher *)

Definition fetch_models : M json :=
  cache_exists ← os_path_exists;
  cached ←
    (if (cache_exists : bool)
     then
       now ← time_time;
       mtime ← os_path_getmtime;
       let age := fsub now mtime in
       if lt (PyFloat age) (PyInt CACHE_TTL)
       then text ← read_cache; v ← json_load text; mret (Some v)
       else mret None
     else mret None);
  match cached with
  | Some v => mret v
  | None =>
      body ← urlopen API_URL "model-lookup/1.0" 10;
      data ← json_load body;
      open_cache_for_writing;;
      payload ← getitem data "data";
      write_cache (json_dumps payload);;
      getitem data "data"
  end.

(** ** Command line *)

Definition nl : string := String "010"%char "".

Definition main (argv : list string) : M unit :=
  if (length argv <? 2)%nat
  then
    print "Usage: python3 lookup.py <query>";;
    print "       python3 lookup.py --list <provider>";;
    sys_exit 1
  else
    data ← fetch_models;
    let models := records data in
    if String.eqb (nth 1 argv "") "--list"
    then
      let provider :=
        if (2 <? length argv)%nat then nth 2 argv "" else "google" in
      let results := list_provider provider models in
      match results with
      | [] =>
          print ("No models found for provider: " +:+ provider);;
          sys_exit 1
      | _ =>
          print ("Models from " +:+ provider +:+ " ("
                 +:+ Fmt.str_int (Z.of_nat (length results))
                 +:+ " total):" +:+ nl);;
          for_each
            (fun m =>
               let native := to_native_id (model_id m) in
               print ("  " +:+ native +:+ "  ("
                      +:+ default "" (model_name m) +:+ ")"))
            results
      end
    else
      let query_terms := drop 1 argv in
      results ← lift (search query_terms models);
      match results with
      | [] =>
          print ("No models found matching: " +:+ PyStr.join " " query_terms);;
          sys_exit 1
      | _ =>
          print ("Top matches for '" +:+ PyStr.join " " query_terms
                 +:+ "':" +:+ nl);;
          for_each
            (fun im =>
               print ("[" +:+ Fmt.str_int (Z.of_nat (fst im) + 1) +:+ "] "
                      +:+ format_model (snd im));;
               print "")
            (imap (fun i m => (i, m)) results)
      end.

(** Running the script: its exit status and the world it leaves. *)
Definition run (argv : list string) (w : world) : Z * world :=
  let '(r, w') := main argv w in (exit_status r, w').

(** The provider that list mode lists. *)
Definition provider_of (argv : list string) : string :=
  if (2 <? length argv)%nat then nth 2 argv "" else "google".

(** What an invocation finds: the listing of list mode or the matches
    of search mode; nothing when the usage is refused or an exception
    ends the run before there are results. *)
Definition results_of (argv : list string) (w : world)
  : option (list Model) :=
  if (length argv <? 2)%nat then None
  else
    match fst (fetch_models w) with
    | Ok data =>
        if String.eqb (nth 1 argv "") "--list"
        then Some (list_provider (provider_of argv) (records data))
        else
          match search (drop 1 argv) (records data) with
          | Ok results => Some results
          | Err _ => None
          end
    | Err _ => None
    end.

End Script.

(** ** Auxiliary notions of the properties *)

(** The pairing of each record with its score. *)
Definition with_score (terms : list string) (m : Model)
  : result (pynum * Model) :=
  s ← score_match terms m; Ok (s, m).

(** [a] may stand before [b]: its key is at least the key of [b]. *)
Definition key_ge {A : Type} (a b : pynum * A) : Prop := le (fst b) (fst a).

Definition key_number {A : Type} (a : pynum * A) : Prop :=
  is_number (value (fst a)).

(** The list [search] sorts and cuts, for a catalog whose scores were
    all computed. *)
Definition ranked (scored : list (pynum * Model)) : list (pynum * Model) :=
  sort_desc (List.filter (fun sm => gt (fst sm) (PyInt 0)) scored).

(** [score a > score b], both scores computed. *)
Definition score_gt (query_terms : list string) (a b : Model) : Prop :=
  exists sa sb,
    score_match query_terms a = Ok sa
    /\ score_match query_terms b = Ok sb
    /\ lt sb sa = true.

(** The prefix of a provider key: the one of the table, or the key
    followed by a slash. *)
Definition provider_prefix (provider : string) : string :=
  match PROVIDER_PREFIXES !! provider with
  | Some prefix => prefix
  | None => provider +:+ "/"
  end.

(** ** Sample data *)

(** A record as the catalog has them: a lower-case identifier and a
    display name with capitals. *)
Definition gemini_pro : Model :=
  {| model_id := "google/gemini-pro";
     model_name := Some "Google: Gemini Pro";
     created := Some 1700000000%Z;
     context_length := Some 32768%Z;
     pricing_prompt := Some "0.000000125";
     pricing_completion := Some "0.000000375";
     input_modalities := ["text"];
     supported_parameters := ["tools"] |}.

Definition gemini_pro_newer : Model := with_created gemini_pro 1700000001.

(** Two records that differ in their timestamp only, by one second, too
    far in the future for a float to tell the two seconds apart. *)
Definition far_old : Model := with_created gemini_pro (2 ^ 53).
Definition far_new : Model := with_created gemini_pro (2 ^ 53 + 1).

(** A record of the free tier whose marker is in capitals. *)
Definition shouting_free : Model :=
  {| model_id := "acme/chat:FREE";
     model_name := Some "Acme Chat";
     created := Some 1700000000%Z;
     context_length := None;
     pricing_prompt := None;
     pricing_completion := None;
     input_modalities := [];
     supported_parameters := [] |}.

(** A toy [json] module: a document is its own text, the empty text does
    not parse, and the only catalog it knows holds one record. *)
Definition demo_loads (text : string) : option string :=
  if String.eqb text "" then None else Some text.

Definition demo_dumps (v : string) : string := v.

Definition demo_getitem (v key : string) : option string :=
  if String.eqb key "data" then Some v else None.

Definition demo_records (v : string) : list Model :=
  if String.eqb v "[gemini]" then [gemini_pro] else [].

(** A cache written 100 seconds ago, and no network. *)
Definition demo_world : world :=
  {| clock := Fin 1700000100;
     cache_file := Some (Fin 1700000000, "[gemini]");
     remote := None;
     events := [] |}.

(** The number that a float of the Standard Library's [SpecFloat]
    denotes, and its conversion of integers: the reference the operations
    of [Float64] are compared with. *)
Definition of_spec (f : spec_float) : float64 :=
  match f with
  | S754_zero _ => Fin 0
  | S754_infinity s => Inf s
  | S754_nan => NaN
  | S754_finite s m e =>
      Fin (Qred ((if s then - (1) else 1) * inject_Z (Z.pos m) * 2 ^ e)%Q)
  end.

Definition spec_of_int (z : Z) : spec_float := binary_normalize 53 1024 z 0 false.

Definition spec_1e12 : spec_float := spec_of_int 1000000000000.

(** ** Notions of the further properties *)

(** The cache file is there and younger than [CACHE_TTL]. *)
Definition cache_fresh (w : world) : bool :=
  match cache_file w with
  | Some (mtime, _) => lt (PyFloat (fsub (clock w) mtime)) (PyInt CACHE_TTL)
  | None => false
  end.

(** The one request the script sends. *)
Definition the_request : event := HttpGet API_URL "model-lookup/1.0" 10.

(** The world after more events. *)
Definition after (w : world) (es : list event) : world :=
  {| clock := clock w; cache_file := cache_file w; remote := remote w;
     events := (events w ++ es)%list |}.

(** The world after the cache file was given a new text. *)
Definition rewritten (w : world) (content : string) : world :=
  {| clock := clock w; cache_file := Some (clock w, content);
     remote := remote w; events := events w |}.

(** A toy subscript that finds no ["data"] in the document [{}]. *)
Definition demo_getitem_strict (v key : string) : option string :=
  if String.eqb v "{}" then None else demo_getitem v key.

(** A cache written 3600 seconds ago to the second, and a network that
    answers [body]. *)
Definition stale_world (body : option string) : world :=
  {| clock := Fin 1700003600;
     cache_file := Some (Fin 1700000000, "old");
     remote := body;
     events := [] |}.

(** [s.isascii()]: every character of the text is an ASCII character. *)
Fixpoint isascii (s : string) : bool :=
  match s with
  | EmptyString => true
  | String c s' => (nat_of_ascii c <? 128)%nat && isascii s'
  end.

(** [r] is [s] with some of its dots turned into dashes and nothing else
    changed. *)
Inductive dashed : string -> string -> Prop :=
| dashed_nil : dashed "" ""
| dashed_same (c : ascii) (s r : string) :
    dashed s r -> dashed (String c s) (String c r)
| dashed_dot (s r : string) :
    dashed s r -> dashed (String "."%char s) (String "-"%char r).

(** The term is a substring of the identifier or of the display name,
    all in lower case. *)
Definition matches_term_with (lower : string -> string) (m : Model)
  (term : string) : bool :=
  PyStr.contains (lower term) (lower (model_id m))
  || PyStr.contains (lower term) (lower (default "" (model_name m))).

Definition matches_term : Model -> string -> bool :=
  matches_term_with PyStr.lower.


Definition undated_free : Model :=
  {| model_id := "acme/chat:free";
     model_name := None;
     created := None;
     context_length := None;
     pricing_prompt := None;
     pricing_completion := None;
     input_modalities := [];
     supported_parameters := [] |}.

(** The score of the record is computed and positive. *)
Definition scores_positive (terms : list string) (m : Model) : bool :=
  match score_match terms m with
  | Ok s => gt s (PyInt 0)
  | Err _ => false
  end.

(** [a] and [b] are the same number. *)
Definition tie (a b : pynum) : bool := negb (lt a b) && negb (lt b a).

(** The score of the record is computed and is the number [k]. *)
Definition same_score (terms : list string) (k : pynum) (m : Model) : bool :=
  match score_match terms m with
  | Ok s => tie k s
  | Err _ => false
  end.

(** The score that [far_old] and [far_new] share. *)
Definition far_score : pynum :=
  match score_match ["gemini"] far_old with
  | Ok s => s
  | Err _ => PyInt 0
  end.

(** A character other than the thousands separator. *)
Definition not_comma (c : ascii) : bool := negb (Ascii.eqb c ","%char).

(** The text without its commas. *)
Fixpoint strip_commas (s : string) : string :=
  match s with
  | EmptyString => EmptyString
  | String c s' =>
      if Ascii.eqb c ","%char then strip_commas s'
      else String c (strip_commas s')
  end.

(** The lines the script prints: the usage, the header and the lines of
    list mode, the header and the numbered blocks of search mode. *)
Definition usage_lines : list string :=
  [ "Usage: python3 lookup.py <query>";
    "       python3 lookup.py --list <provider>" ].

Definition list_header (provider : string) (n : nat) : string :=
  "Models from " +:+ provider +:+ " (" +:+ Fmt.str_int (Z.of_nat n)
  +:+ " total):" +:+ nl.

Definition list_line (m : Model) : string :=
  "  " +:+ to_native_id (model_id m) +:+ "  ("
  +:+ default "" (model_name m) +:+ ")".

Definition search_header (terms : list string) : string :=
  "Top matches for '" +:+ PyStr.join " " terms +:+ "':" +:+ nl.

Definition match_lines (im : nat * Model) : list string :=
  [ "[" +:+ Fmt.str_int (Z.of_nat (fst im) + 1) +:+ "] "
    +:+ format_model (snd im);
    "" ].

Definition is_print (e : event) : bool :=
  match e with
  | Print _ => true
  | _ => false
  end.

(** The record with other supported parameters. *)
Definition with_parameters (m : Model) (params : list string) : Model :=
  {| model_id := model_id m; model_name := model_name m;
     created := created m; context_length := context_length m;
     pricing_prompt := pricing_prompt m;
     pricing_completion := pricing_completion m;
     input_modalities := input_modalities m;
     supported_parameters := params |}.

(** The parameters the formatter looks for. *)
Definition feature_parameters : list string :=
  [ "tools"; "response_format"; "structured_outputs"; "include_reasoning";
    "reasoning" ].


(** * Properties *)

(** ** Binary64 arithmetic *)

Module Float64Facts.
Local Open Scope Q_scope.

Lemma two_neq_0 : ~ 2 == 0.
Proof. discriminate. Qed.

Lemma pow2_pos (k : Z) : 0 < 2 ^ k.
Proof. apply Qpower_0_lt. reflexivity. Qed.

Lemma pow2_add (a b : Z) : 2 ^ (a + b) == 2 ^ a * 2 ^ b.
Proof. apply Qpower_plus, two_neq_0. Qed.

Lemma pow2_le (a b : Z) : (a <= b)%Z -> 2 ^ a <= 2 ^ b.
Proof. intros H. apply Qpower_le_compat_l; [exact H | discriminate]. Qed.

Lemma pow2_lt (a b : Z) : (a < b)%Z -> 2 ^ a < 2 ^ b.
Proof. intros H. apply Qpower_lt_compat_l; [exact H | reflexivity]. Qed.

Lemma pow2_Z (k : Z) : (0 <= k)%Z -> 2 ^ k == inject_Z (2 ^ k).
Proof. intros H. symmetry. apply (Zpower_Qpower 2 k H). Qed.

Lemma pow2_succ (k : Z) : 2 ^ (k + 1) == 2 * 2 ^ k.
Proof. rewrite pow2_add. change (2 ^ 1) with 2. ring. Qed.

(** [ilog2] brackets a positive rational between two powers of two. *)
Lemma ilog2_spec (x : Q) :
  0 < x -> 2 ^ ilog2 x <= x /\ x < 2 ^ (ilog2 x + 1).
Proof.
  intros Hx. unfold ilog2.
  destruct x as [n d]. cbn [Qnum Qden].
  assert (Hn : (0 < n)%Z).
  { unfold Qlt in Hx. simpl in Hx. lia. }
  set (ln := Z.log2 n). set (ld := Z.log2 (Z.pos d)).
  destruct (Z.log2_spec n Hn) as [Hn1 Hn2].
  destruct (Z.log2_spec (Z.pos d) ltac:(lia)) as [Hd1 Hd2].
  fold ln in Hn1, Hn2. fold ld in Hd1, Hd2.
  assert (Hln : (0 <= ln)%Z) by apply Z.log2_nonneg.
  assert (Hld : (0 <= ld)%Z) by apply Z.log2_nonneg.
  assert (Ex : n # d == inject_Z n / inject_Z (Z.pos d)).
  { apply Qmake_Qdiv. }
  assert (Hdpos : 0 < inject_Z (Z.pos d)).
  { change 0 with (inject_Z 0). rewrite <- Zlt_Qlt. lia. }
  (* the four bounds, as rationals *)
  assert (Qn1 : 2 ^ ln <= inject_Z n).
  { rewrite pow2_Z by lia. rewrite <- Zle_Qle. exact Hn1. }
  assert (Qn2 : inject_Z n < 2 ^ (ln + 1)).
  { rewrite pow2_Z by lia. rewrite <- Zlt_Qlt. unfold Z.succ in Hn2. exact Hn2. }
  assert (Qd1 : 2 ^ ld <= inject_Z (Z.pos d)).
  { rewrite pow2_Z by lia. rewrite <- Zle_Qle. exact Hd1. }
  assert (Qd2 : inject_Z (Z.pos d) < 2 ^ (ld + 1)).
  { rewrite pow2_Z by lia. rewrite <- Zlt_Qlt. unfold Z.succ in Hd2. exact Hd2. }
  pose proof (pow2_pos ld) as Pld.
  pose proof (pow2_pos (ln - ld)) as Pe.
  assert (E1 : 2 ^ ln == 2 ^ (ln - ld) * 2 ^ ld).
  { rewrite <- pow2_add. now replace (ln - ld + ld)%Z with ln by lia. }
  destruct (Qle_bool (2 ^ (ln - ld)) (n # d)) eqn:T.
  - apply Qle_bool_iff in T. split; [exact T|].
    rewrite Ex. apply Qlt_shift_div_r; [exact Hdpos|].
    rewrite pow2_succ.
    rewrite pow2_succ in Qn2. rewrite E1 in Qn2.
    nra.
  - assert (T' : n # d < 2 ^ (ln - ld)).
    { apply Qnot_le_lt. intros C. apply Qle_bool_iff in C. congruence. }
    split.
    + rewrite Ex. apply Qle_shift_div_l; [exact Hdpos|].
      assert (E2 : 2 ^ (ln - ld) == 2 * 2 ^ (ln - ld - 1)).
      { rewrite <- pow2_succ. now replace (ln - ld - 1 + 1)%Z with (ln - ld)%Z by lia. }
      pose proof (pow2_pos (ln - ld - 1)) as Pe1.
      rewrite pow2_succ in Qd2. rewrite E1, E2 in Qn1.
      nra.
    + now replace (ln - ld - 1 + 1)%Z with (ln - ld)%Z by lia.
Qed.

Lemma ilog2_mono (x y : Q) : 0 < x -> x <= y -> (ilog2 x <= ilog2 y)%Z.
Proof.
  intros Hx Hxy.
  destruct (ilog2_spec x Hx) as [Lx Ux].
  destruct (ilog2_spec y ltac:(lra)) as [Ly Uy].
  destruct (Z_le_gt_dec (ilog2 x) (ilog2 y)) as [H|H]; [exact H|].
  exfalso.
  pose proof (pow2_le (ilog2 y + 1) (ilog2 x) ltac:(lia)). lra.
Qed.

Lemma ilog2_comp (x y : Q) : x == y -> 0 < x -> ilog2 x = ilog2 y.
Proof.
  intros E Hx. apply Z.le_antisymm; apply ilog2_mono; lra.
Qed.


(** *** Rounding to the nearest integer *)

Lemma rne_comp (x y : Q) : x == y -> rne x = rne y.
Proof.
  intros E. unfold rne. rewrite (Qfloor_comp _ _ E).
  assert (E' : x - inject_Z (Qfloor y) == y - inject_Z (Qfloor y)) by (rewrite E; reflexivity).
  rewrite (Qcompare_comp _ _ E' _ _ (Qeq_refl (1 # 2))). reflexivity.
Qed.

Lemma rne_Z (n : Z) : rne (inject_Z n) = n.
Proof.
  unfold rne. rewrite Qfloor_Z.
  destruct (Qcompare_spec (inject_Z n - inject_Z n) (1 # 2)) as [H|H|H];
    try reflexivity; exfalso; lra.
Qed.

Lemma rne_mono (x y : Q) : x <= y -> (rne x <= rne y)%Z.
Proof.
  intros Hxy.
  pose proof (Qfloor_resp_le _ _ Hxy) as Hf.
  pose proof (Qfloor_le x) as Lx. pose proof (Qlt_floor x) as Ux.
  pose proof (Qfloor_le y) as Ly. pose proof (Qlt_floor y) as Uy.
  unfold rne.
  destruct (Z.eq_dec (Qfloor x) (Qfloor y)) as [E|NE].
  - rewrite <- E in *.
    destruct (Qcompare_spec (x - inject_Z (Qfloor x)) (1 # 2)) as [H|H|H];
    destruct (Qcompare_spec (y - inject_Z (Qfloor x)) (1 # 2)) as [G|G|G];
    try destruct (Z.even (Qfloor x)); try lia; exfalso; lra.
  - assert (Hlt : (Qfloor x + 1 <= Qfloor y)%Z) by lia.
    destruct (Qcompare (x - inject_Z (Qfloor x)) (1 # 2));
    destruct (Qcompare (y - inject_Z (Qfloor y)) (1 # 2));
    try destruct (Z.even (Qfloor x)); try destruct (Z.even (Qfloor y)); lia.
Qed.

(** *** Rounding on the grid of one binade *)

Lemma on_grid_mono (k : Z) (x y : Q) : x <= y -> on_grid k x <= on_grid k y.
Proof.
  intros H. unfold on_grid.
  pose proof (pow2_pos k) as P.
  apply Qmult_le_compat_r; [|lra].
  rewrite <- Zle_Qle. apply rne_mono.
  apply Qmult_le_compat_r; [exact H|].
  apply Qlt_le_weak, Qinv_lt_0_compat, P.
Qed.

(** A power of two at or above the unit of the grid is a point of it. *)
Lemma on_grid_pow2 (k e : Z) : (k <= e)%Z -> on_grid k (2 ^ e) == 2 ^ e.
Proof.
  intros H. unfold on_grid.
  assert (E : 2 ^ e / 2 ^ k == inject_Z (2 ^ (e - k))).
  { rewrite <- pow2_Z by lia. rewrite Qpower_minus by apply two_neq_0. reflexivity. }
  rewrite (rne_comp _ _ E), rne_Z.
  rewrite <- pow2_Z by lia. rewrite <- pow2_add.
  now replace (e - k + k)%Z with e by lia.
Qed.

(** An integer multiple of the unit is a point of the grid. *)
Lemma on_grid_multiple (k : Z) (n : Z) :
  on_grid k (inject_Z n * 2 ^ k) == inject_Z n * 2 ^ k.
Proof.
  unfold on_grid.
  assert (E : inject_Z n * 2 ^ k / 2 ^ k == inject_Z n).
  { field. pose proof (pow2_pos k). lra. }
  rewrite (rne_comp _ _ E), rne_Z. reflexivity.
Qed.

Lemma round_pos_grid (x : Q) : round_pos x == on_grid (ulp_exp x) x.
Proof. unfold round_pos. apply Qred_correct. Qed.

Lemma ulp_exp_mono (x y : Q) : 0 < x -> x <= y -> (ulp_exp x <= ulp_exp y)%Z.
Proof.
  intros Hx Hxy. unfold ulp_exp.
  pose proof (ilog2_mono x y Hx Hxy). lia.
Qed.

Lemma round_pos_mono (x y : Q) :
  0 < x -> x <= y -> round_pos x <= round_pos y.
Proof.
  intros Hx Hxy.
  rewrite !round_pos_grid.
  pose proof (ulp_exp_mono x y Hx Hxy) as Hk.
  destruct (Z.eq_dec (ulp_exp x) (ulp_exp y)) as [E|NE].
  - rewrite E. now apply on_grid_mono.
  - set (e := ilog2 y).
    assert (Hy : 0 < y) by lra.
    destruct (ilog2_spec x Hx) as [_ Ux].
    destruct (ilog2_spec y Hy) as [Ly _]. fold e in Ly.
    assert (Hlog : (ilog2 x + 1 <= e)%Z).
    { unfold ulp_exp in *. subst e. lia. }
    assert (Hke : (ulp_exp y <= e)%Z).
    { unfold ulp_exp in *. subst e. lia. }
    pose proof (pow2_le _ _ Hlog) as Hp.
    apply Qle_trans with (2 ^ e).
    + rewrite <- (on_grid_pow2 (ulp_exp x) e) by lia.
      apply on_grid_mono. lra.
    + rewrite <- (on_grid_pow2 (ulp_exp y) e) at 1 by lia.
      apply on_grid_mono. exact Ly.
Qed.

Lemma round_pos_nonneg (x : Q) : 0 <= x -> 0 <= round_pos x.
Proof.
  intros Hx. rewrite round_pos_grid. unfold on_grid.
  pose proof (pow2_pos (ulp_exp x)) as P.
  apply Qmult_le_0_compat; [|lra].
  change 0 with (inject_Z 0). rewrite <- Zle_Qle.
  rewrite <- (rne_Z 0). apply rne_mono.
  apply Qle_shift_div_l; [exact P|]. change (inject_Z 0) with 0. lra.
Qed.


(** *** [round64] *)

Lemma round64_comp (x y : Q) : x == y -> round64 x = round64 y.
Proof. intros E. unfold round64. now rewrite (Qred_complete _ _ E). Qed.

Lemma round64_0 : round64 0 = 0.
Proof. reflexivity. Qed.

Lemma round64_pos (x : Q) : 0 < x -> round64 x = round_pos (Qred x).
Proof.
  intros H. unfold round64. cbv zeta.
  assert (G : 0 < Qred x) by now rewrite Qred_correct.
  assert (G' : Qcompare (Qred x) 0 = Gt) by (apply Qgt_alt; exact G).
  now rewrite G'.
Qed.

Lemma round64_neg (x : Q) :
  x < 0 -> round64 x = Qred (- round_pos (Qred (- x))).
Proof.
  intros H. unfold round64. cbv zeta.
  assert (G : Qred x < 0) by now rewrite Qred_correct.
  assert (G' : Qcompare (Qred x) 0 = Lt) by (apply Qlt_alt; exact G).
  rewrite G'.
  assert (E : Qred (- Qred x) = Qred (- x)).
  { apply Qred_complete. now rewrite Qred_correct. }
  now rewrite E.
Qed.

Lemma round64_nonneg (x : Q) : 0 <= x -> 0 <= round64 x.
Proof.
  intros H. destruct (Qlt_le_dec 0 x) as [P|P].
  - rewrite round64_pos by exact P. apply round_pos_nonneg.
    rewrite Qred_correct. exact H.
  - rewrite (round64_comp x 0) by lra. rewrite round64_0. lra.
Qed.

Lemma round64_nonpos (x : Q) : x <= 0 -> round64 x <= 0.
Proof.
  intros H. destruct (Qlt_le_dec x 0) as [P|P].
  - rewrite round64_neg by exact P. rewrite Qred_correct.
    assert (0 <= round_pos (Qred (- x))).
    { apply round_pos_nonneg. rewrite Qred_correct. lra. }
    lra.
  - rewrite (round64_comp x 0) by lra. rewrite round64_0. lra.
Qed.

(** Rounding never reverses an order. *)
Lemma round64_mono (x y : Q) : x <= y -> round64 x <= round64 y.
Proof.
  intros H.
  destruct (Qlt_le_dec 0 x) as [Px|Px].
  - rewrite (round64_pos x Px), (round64_pos y) by lra.
    apply round_pos_mono; rewrite !Qred_correct; assumption.
  - destruct (Qlt_le_dec 0 y) as [Py|Py].
    + pose proof (round64_nonpos x Px). pose proof (round64_nonneg y ltac:(lra)).
      lra.
    + destruct (Qlt_le_dec y 0) as [Ny|Ny].
      * rewrite (round64_neg x), (round64_neg y) by lra.
        rewrite (Qred_correct (- round_pos (Qred (- x)))).
        assert (round_pos (Qred (- y)) <= round_pos (Qred (- x))).
        { apply round_pos_mono; rewrite !Qred_correct; lra. }
        pose proof (Qred_correct (- round_pos (Qred (- y)))) as E.
        lra.
      * rewrite (round64_comp y 0) by lra. rewrite round64_0.
        now apply round64_nonpos.
Qed.

(** Integers below [2^53] in magnitude are floats. *)
Lemma round_pos_small_int (z : Z) :
  (0 < z < 2 ^ 53)%Z -> round_pos (inject_Z z) = inject_Z z.
Proof.
  intros Hz.
  assert (Hq : 0 < inject_Z z).
  { change 0 with (inject_Z 0). rewrite <- Zlt_Qlt. lia. }
  assert (Hlog : (ilog2 (inject_Z z) <= 52)%Z).
  { destruct (ilog2_spec _ Hq) as [L _].
    destruct (Z_le_gt_dec (ilog2 (inject_Z z)) 52) as [?|G]; [assumption|].
    exfalso.
    pose proof (pow2_le 53 (ilog2 (inject_Z z)) ltac:(lia)) as P.
    assert (inject_Z z < 2 ^ 53).
    { rewrite (pow2_Z 53) by lia. rewrite <- Zlt_Qlt. lia. }
    lra. }
  unfold round_pos.
  set (k := ulp_exp (inject_Z z)).
  assert (Hk : (k <= 0)%Z) by (unfold k, ulp_exp; lia).
  transitivity (Qred (inject_Z z)); [|apply inject_Z_Qred].
  apply Qred_complete.
  assert (E : inject_Z (z * 2 ^ (- k)) * 2 ^ k == inject_Z z).
  { rewrite inject_Z_mult. rewrite <- (pow2_Z (- k)) by lia.
    rewrite <- Qmult_assoc, <- pow2_add.
    replace (- k + k)%Z with 0%Z by lia. change (2 ^ 0) with 1. ring. }
  assert (A : inject_Z z / 2 ^ k == inject_Z (z * 2 ^ (- k))).
  { rewrite <- E at 1. field. pose proof (pow2_pos k). lra. }
  unfold on_grid. rewrite (rne_comp _ _ A), rne_Z. exact E.
Qed.

Lemma round64_small_int (z : Z) :
  (Z.abs z < 2 ^ 53)%Z -> round64 (inject_Z z) = inject_Z z.
Proof.
  intros Hz.
  destruct (Z.lt_trichotomy z 0) as [N|[->|P]].
  - assert (Hq : inject_Z z < 0).
    { change 0 with (inject_Z 0). rewrite <- Zlt_Qlt. lia. }
    rewrite round64_neg by exact Hq.
    rewrite <- inject_Z_opp, inject_Z_Qred.
    rewrite round_pos_small_int by lia.
    rewrite <- inject_Z_opp, Z.opp_involutive. apply inject_Z_Qred.
  - reflexivity.
  - assert (Hq : 0 < inject_Z z).
    { change 0 with (inject_Z 0). rewrite <- Zlt_Qlt. lia. }
    rewrite round64_pos by exact Hq. rewrite inject_Z_Qred.
    apply round_pos_small_int. lia.
Qed.


(** *** The order of floats *)

Lemma fle_refl (a : float64) : is_number a -> fle a a.
Proof. destruct a as [x|[]|]; simpl; intros H; try exact I; [lra|contradiction]. Qed.

Lemma fle_trans (a b c : float64) : fle a b -> fle b c -> fle a c.
Proof.
  destruct a as [x|[]|], b as [y|[]|], c as [z|[]|]; simpl;
    try tauto; intros; lra.
Qed.

Lemma fle_number_l (a b : float64) : fle a b -> is_number a.
Proof. destruct a as [x|[]|], b as [y|[]|]; simpl; tauto. Qed.

Lemma fle_number_r (a b : float64) : fle a b -> is_number b.
Proof. destruct a as [x|[]|], b as [y|[]|]; simpl; tauto. Qed.

Lemma flt_false_iff (a b : float64) :
  is_number a -> is_number b -> (flt b a = false <-> fle a b).
Proof.
  destruct a as [x|[]|], b as [y|[]|]; simpl; try tauto;
    intros _ _; try (split; [discriminate | tauto]);
    try (split; [tauto | reflexivity]).
  rewrite Bool.negb_false_iff, Qle_bool_iff. reflexivity.
Qed.

Lemma fle_flt_false (a b : float64) : fle a b -> flt b a = false.
Proof.
  intros H. apply flt_false_iff;
    [exact (fle_number_l _ _ H) | exact (fle_number_r _ _ H) | exact H].
Qed.

Lemma flt_true_iff (a b : float64) :
  flt a b = true <-> fle a b /\ ~ fle b a.
Proof.
  destruct a as [x|[]|], b as [y|[]|]; simpl;
    try (split; [discriminate | tauto]);
    try (split; [tauto | reflexivity]).
  rewrite Bool.negb_true_iff.
  split.
  - intros H. assert (~ y <= x).
    { intros C. apply Qle_bool_iff in C. congruence. }
    split; [apply Qlt_le_weak, Qnot_le_lt|]; assumption.
  - intros [_ H]. destruct (Qle_bool y x) eqn:E; [|reflexivity].
    apply Qle_bool_iff in E. contradiction.
Qed.

(** *** The nearest float *)

Lemma of_Q_cases (x : Q) :
  (of_Q x = Fin (round64 x) /\ Qabs (round64 x) < overflow_threshold)
  \/ (of_Q x = Inf false /\ overflow_threshold <= round64 x)
  \/ (of_Q x = Inf true /\ round64 x <= - overflow_threshold).
Proof.
  unfold of_Q, sign_of.
  destruct (Qle_bool overflow_threshold (Qabs (round64 x))) eqn:O.
  - apply Qle_bool_iff in O. right.
    destruct (Qle_bool 0 x) eqn:S.
    + apply Qle_bool_iff in S. left. split; [reflexivity|].
      rewrite Qabs_pos in O; [exact O | now apply round64_nonneg].
    + right. split; [reflexivity|].
      assert (x <= 0).
      { apply Qlt_le_weak, Qnot_le_lt. intros C.
        apply Qle_bool_iff in C. congruence. }
      rewrite Qabs_neg in O by now apply round64_nonpos. lra.
  - left. split; [reflexivity|].
    apply Qnot_le_lt. intros C. apply Qle_bool_iff in C. congruence.
Qed.

Lemma threshold_pos : 0 < overflow_threshold.
Proof. apply pow2_pos. Qed.

Lemma of_Q_number (x : Q) : is_number (of_Q x).
Proof.
  destruct (of_Q_cases x) as [[-> _]|[[-> _]|[-> _]]]; exact I.
Qed.

Lemma of_Q_mono (x y : Q) : x <= y -> fle (of_Q x) (of_Q y).
Proof.
  intros H. pose proof (round64_mono x y H) as R.
  pose proof threshold_pos as T.
  destruct (of_Q_cases x) as [[-> Bx]|[[-> Bx]|[-> Bx]]];
  destruct (of_Q_cases y) as [[-> By]|[[-> By]|[-> By]]];
    simpl; try exact I; try exact R;
    try (apply Qabs_Qlt_condition in Bx);
    try (apply Qabs_Qlt_condition in By); lra.
Qed.

Lemma of_Q_comp (x y : Q) : x == y -> of_Q x = of_Q y.
Proof.
  intros E. unfold of_Q, sign_of. rewrite (round64_comp x y E).
  now rewrite (Qleb_comp 0 0 (Qeq_refl 0) x y E).
Qed.

(** *** Monotonicity of the operations *)

Lemma fadd_mono (x x' : Q) (b b' : float64) :
  x <= x' -> fle b b' -> fle (fadd (Fin x) b) (fadd (Fin x') b').
Proof.
  intros Hx Hb.
  destruct b as [y|[]|], b' as [y'|[]|]; simpl in *; try tauto.
  - apply of_Q_mono. lra.
  - pose proof (of_Q_number (x + y)).
    destruct (of_Q (x + y)) as [?|[]|]; simpl in *; tauto.
  - pose proof (of_Q_number (x' + y')).
    destruct (of_Q (x' + y')) as [?|[]|]; simpl in *; tauto.
Qed.

Lemma fsub_mono (a a' : float64) (c : Q) :
  fle a a' -> fle (fsub a (Fin c)) (fsub a' (Fin c)).
Proof.
  intros H. unfold fsub. simpl fneg.
  destruct a as [x|[]|], a' as [x'|[]|]; simpl in *; try tauto.
  - apply of_Q_mono. lra.
  - pose proof (of_Q_number (x + Qred (- c))).
    destruct (of_Q (x + Qred (- c))) as [?|[]|]; simpl in *; tauto.
  - pose proof (of_Q_number (x' + Qred (- c))).
    destruct (of_Q (x' + Qred (- c))) as [?|[]|]; simpl in *; tauto.
Qed.

Lemma fdiv_mono (x x' d : Q) :
  0 < d -> x <= x' -> fle (fdiv (Fin x) (Fin d)) (fdiv (Fin x') (Fin d)).
Proof.
  intros Hd H. simpl. apply of_Q_mono.
  apply Qmult_le_compat_r; [exact H|].
  apply Qlt_le_weak, Qinv_lt_0_compat, Hd.
Qed.

(** *** The error of one rounding *)

Lemma rne_error (x : Q) : Qabs (inject_Z (rne x) - x) <= 1 # 2.
Proof.
  pose proof (Qfloor_le x) as L. pose proof (Qlt_floor x) as U.
  rewrite inject_Z_plus in U. change (inject_Z 1) with 1 in U.
  apply Qabs_Qle_condition. unfold rne.
  destruct (Qcompare_spec (x - inject_Z (Qfloor x)) (1 # 2)) as [H|H|H].
  - destruct (Z.even (Qfloor x)).
    + split; lra.
    + rewrite inject_Z_plus. change (inject_Z 1) with 1. split; lra.
  - split; lra.
  - rewrite inject_Z_plus. change (inject_Z 1) with 1. split; lra.
Qed.

Lemma on_grid_error (k : Z) (x : Q) :
  Qabs (on_grid k x - x) <= (1 # 2) * 2 ^ k.
Proof.
  pose proof (pow2_pos k) as P.
  pose proof (rne_error (x / 2 ^ k)) as R.
  apply Qabs_Qle_condition in R as [R1 R2].
  assert (E : x == x / 2 ^ k * 2 ^ k) by (field; lra).
  apply Qabs_Qle_condition. unfold on_grid.
  set (n := inject_Z (rne (x / 2 ^ k))) in *.
  set (q := x / 2 ^ k) in *.
  split; nra.
Qed.

Lemma pow2_half (k : Z) : (1 # 2) * 2 ^ k == 2 ^ (k - 1).
Proof.
  replace k with (k - 1 + 1)%Z at 1 by lia. rewrite pow2_succ. field.
Qed.

Lemma round_pos_error (x : Q) (K : Z) :
  0 < x -> x < 2 ^ K -> (-1021 <= K)%Z ->
  Qabs (round_pos x - x) <= 2 ^ (K - 54).
Proof.
  intros Hx HK Hmin.
  destruct (ilog2_spec x Hx) as [L _].
  assert (Hlog : (ilog2 x < K)%Z).
  { destruct (Z_lt_le_dec (ilog2 x) K) as [?|G]; [assumption|].
    exfalso. pose proof (pow2_le K (ilog2 x) G). lra. }
  assert (Hu : (ulp_exp x <= K - 53)%Z) by (unfold ulp_exp; lia).
  pose proof (on_grid_error (ulp_exp x) x) as E.
  pose proof (pow2_le _ _ Hu) as P.
  pose proof (pow2_half (K - 53)) as Hh.
  replace (K - 53 - 1)%Z with (K - 54)%Z in Hh by lia.
  assert (Eq : round_pos x - x == on_grid (ulp_exp x) x - x)
    by (rewrite round_pos_grid; reflexivity).
  rewrite Eq. lra.
Qed.

Lemma round64_error (x : Q) (K : Z) :
  Qabs x < 2 ^ K -> (-1021 <= K)%Z ->
  Qabs (round64 x - x) <= 2 ^ (K - 54).
Proof.
  intros HK Hmin. pose proof (pow2_pos (K - 54)) as P.
  apply Qabs_Qlt_condition in HK as [H1 H2].
  destruct (Qlt_le_dec 0 x) as [Px|Px].
  - rewrite (round64_pos x Px).
    assert (G : 0 < Qred x) by now rewrite Qred_correct.
    assert (G' : Qred x < 2 ^ K) by now rewrite Qred_correct.
    pose proof (round_pos_error (Qred x) K G G' Hmin) as E.
    pose proof (Qred_correct x) as R.
    apply Qabs_Qle_condition in E as [E1 E2].
    apply Qabs_Qle_condition. split; lra.
  - destruct (Qlt_le_dec x 0) as [Nx|Nx].
    + rewrite (round64_neg x Nx).
      assert (G : 0 < Qred (- x)) by (rewrite Qred_correct; lra).
      assert (G' : Qred (- x) < 2 ^ K) by (rewrite Qred_correct; lra).
      pose proof (round_pos_error (Qred (- x)) K G G' Hmin) as E.
      pose proof (Qred_correct (- x)) as R.
      pose proof (Qred_correct (- round_pos (Qred (- x)))) as R'.
      apply Qabs_Qle_condition in E as [E1 E2].
      apply Qabs_Qle_condition. split; lra.
    + rewrite (round64_comp x 0) by lra. rewrite round64_0.
      apply Qabs_Qle_condition. split; lra.
Qed.

(** Below [2^K] in magnitude the nearest float is finite and within
    [2^(K-54)]. *)
Lemma of_Q_near (x : Q) (K : Z) :
  Qabs x < 2 ^ K -> (-1021 <= K <= 1023)%Z ->
  exists r, of_Q x = Fin r /\ Qabs (r - x) <= 2 ^ (K - 54).
Proof.
  intros HK [Hmin Hmax].
  pose proof (round64_error x K HK Hmin) as E.
  exists (round64 x). split; [|exact E].
  pose proof (pow2_le (K - 54) K ltac:(lia)) as P1.
  pose proof (pow2_le (K + 1) 1024 ltac:(lia)) as P2.
  rewrite pow2_succ in P2.
  apply Qabs_Qlt_condition in HK as [H1 H2].
  apply Qabs_Qle_condition in E as [E1 E2].
  unfold overflow_threshold in *.
  destruct (of_Q_cases x) as [[H _]|[[_ B]|[_ B]]]; [exact H| |];
    exfalso; unfold overflow_threshold in B; lra.
Qed.

End Float64Facts.


(** ** Strings and the regular expression *)

Module ReFacts.

Import Re.

Lemma length_append (a b : string) :
  String.length (a +:+ b) = (String.length a + String.length b)%nat.
Proof. induction a as [|c a IH]; simpl; [reflexivity | now rewrite IH]. Qed.

Lemma span_digits_app (s d r : string) :
  span_digits s = (d, r) -> s = d +:+ r.
Proof.
  revert d r; induction s as [|c s IH]; simpl; intros d r H.
  - now inversion H.
  - destruct (is_digit c).
    + destruct (span_digits s) as [d' r'].
      specialize (IH d' r' eq_refl).
      inversion H; subst; simpl. reflexivity.
    + now inversion H.
Qed.

(** A match is a prefix of the string, made of its two groups around a
    dot. *)
Lemma match_version_app (s d1 d2 rest : string) :
  match_version s = Some (d1, d2, rest) ->
  s = d1 +:+ "." +:+ d2 +:+ rest.
Proof.
  unfold match_version.
  destruct (span_digits s) as [e1 r1] eqn:E1.
  destruct e1 as [|c e1]; [discriminate|].
  destruct r1 as [|c1 r2]; [discriminate|].
  destruct (Ascii.eqb_spec c1 "."%char) as [->|Hne].
  2:{ destruct c1 as [[] [] [] [] [] [] [] []]; try discriminate.
      now contradict Hne. }
  destruct (span_digits r2) as [e2 r3] eqn:E2.
  destruct e2 as [|c2 e2]; [discriminate|].
  intros H; inversion H; subst.
  apply span_digits_app in E1, E2. rewrite E1, E2. reflexivity.
Qed.

Lemma match_version_shorter (s d1 d2 rest : string) :
  match_version s = Some (d1, d2, rest) ->
  (String.length rest < String.length s)%nat.
Proof.
  intros H. apply match_version_app in H. subst s.
  rewrite !length_append. simpl. lia.
Qed.

(** The substitution replaces a dot by a dash and moves nothing. *)
Lemma sub_from_length (fuel : nat) (s : string) :
  String.length (sub_from fuel s) = String.length s.
Proof.
  revert s; induction fuel as [|fuel IH]; intros s; simpl; [reflexivity|].
  destruct (match_version s) as [[[d1 d2] rest]|] eqn:E.
  - apply match_version_app in E. subst s.
    rewrite !length_append, IH. reflexivity.
  - destruct s as [|c s]; simpl; [reflexivity | now rewrite IH].
Qed.

(** The length of the string is enough fuel: more changes nothing. *)
Lemma sub_from_enough (fuel : nat) (s : string) :
  (String.length s <= fuel)%nat -> sub_from fuel s = sub_version s.
Proof.
  unfold sub_version.
  remember (String.length s) as n eqn:Hn.
  revert fuel s Hn.
  induction n as [n IH] using lt_wf_ind; intros fuel s Hn Hle.
  destruct s as [|c s].
  { subst n. destruct fuel; reflexivity. }
  destruct fuel as [|fuel]; [subst n; simpl in Hle; lia|].
  subst n. cbn [String.length sub_from].
  destruct (match_version (String c s)) as [[[d1 d2] rest]|] eqn:E.
  - pose proof (match_version_shorter _ _ _ _ E) as Hlt.
    cbn [String.length] in Hlt, Hle.
    rewrite (IH (String.length rest) ltac:(simpl; lia) fuel rest eq_refl)
      by lia.
    rewrite (IH (String.length rest) ltac:(simpl; lia)
               (String.length s) rest eq_refl) by lia.
    reflexivity.
  - f_equal.
    cbn [String.length] in Hle.
    rewrite (IH (String.length s) ltac:(simpl; lia) fuel s eq_refl) by lia.
    reflexivity.
Qed.

Lemma sub_version_length (s : string) :
  String.length (sub_version s) = String.length s.
Proof. apply sub_from_length. Qed.

End ReFacts.

(** ** ID translator *)

Module NativeId.

Import ReFacts.

Lemma partition_length (sep : ascii) (s a m b : string) :
  PyStr.partition sep s = (a, m, b) ->
  String.length s = (String.length a + String.length m + String.length b)%nat
  /\ (m = "" -> b = "").
Proof.
  revert a m b; induction s as [|c s IH]; simpl; intros a m b H.
  - inversion H; subst. split; reflexivity.
  - destruct (Ascii.eqb c sep).
    + inversion H; subst. simpl. split; [lia | discriminate].
    + destruct (PyStr.partition sep s) as [[a' m'] b'].
      destruct (IH a' m' b' eq_refl) as [Hlen Hm].
      inversion H; subst. simpl. split; [lia | exact Hm].
Qed.

Lemma split_head_length (sep : ascii) (s : string) :
  (String.length (PyStr.split_head sep s) <= String.length s)%nat.
Proof.
  induction s as [|c s IH]; simpl; [lia|].
  destruct (Ascii.eqb c sep); simpl; lia.
Qed.

(** The translation drops at least one character of a non-empty input:
    the separator with the provider, or everything when there is no
    separator. *)
Lemma to_native_id_shorter (s : string) :
  s <> "" -> (String.length (to_native_id s) < String.length s)%nat.
Proof.
  intros Hs. unfold to_native_id.
  destruct (PyStr.partition "/" s) as [[a m] b] eqn:E.
  destruct (partition_length _ _ _ _ _ E) as [Hlen Hm].
  assert (Hout :
    (String.length
       (if String.eqb a "anthropic"
        then PyStr.split_head ":" (Re.sub_version b) else b)
     <= String.length b)%nat).
  { destruct (String.eqb a "anthropic"); [|lia].
    etransitivity; [apply split_head_length|].
    rewrite sub_version_length. lia. }
  destruct m as [|c m].
  - rewrite (Hm eq_refl) in *.
    destruct s; [congruence|].
    destruct (String.eqb a "anthropic"); simpl; lia.
  - simpl in Hlen. lia.
Qed.

End NativeId.

(** C4.  The three documented translations: a Google identifier loses its
    provider prefix only, an Anthropic identifier also has the dot of its
    version turned into a dash, and a variant suffix after a colon is
    dropped. *)
Theorem to_native_id_examples :
  to_native_id "google/gemini-2.5-flash" = "gemini-2.5-flash"
  /\ to_native_id "anthropic/claude-sonnet-4.6" = "claude-sonnet-4-6"
  /\ to_native_id "anthropic/claude-3.5-sonnet:thinking" = "claude-3-5-sonnet".
Proof. repeat split; reflexivity. Qed.

(** C5.  On the well-formed Anthropic identifier
    [anthropic/claude-1.2.3] the translation leaves the dotted version
    [2.3] in its result: the substitution resumes after the match [1.2],
    where the remaining [.3] has no digits in front of its dot any more. *)
Theorem to_native_id_chained_version_keeps_dot :
  well_formed_id "anthropic/claude-1.2.3" = true
  /\ fst (fst (PyStr.partition "/" "anthropic/claude-1.2.3")) = "anthropic"
  /\ to_native_id "anthropic/claude-1.2.3" = "claude-1-2.3"
  /\ Re.has_dotted_version (to_native_id "anthropic/claude-1.2.3") = true.
Proof. repeat split; reflexivity. Qed.

(** C6, as stated, fails: the translation of [google/gemini-2.5-flash] has
    no provider prefix left, and translating it again gives the empty
    string. *)
Lemma to_native_id_twice_differs :
  well_formed_id "google/gemini-2.5-flash" = true
  /\ to_native_id (to_native_id "google/gemini-2.5-flash") = ""
  /\ to_native_id (to_native_id "google/gemini-2.5-flash")
     <> to_native_id "google/gemini-2.5-flash".
Proof. repeat split; try reflexivity. discriminate. Qed.

(** C6, amended.  A second translation reproduces the first one exactly
    when the first one is the empty string; any other result comes back
    strictly shorter, its leading segment taken for a provider. *)
Theorem to_native_id_twice (x : string) :
  (to_native_id (to_native_id x) = to_native_id x <-> to_native_id x = "")
  /\ (to_native_id x = ""
      \/ (String.length (to_native_id (to_native_id x))
          < String.length (to_native_id x))%nat).
Proof.
  destruct (String.eqb_spec (to_native_id x) "") as [E|E].
  - rewrite E. split; [split; reflexivity | now left].
  - pose proof (NativeId.to_native_id_shorter _ E) as Hlt.
    split; [split|right; exact Hlt].
    + intros H. rewrite H in Hlt. lia.
    + intros H. contradiction.
Qed.

(** ** Python numbers *)

Module PyNumFacts.

Import Float64Facts.
Local Open Scope Q_scope.

Lemma lt_value (a b : pynum) : lt a b = flt (value a) (value b).
Proof.
  destruct a as [x|f], b as [y|g]; simpl; try reflexivity.
  destruct (Z.ltb_spec x y) as [H|H]; symmetry.
  - apply Bool.negb_true_iff.
    destruct (Qle_bool (inject_Z y) (inject_Z x)) eqn:E; [|reflexivity].
    apply Qle_bool_iff in E. rewrite <- Zle_Qle in E. lia.
  - apply Bool.negb_false_iff, Qle_bool_iff. rewrite <- Zle_Qle. exact H.
Qed.

Lemma le_lt_false (a b : pynum) : le a b -> lt b a = false.
Proof. intros H. rewrite lt_value. now apply fle_flt_false. Qed.

Lemma lt_true_iff (a b : pynum) : lt a b = true <-> le a b /\ ~ le b a.
Proof. rewrite lt_value. apply flt_true_iff. Qed.

Lemma le_trans (a b c : pynum) : le a b -> le b c -> le a c.
Proof. apply fle_trans. Qed.

Lemma lt_irrefl (a : pynum) : lt a a = false.
Proof.
  destruct (lt a a) eqn:E; [|reflexivity].
  apply lt_true_iff in E. tauto.
Qed.

Lemma float_of_int_inv (z : Z) (f : float64) :
  float_of_int z = Ok f ->
  exists r, f = Fin r /\ of_Q (inject_Z z) = Fin r.
Proof.
  unfold float_of_int. destruct (of_Q (inject_Z z)) as [r|?|] eqn:E;
    intros H; inversion H; subst. now exists r.
Qed.

Lemma float_of_int_err (z : Z) (e : exn) :
  float_of_int z = Err e -> e = OverflowError.
Proof.
  unfold float_of_int. destruct (of_Q (inject_Z z));
    intros H; inversion H; reflexivity.
Qed.

(** Conversion keeps the order of integers. *)
Lemma float_of_int_mono (z z' : Z) (r r' : Q) :
  (z <= z')%Z ->
  float_of_int z = Ok (Fin r) -> float_of_int z' = Ok (Fin r') -> r <= r'.
Proof.
  intros Hz H H'.
  apply float_of_int_inv in H as (q & Eq & Hq).
  apply float_of_int_inv in H' as (q' & Eq' & Hq').
  inversion Eq; inversion Eq'; subst.
  assert (L : inject_Z z <= inject_Z z') by (rewrite <- Zle_Qle; exact Hz).
  pose proof (of_Q_mono _ _ L) as M. rewrite Hq, Hq' in M. exact M.
Qed.

(** Integers below [2^53] in magnitude convert exactly. *)
Lemma of_Q_small_int (z : Z) :
  (Z.abs z < 2 ^ 53)%Z -> of_Q (inject_Z z) = Fin (inject_Z z).
Proof.
  intros Hz. unfold of_Q.
  rewrite (round64_small_int z Hz).
  assert (B : Qle_bool overflow_threshold (Qabs (inject_Z z)) = false).
  { destruct (Qle_bool overflow_threshold (Qabs (inject_Z z))) eqn:E;
      [|reflexivity].
    apply Qle_bool_iff in E. exfalso.
    assert (Qabs (inject_Z z) < 2 ^ 53).
    { apply Qabs_Qlt_condition.
      rewrite (pow2_Z 53) by lia.
      rewrite <- inject_Z_opp, <- !Zlt_Qlt. lia. }
    pose proof (pow2_lt 53 1024 ltac:(lia)).
    unfold overflow_threshold in E. lra. }
  now rewrite B.
Qed.

Lemma float_of_int_small (z : Z) :
  (Z.abs z < 2 ^ 53)%Z -> float_of_int z = Ok (Fin (inject_Z z)).
Proof.
  intros Hz. unfold float_of_int. now rewrite (of_Q_small_int z Hz).
Qed.

(** Integers up to [2^1023] in magnitude convert. *)
Lemma float_of_int_bounded (z : Z) :
  (Z.abs z <= 2 ^ 1023)%Z -> exists r, float_of_int z = Ok (Fin r).
Proof.
  intros Hz.
  assert (Lo : fle (of_Q (inject_Z (- 2 ^ 1023))) (of_Q (inject_Z z))).
  { apply of_Q_mono. rewrite <- Zle_Qle. lia. }
  assert (Hi : fle (of_Q (inject_Z z)) (of_Q (inject_Z (2 ^ 1023)))).
  { apply of_Q_mono. rewrite <- Zle_Qle. lia. }
  assert (ELo : exists a, of_Q (inject_Z (- 2 ^ 1023)) = Fin a).
  { eexists. vm_compute. reflexivity. }
  assert (EHi : exists b, of_Q (inject_Z (2 ^ 1023)) = Fin b).
  { eexists. vm_compute. reflexivity. }
  destruct ELo as [a Ea], EHi as [b Eb]. rewrite Ea in Lo. rewrite Eb in Hi.
  unfold float_of_int.
  destruct (of_Q (inject_Z z)) as [r|[]|]; simpl in *; try contradiction.
  now exists r.
Qed.

End PyNumFacts.

(** ** Matcher: the score *)

Module ScoreFacts.

Import Float64Facts PyNumFacts.

(** The loop over the terms adds up the points of each term. *)
Lemma fold_score_term_with (lower : string -> string)
  (id_text name_text : string) (terms : list string) (acc : Z) :
  fold_left (score_term_with lower id_text name_text) terms acc
  = (acc + sum_Z (map (fun t => term_points id_text name_text (lower t))
                    terms))%Z.
Proof.
  revert acc; induction terms as [|t terms IH]; intros acc; simpl.
  - lia.
  - rewrite IH. unfold score_term_with, term_points.
    destruct (PyStr.contains (lower t) id_text),
             (PyStr.contains (lower t) name_text); lia.
Qed.

Lemma fold_score_term (id_text name_text : string) (terms : list string)
  (acc : Z) :
  fold_left (score_term id_text name_text) terms acc
  = (acc + sum_Z (map (fun t => term_points id_text name_text (PyStr.lower t))
                    terms))%Z.
Proof. exact (fold_score_term_with PyStr.lower id_text name_text terms acc). Qed.

Lemma points_bounds_with (lower : string -> string)
  (id_text name_text : string) (terms : list string) :
  (0 <= sum_Z (map (fun t => term_points id_text name_text (lower t)) terms)
   <= 15 * Z.of_nat (length terms))%Z.
Proof.
  induction terms as [|t terms IH]; simpl; [lia|].
  unfold term_points at 1 3.
  destruct (PyStr.contains (lower t) id_text),
           (PyStr.contains (lower t) name_text); lia.
Qed.

Lemma points_bounds (id_text name_text : string) (terms : list string) :
  (0 <= sum_Z (map (fun t => term_points id_text name_text (PyStr.lower t))
                 terms)
   <= 15 * Z.of_nat (length terms))%Z.
Proof. exact (points_bounds_with PyStr.lower id_text name_text terms). Qed.

Lemma points_range_with (lower : string -> string) (terms : list string)
  (m : Model) :
  (0 <= points_with lower terms m <= 15 * Z.of_nat (length terms))%Z.
Proof.
  unfold points_with. rewrite fold_score_term_with, Z.add_0_l.
  apply points_bounds_with.
Qed.

Lemma points_range (terms : list string) (m : Model) :
  (0 <= points terms m <= 15 * Z.of_nat (length terms))%Z.
Proof. exact (points_range_with PyStr.lower terms m). Qed.

Lemma float_of_int_3 : float_of_int 3 = Ok (Fin 3).
Proof. vm_compute. reflexivity. Qed.

Lemma float_of_int_0 : float_of_int 0 = Ok (Fin 0).
Proof. vm_compute. reflexivity. Qed.

Lemma is_zero_f1e12 : is_zero f1e12 = false.
Proof. reflexivity. Qed.

(** The two shapes of a score: an integer when the timestamp is absent
    or zero, a float otherwise. *)
Lemma score_match_zero_with (lower : string -> string)
  (terms : list string) (m : Model) :
  default 0%Z (created m) = 0%Z ->
  score_match_with lower terms m
  = Ok (PyInt (if is_free_with lower m
               then points_with lower terms m - 3
               else points_with lower terms m)).
Proof.
  intros H. unfold score_match_with. rewrite H.
  rewrite bool_decide_eq_false_2 by (intros C; now apply C).
  fold (points_with lower terms m). fold (is_free_with lower m). simpl.
  destruct (is_free_with lower m); reflexivity.
Qed.

Lemma score_match_zero (terms : list string) (m : Model) :
  default 0%Z (created m) = 0%Z ->
  score_match terms m
  = Ok (PyInt (if is_free m then points terms m - 3 else points terms m)).
Proof. exact (score_match_zero_with PyStr.lower terms m). Qed.

Lemma score_match_nonzero (terms : list string) (m : Model) :
  default 0%Z (created m) <> 0%Z ->
  score_match terms m
  = fc ← float_of_int (default 0%Z (created m));
    fb ← float_of_int (points terms m);
    match fc, fb with
    | Fin rc, Fin rb => Ok (PyFloat (float_score rb rc (is_free m)))
    | _, _ => Err OverflowError
    end.
Proof.
  intros H. unfold score_match, score_match_with.
  rewrite bool_decide_eq_true_2 by exact H.
  fold (points_with PyStr.lower terms m). fold (is_free_with PyStr.lower m).
  change (points_with PyStr.lower terms m) with (points terms m).
  change (is_free_with PyStr.lower m) with (is_free m).
  unfold truediv, to_float. rewrite is_zero_f1e12.
  destruct (float_of_int (default 0%Z (created m))) as [fc|e] eqn:Ec;
    [|reflexivity].
  apply float_of_int_inv in Ec as (rc & -> & _).
  cbn [mbind result_bind add to_float].
  destruct (float_of_int (points terms m)) as [fb|e] eqn:Eb; [|reflexivity].
  apply float_of_int_inv in Eb as (rb & -> & _).
  cbn [mbind result_bind]. unfold float_score.
  destruct (is_free m); [|reflexivity].
  unfold sub. cbn [to_float mbind result_bind].
  rewrite float_of_int_3. reflexivity.
Qed.

(** Computing a score raises nothing but [OverflowError]. *)
Lemma score_match_err (terms : list string) (m : Model) (e : exn) :
  score_match terms m = Err e -> e = OverflowError.
Proof.
  destruct (Z.eq_dec (default 0%Z (created m)) 0%Z) as [Z0|NZ].
  - rewrite score_match_zero by exact Z0. discriminate.
  - rewrite score_match_nonzero by exact NZ.
    destruct (float_of_int (default 0%Z (created m))) as [fc|e1] eqn:Ec.
    2:{ cbn. intros H; inversion H; subst. eapply float_of_int_err, Ec. }
    destruct (float_of_int (points terms m)) as [fb|e2] eqn:Eb.
    2:{ cbn. intros H; inversion H; subst. eapply float_of_int_err, Eb. }
    cbn. destruct fc, fb; intros H; inversion H; reflexivity.
Qed.

(** A score that was computed, with a timestamp that is not zero. *)
Lemma score_match_nonzero_inv (terms : list string) (m : Model) (s : pynum) :
  default 0%Z (created m) <> 0%Z ->
  score_match terms m = Ok s ->
  exists rc rb,
    float_of_int (default 0%Z (created m)) = Ok (Fin rc)
    /\ float_of_int (points terms m) = Ok (Fin rb)
    /\ s = PyFloat (float_score rb rc (is_free m)).
Proof.
  intros NZ. rewrite score_match_nonzero by exact NZ.
  destruct (float_of_int (default 0%Z (created m))) as [fc|e1] eqn:Ec;
    [|discriminate].
  destruct (float_of_int (points terms m)) as [fb|e2] eqn:Eb;
    [|discriminate].
  apply float_of_int_inv in Ec as (rc & -> & Hc).
  apply float_of_int_inv in Eb as (rb & -> & Hb).
  cbn. intros H; inversion H; subst.
  exists rc, rb. auto.
Qed.

Local Open Scope Q_scope.

Lemma f1e12_pos : 0 < inject_Z 1000000000000.
Proof. reflexivity. Qed.

(** The float of a score grows with the timestamp and with the integer
    part. *)
Lemma float_score_mono (rb rb' rc rc' : Q) (free : bool) :
  rb <= rb' -> rc <= rc' ->
  fle (float_score rb rc free) (float_score rb' rc' free).
Proof.
  intros Hb Hc. unfold float_score.
  assert (S : fle (fadd (Fin rb) (fdiv (Fin rc) f1e12))
                  (fadd (Fin rb') (fdiv (Fin rc') f1e12))).
  { apply fadd_mono; [exact Hb|].
    apply fdiv_mono; [exact f1e12_pos | exact Hc]. }
  destruct free; [apply fsub_mono|]; exact S.
Qed.

(** A positive timestamp on a model outside the free tier gives a
    positive score. *)
Lemma score_positive (terms : list string) (m : Model) (c : Z) (s : pynum) :
  created m = Some c -> (0 < c)%Z -> is_free m = false ->
  score_match terms m = Ok s -> gt s (PyInt 0) = true.
Proof.
  intros Hc Hpos Hfree Hs.
  assert (NZ : default 0%Z (created m) <> 0%Z).
  { rewrite Hc. change (default 0%Z (Some c)) with c. lia. }
  destruct (score_match_nonzero_inv _ _ _ NZ Hs) as (rc & rb & Ec & Eb & ->).
  rewrite Hc in Ec. change (default 0%Z (Some c)) with c in Ec.
  rewrite Hfree.
  assert (L1 : 1 <= rc).
  { apply (float_of_int_mono 1 c 1 rc); [lia | vm_compute; reflexivity | exact Ec]. }
  assert (L0 : 0 <= rb).
  { pose proof (points_range terms m).
    apply (float_of_int_mono 0 (points terms m) 0 rb);
      [lia | exact float_of_int_0 | exact Eb]. }
  pose proof (float_score_mono 0 rb 1 rc false L0 L1) as M.
  assert (E : exists b, float_score 0 1 false = Fin b /\ 0 < b).
  { eexists. split; [vm_compute; reflexivity | reflexivity]. }
  destruct E as (b & Eb0 & Hb0). rewrite Eb0 in M.
  unfold gt. rewrite lt_value. cbn [value].
  destruct (float_score rb rc false) as [x|[]|]; cbn [fle flt] in *;
    try contradiction; try reflexivity.
  apply Bool.negb_true_iff.
  destruct (Qle_bool x (inject_Z 0)) eqn:Q; [|reflexivity].
  apply Qle_bool_iff in Q. change (inject_Z 0) with 0 in Q. lra.
Qed.

(** With fewer than [2^53 / 15] terms the integer part converts exactly,
    and every score is the float score of its timestamp. *)
Lemma score_value_small (terms : list string) (m : Model) (s : pynum) :
  (15 * Z.of_nat (length terms) < 2 ^ 53)%Z ->
  score_match terms m = Ok s ->
  exists rc,
    float_of_int (default 0%Z (created m)) = Ok (Fin rc)
    /\ value s = float_score (inject_Z (points terms m)) rc (is_free m).
Proof.
  intros Hsmall Hs. pose proof (points_range terms m) as R.
  destruct (Z.eq_dec (default 0%Z (created m)) 0%Z) as [Z0|NZ].
  - rewrite score_match_zero in Hs by exact Z0. inversion Hs; subst; clear Hs.
    exists 0. rewrite Z0. split; [exact float_of_int_0|].
    unfold float_score.
    assert (D : fdiv (Fin 0) f1e12 = Fin 0) by (vm_compute; reflexivity).
    rewrite D. cbn [fadd].
    rewrite (of_Q_comp (inject_Z (points terms m) + 0)
               (inject_Z (points terms m))) by ring.
    rewrite of_Q_small_int by lia.
    destruct (is_free m); [|reflexivity].
    unfold fsub. cbn [fneg fadd value].
    rewrite (of_Q_comp (inject_Z (points terms m) + Qred (- (3)))
               (inject_Z (points terms m - 3))).
    2:{ rewrite Qred_correct. unfold Z.sub.
        rewrite inject_Z_plus, inject_Z_opp. reflexivity. }
    rewrite of_Q_small_int by lia. reflexivity.
  - destruct (score_match_nonzero_inv _ _ _ NZ Hs) as (rc & rb & Ec & Eb & ->).
    exists rc. split; [exact Ec|].
    rewrite float_of_int_small in Eb by lia.
    inversion Eb; subst. reflexivity.
Qed.

(** Between two records that differ in their timestamp only, the later
    one never scores less. *)
Lemma score_match_mono (terms : list string) (m : Model) (c0 c : Z)
  (s s' : pynum) :
  (15 * Z.of_nat (length terms) < 2 ^ 53)%Z ->
  created m = Some c0 -> (c0 <= c)%Z ->
  score_match terms m = Ok s ->
  score_match terms (with_created m c) = Ok s' ->
  le s s'.
Proof.
  intros Hsmall Hc Hle Hs Hs'.
  destruct (score_value_small _ _ _ Hsmall Hs) as (rc & Ec & V).
  destruct (score_value_small _ _ _ Hsmall Hs') as (rc' & Ec' & V').
  rewrite Hc in Ec. change (default 0%Z (Some c0)) with c0 in Ec.
  change (default 0%Z (created (with_created m c))) with c in Ec'.
  unfold le. rewrite V, V'.
  change (points terms (with_created m c)) with (points terms m).
  change (is_free (with_created m c)) with (is_free m).
  apply float_score_mono; [lra|].
  exact (float_of_int_mono c0 c rc rc' Hle Ec Ec').
Qed.

(** Timestamps and term counts up to [2^1023] never overflow. *)
Lemma score_match_total (terms : list string) (m : Model) :
  (Z.abs (default 0%Z (created m)) <= 2 ^ 1023)%Z ->
  (15 * Z.of_nat (length terms) <= 2 ^ 1023)%Z ->
  exists s, score_match terms m = Ok s.
Proof.
  intros Hc Ht. pose proof (points_range terms m) as R.
  destruct (Z.eq_dec (default 0%Z (created m)) 0%Z) as [Z0|NZ].
  - rewrite score_match_zero by exact Z0. eauto.
  - rewrite score_match_nonzero by exact NZ.
    destruct (float_of_int_bounded _ Hc) as [rc ->].
    destruct (float_of_int_bounded (points terms m) ltac:(lia)) as [rb ->].
    cbn. eauto.
Qed.

(** *** Timestamps that the float tells apart *)

Lemma boost_exact (c : Z) :
  inject_Z c / inject_Z 1000000000000 == inject_Z c * (1 # 1000000000000).
Proof. reflexivity. Qed.

(** Within the bounds the float of a score is finite and close to the
    exact sum. *)
Lemma float_score_near (p c : Z) (free : bool) :
  (0 <= p <= 4094)%Z -> (0 <= c <= 10 ^ 12)%Z ->
  exists v,
    float_score (inject_Z p) (inject_Z c) free = Fin v
    /\ Qabs (v - (inject_Z p + inject_Z c * (1 # 1000000000000)
                  - (if free then 3 else 0)))
       <= (4097 # 9007199254740992).
Proof.
  intros Hp Hc.
  assert (Qp : 0 <= inject_Z p <= 4094).
  { change 0 with (inject_Z 0). change 4094 with (inject_Z 4094).
    rewrite <- !Zle_Qle. lia. }
  assert (Qc : 0 <= inject_Z c <= 1000000000000).
  { change 0 with (inject_Z 0).
    change 1000000000000 with (inject_Z (10 ^ 12)).
    rewrite <- !Zle_Qle. lia. }
  assert (P1 : 2 ^ 1 == 2) by reflexivity.
  assert (P12 : 2 ^ 12 == 4096) by reflexivity.
  assert (E53 : 2 ^ (1 - 54) == 1 # 9007199254740992) by reflexivity.
  assert (E42 : 2 ^ (12 - 54) == 1 # 4398046511104) by reflexivity.
  set (beta := inject_Z c * (1 # 1000000000000)) in *.
  assert (Hbeta : 0 <= beta <= 1) by (unfold beta; lra).
  unfold float_score.
  assert (Ediv : fdiv (Fin (inject_Z c)) f1e12 = of_Q beta).
  { unfold fdiv, f1e12. apply of_Q_comp. apply boost_exact. }
  rewrite Ediv.
  destruct (of_Q_near beta 1) as (b & Eb & Hb); [|lia|].
  { apply Qabs_Qlt_condition. lra. }
  rewrite Eb. cbn [fadd].
  apply Qabs_Qle_condition in Hb as [Hb1 Hb2].
  destruct (of_Q_near (inject_Z p + b) 12) as (s & Es & Hs); [|lia|].
  { apply Qabs_Qlt_condition. lra. }
  rewrite Es.
  apply Qabs_Qle_condition in Hs as [Hs1 Hs2].
  destruct free.
  - unfold fsub. cbn [fneg fadd].
    pose proof (Qred_correct (- (3))) as R3.
    destruct (of_Q_near (s + Qred (- (3))) 12) as (t & Et & Ht); [|lia|].
    { apply Qabs_Qlt_condition. lra. }
    rewrite Et. exists t. split; [reflexivity|].
    apply Qabs_Qle_condition in Ht as [Ht1 Ht2].
    apply Qabs_Qle_condition. split; lra.
  - exists s. split; [reflexivity|].
    apply Qabs_Qle_condition. split; lra.
Qed.

(** Within the bounds a later timestamp gives a strictly greater float. *)
Lemma float_score_strict (p c0 c : Z) (free : bool) :
  (0 <= p <= 4094)%Z -> (0 <= c0 < c)%Z -> (c <= 10 ^ 12)%Z ->
  flt (float_score (inject_Z p) (inject_Z c0) free)
      (float_score (inject_Z p) (inject_Z c) free) = true.
Proof.
  intros Hp Hc0 Hc.
  destruct (float_score_near p c0 free Hp ltac:(lia)) as (v & Ev & Hv).
  destruct (float_score_near p c free Hp ltac:(lia)) as (v' & Ev' & Hv').
  rewrite Ev, Ev'. cbn [flt].
  apply Bool.negb_true_iff.
  destruct (Qle_bool v' v) eqn:E; [|reflexivity].
  apply Qle_bool_iff in E. exfalso.
  assert (D : inject_Z c0 + 1 <= inject_Z c).
  { change 1 with (inject_Z 1). rewrite <- inject_Z_plus, <- Zle_Qle. lia. }
  apply Qabs_Qle_condition in Hv as [Hv1 Hv2].
  apply Qabs_Qle_condition in Hv' as [Hv1' Hv2'].
  lra.
Qed.

(** With at most 272 query terms, between two records that differ in
    their timestamp only, both timestamps from 0 to [10^12], the later
    one scores strictly more. *)
Lemma score_match_strict (terms : list string) (m : Model) (c : Z)
  (s s' : pynum) :
  (length terms <= 272)%nat ->
  (0 <= default 0%Z (created m) < c)%Z -> (c <= 10 ^ 12)%Z ->
  score_match terms m = Ok s ->
  score_match terms (with_created m c) = Ok s' ->
  lt s s' = true.
Proof.
  intros Hn Hc0 Hc Hs Hs'.
  assert (Hsmall : (15 * Z.of_nat (length terms) < 2 ^ 53)%Z) by lia.
  pose proof (points_range terms m) as R.
  destruct (score_value_small _ _ _ Hsmall Hs) as (rc & Ec & V).
  destruct (score_value_small _ _ _ Hsmall Hs') as (rc' & Ec' & V').
  change (default 0%Z (created (with_created m c))) with c in Ec'.
  rewrite float_of_int_small in Ec by lia.
  rewrite float_of_int_small in Ec' by lia.
  inversion Ec; subst rc. inversion Ec'; subst rc'.
  rewrite lt_value, V, V'.
  change (points terms (with_created m c)) with (points terms m).
  change (is_free (with_created m c)) with (is_free m).
  apply float_score_strict; lia.
Qed.

End ScoreFacts.

(** C2, as stated, fails: the term [gemini] is a substring of the
    lower-cased display name, not of the display name itself, and the
    code scores the 5 points that the formula over the record's own text
    leaves out. *)
Lemma score_literal_differs :
  exists code formula,
    score_match ["gemini"] gemini_pro = Ok code
    /\ score_spec_literal ["gemini"] gemini_pro = Ok formula
    /\ lt formula code = true
    /\ score_match ["gemini"] gemini_pro
       <> score_spec_literal ["gemini"] gemini_pro.
Proof.
  eexists; eexists.
  split; [vm_compute; reflexivity|].
  split; [vm_compute; reflexivity|].
  split; [vm_compute; reflexivity|].
  vm_compute. intros H. inversion H.
Qed.

(** C2, amended.  The score is the sum over the terms of 10 points when
    the lower-cased term is a substring of the lower-cased identifier and
    5 points when it is a substring of the lower-cased display name, plus
    the timestamp divided by [1e12] when there is one and it is not zero,
    minus 3 when the lower-cased identifier contains [:free].  This holds
    for every query and every record, whatever the case mapping [lower]
    that [str.lower] applies to the terms, the identifier and the name. *)
Theorem score_match_formula (lower : string -> string)
  (query_terms : list string) (model : Model) :
  score_match_with lower query_terms model
  = score_spec_with lower query_terms model.
Proof.
  unfold score_match_with, score_spec_with, score_formula_with.
  rewrite ScoreFacts.fold_score_term_with, Z.add_0_l.
  destruct (created model) as [c|]; simpl.
  - reflexivity.
  - reflexivity.
Qed.

(** ** Matcher: the search *)

Module SearchFacts.

Import Float64Facts PyNumFacts ScoreFacts.

Lemma traverse_ok {A B : Type} (f : A -> result B) (l : list A) (ys : list B) :
  traverse f l = Ok ys -> Forall2 (fun x y => f x = Ok y) l ys.
Proof.
  revert ys; induction l as [|x l IH]; simpl; intros ys H.
  - inversion H. constructor.
  - destruct (f x) as [y|e] eqn:Ex; [|discriminate].
    destruct (traverse f l) as [ys'|e] eqn:El; [|discriminate].
    cbn in H. inversion H; subst. constructor; [exact Ex | now apply IH].
Qed.

Lemma traverse_err {A B : Type} (f : A -> result B) (l : list A) (e : exn) :
  traverse f l = Err e -> exists x, In x l /\ f x = Err e.
Proof.
  induction l as [|x l IH]; simpl; intros H; [discriminate|].
  destruct (f x) as [y|e1] eqn:Ex.
  - destruct (traverse f l) as [ys'|e2] eqn:El; [discriminate|].
    cbn in H. inversion H; subst.
    destruct (IH eq_refl) as (x' & Hin & Hx'). exists x'. auto.
  - cbn in H. inversion H; subst. exists x. auto.
Qed.

Lemma with_score_inv (terms : list string) (m : Model) (p : pynum * Model) :
  with_score terms m = Ok p ->
  snd p = m /\ score_match terms m = Ok (fst p).
Proof.
  unfold with_score. destruct (score_match terms m) as [s|e]; cbn;
    intros H; inversion H; subst; auto.
Qed.

Lemma scored_spec (terms : list string) (cat : list Model)
  (scored : list (pynum * Model)) :
  traverse (with_score terms) cat = Ok scored ->
  map snd scored = cat
  /\ Forall (fun p => score_match terms (snd p) = Ok (fst p)) scored.
Proof.
  intros H. apply traverse_ok in H.
  induction H as [|m p cat scored Hp _ [IH1 IH2]]; [split; constructor|].
  apply with_score_inv in Hp as [E1 E2]. simpl. split.
  - now rewrite E1, IH1.
  - constructor; [now rewrite E1 | exact IH2].
Qed.

(** *** The sort *)

Lemma insert_desc_perm {A : Type} (x : pynum * A) (l : list (pynum * A)) :
  Permutation (insert_desc x l) (x :: l).
Proof.
  induction l as [|y l IH]; simpl; [reflexivity|].
  destruct (lt (fst x) (fst y)); [|reflexivity].
  rewrite IH. apply perm_swap.
Qed.

Lemma sort_desc_perm {A : Type} (l : list (pynum * A)) :
  Permutation (sort_desc l) l.
Proof.
  induction l as [|x l IH]; simpl; [reflexivity|].
  unfold sort_desc in *. simpl. rewrite insert_desc_perm. now constructor.
Qed.

Lemma insert_desc_sorted {A : Type} (x : pynum * A) (l : list (pynum * A)) :
  key_number x -> Forall key_number l ->
  StronglySorted key_ge l -> StronglySorted key_ge (insert_desc x l).
Proof.
  intros Nx Nl Hs. induction Hs as [|y l Hs IH Hy]; simpl.
  - constructor; constructor.
  - inversion Nl as [|? ? Ny Nl']; subst.
    destruct (lt (fst x) (fst y)) eqn:E.
    + apply lt_true_iff in E as [Lxy _].
      constructor; [now apply IH|].
      rewrite (insert_desc_perm x l). constructor; assumption.
    + assert (Lyx : le (fst y) (fst x)).
      { rewrite lt_value in E. apply flt_false_iff in E; assumption. }
      constructor; [constructor; assumption|].
      constructor; [exact Lyx|].
      eapply Forall_impl; [exact Hy|].
      intros z Hz. unfold key_ge in *. eapply le_trans; eassumption.
Qed.

Lemma sort_desc_sorted {A : Type} (l : list (pynum * A)) :
  Forall key_number l -> StronglySorted key_ge (sort_desc l).
Proof.
  induction 1 as [|x l Nx Nl IH]; [constructor|].
  unfold sort_desc in *. simpl.
  apply insert_desc_sorted; [exact Nx | | exact IH].
  rewrite (sort_desc_perm l). exact Nl.
Qed.

Lemma sorted_lookup {A : Type} (R : A -> A -> Prop) (l : list A)
  (i j : nat) (a b : A) :
  StronglySorted R l -> (i < j)%nat ->
  l !! i = Some a -> l !! j = Some b -> R a b.
Proof.
  intros Hs. revert i j. induction Hs as [|x l Hs IH Hx]; intros i j Hij Ha Hb.
  - discriminate.
  - destruct j as [|j]; [lia|]. simpl in Hb.
    destruct i as [|i]; simpl in Ha.
    + inversion Ha; subst.
      rewrite Forall_forall in Hx. apply Hx.
      eapply list_elem_of_lookup_2. exact Hb.
    + eapply IH; [|exact Ha|exact Hb]. lia.
Qed.

Lemma sorted_take {A : Type} (R : A -> A -> Prop) (n : nat) (l : list A) :
  StronglySorted R l -> StronglySorted R (take n l).
Proof.
  intros Hs. revert n. induction Hs as [|x l Hs IH Hx]; intros [|n]; simpl;
    try constructor; [apply IH|].
  apply Forall_take. exact Hx.
Qed.

(** A computed score is a number. *)
Lemma score_number (terms : list string) (m : Model) (s : pynum) :
  score_match terms m = Ok s -> is_number (value s).
Proof.
  intros Hs.
  destruct (Z.eq_dec (default 0%Z (created m)) 0%Z) as [Z0|NZ].
  - rewrite score_match_zero in Hs by exact Z0. inversion Hs. exact I.
  - destruct (score_match_nonzero_inv _ _ _ NZ Hs) as (rc & rb & _ & _ & ->).
    simpl. eapply fle_number_l.
    apply (float_score_mono rb rb rc rc); apply Qle_refl.
Qed.

Lemma search_unfold (terms : list string) (cat : list Model) :
  search terms cat
  = scored ← traverse (with_score terms) cat;
    Ok (map snd (take 8 (ranked scored))).
Proof. reflexivity. Qed.

Lemma ranked_spec (terms : list string) (cat : list Model)
  (scored : list (pynum * Model)) :
  traverse (with_score terms) cat = Ok scored ->
  StronglySorted key_ge (ranked scored)
  /\ Forall (fun p => score_match terms (snd p) = Ok (fst p)
                      /\ gt (fst p) (PyInt 0) = true
                      /\ In (snd p) cat) (ranked scored)
  /\ (forall m s, In m cat -> score_match terms m = Ok s ->
      gt s (PyInt 0) = true -> In (s, m) (ranked scored)).
Proof.
  intros H. destruct (scored_spec _ _ _ H) as [Hcat Hsc].
  assert (Hf : Forall (fun p => score_match terms (snd p) = Ok (fst p)
                      /\ gt (fst p) (PyInt 0) = true
                      /\ In (snd p) cat)
                 (List.filter (fun sm => gt (fst sm) (PyInt 0)) scored)).
  { apply Forall_forall. intros p Hp.
    apply list_elem_of_In, filter_In in Hp as [Hin Hgt].
    rewrite Forall_forall in Hsc.
    split; [apply Hsc, list_elem_of_In, Hin|].
    split; [exact Hgt|].
    rewrite <- Hcat. now apply in_map. }
  split; [|split].
  - apply sort_desc_sorted.
    eapply Forall_impl; [exact Hf|].
    intros p (Hp & _ & _). eapply score_number, Hp.
  - unfold ranked. rewrite (sort_desc_perm _). exact Hf.
  - intros m s Hin Hs Hgt.
    unfold ranked. apply (Permutation_in _ (Permutation_sym (sort_desc_perm _))).
    apply filter_In. split; [|exact Hgt].
    rewrite <- Hcat in Hin. apply in_map_iff in Hin as (p & Ep & Hp).
    rewrite Forall_forall in Hsc.
    pose proof (Hsc p (proj2 (list_elem_of_In _ _) Hp)) as Hsp.
    rewrite Ep, Hs in Hsp. inversion Hsp; subst.
    now destruct p.
Qed.

(** The search raises nothing but [OverflowError]. *)
Lemma search_err (terms : list string) (cat : list Model) (e : exn) :
  search terms cat = Err e -> e = OverflowError.
Proof.
  rewrite search_unfold.
  destruct (traverse (with_score terms) cat) as [scored|e'] eqn:E; cbn;
    [discriminate|].
  intros H; inversion H; subst.
  apply traverse_err in E as (m & _ & Hm).
  unfold with_score in Hm.
  destruct (score_match terms m) as [s|e'] eqn:Es; [discriminate|].
  cbn in Hm. inversion Hm; subst.
  eapply score_match_err, Es.
Qed.

End SearchFacts.

(** C3.  Whatever [search] returns has at most 8 records, each of them a
    record of the catalog whose computed score is strictly positive; the
    only way not to return is the [OverflowError] of an integer beyond
    the range of floats. *)
Theorem search_at_most_8_positive (query_terms : list string)
  (models : list Model) :
  match search query_terms models with
  | Ok results =>
      (length results <= 8)%nat
      /\ Forall (fun m =>
                   In m models
                   /\ exists s, score_match query_terms m = Ok s
                                /\ gt s (PyInt 0) = true) results
  | Err e => e = OverflowError
  end.
Proof.
  rewrite SearchFacts.search_unfold.
  destruct (traverse (with_score query_terms) models)
    as [scored|e] eqn:E; cbn.
  - destruct (SearchFacts.ranked_spec _ _ _ E) as (_ & Hall & _).
    split.
    + rewrite length_map, length_take. lia.
    + apply Forall_map.
      apply Forall_take with (n := 8%nat) in Hall.
      eapply Forall_impl; [exact Hall|].
      intros p (Hs & Hgt & Hin). split; [exact Hin|]. eauto.
  - apply (SearchFacts.search_err query_terms models).
    rewrite SearchFacts.search_unfold, E. reflexivity.
Qed.

(** C7, as stated, fails: the two timestamps convert to the same float,
    the two scores are equal, the stable sort keeps the catalog order,
    and the record with the greater timestamp comes second.  The same
    happens to timestamps of today one second apart once the query has 600
    matching terms: near 9000 two neighbouring floats are further apart
    than the boost of one second. *)
Lemma search_later_timestamp_ranks_lower :
  far_new = with_created far_old (2 ^ 53 + 1)
  /\ created far_old = Some (2 ^ 53)%Z
  /\ score_match ["gemini"] far_old = score_match ["gemini"] far_new
  /\ search ["gemini"] [far_old; far_new] = Ok [far_old; far_new]
  /\ far_old <> far_new
  /\ gemini_pro_newer = with_created gemini_pro 1700000001
  /\ created gemini_pro = Some 1700000000%Z
  /\ search (replicate 600 "gemini") [gemini_pro; gemini_pro_newer]
     = Ok [gemini_pro; gemini_pro_newer]
  /\ gemini_pro <> gemini_pro_newer.
Proof.
  split; [reflexivity|]. split; [reflexivity|].
  split; [vm_compute; reflexivity|].
  split; [vm_compute; reflexivity|].
  split; [discriminate|].
  split; [reflexivity|]. split; [reflexivity|].
  split; [vm_compute; reflexivity|].
  discriminate.
Qed.

(** C7, amended.  The results are in non-increasing order of score.  For
    two records of the catalog that differ in their timestamp only, with
    at most 272 query terms and both timestamps from 0 (or absent) to
    [10^12], the one with the greater timestamp has the strictly greater
    score, and wherever the other one stands in the results it stands
    strictly before it.  Beyond these bounds, with fewer than [2^53 / 15]
    query terms, it never has the smaller score, and it stands strictly
    before the other one when its score is strictly greater. *)
Theorem search_sorted_by_score (query_terms : list string)
  (models results : list Model) :
  search query_terms models = Ok results ->
  (forall (i j : nat) (a b : Model),
      (i < j)%nat -> results !! i = Some a -> results !! j = Some b ->
      score_ge query_terms a b)
  /\ (forall (old : Model) (c : Z),
         (length query_terms <= 272)%nat ->
         (0 <= default 0%Z (created old) < c)%Z -> (c <= 10 ^ 12)%Z ->
         In old models -> In (with_created old c) models ->
         score_gt query_terms (with_created old c) old
         /\ (forall j : nat, results !! j = Some old ->
             exists i : nat,
               (i < j)%nat /\ results !! i = Some (with_created old c)))
  /\ (forall (old : Model) (c0 c : Z),
         (15 * Z.of_nat (length query_terms) < 2 ^ 53)%Z ->
         created old = Some c0 -> (c0 < c)%Z ->
         In old models -> In (with_created old c) models ->
         score_ge query_terms (with_created old c) old
         /\ (score_gt query_terms (with_created old c) old ->
             forall j : nat, results !! j = Some old ->
             exists i : nat,
               (i < j)%nat /\ results !! i = Some (with_created old c))).
Proof.
  rewrite SearchFacts.search_unfold.
  destruct (traverse (with_score query_terms) models)
    as [scored|e] eqn:E; cbn; [|discriminate].
  intros H; inversion H; subst; clear H.
  destruct (SearchFacts.ranked_spec _ _ _ E) as (Hsorted & Hall & Hin).
  set (R := ranked scored) in *.
  assert (Hlook : forall k m, map snd (take 8 R) !! k = Some m ->
            exists s, take 8 R !! k = Some (s, m)
                      /\ score_match query_terms m = Ok s).
  { intros k m Hk.
    change (map snd (take 8 R)) with (snd <$> take 8 R) in Hk.
    rewrite list_lookup_fmap in Hk.
    destruct (take 8 R !! k) as [[s m']|] eqn:Ek; [|discriminate].
    simpl in Hk. inversion Hk; subst. exists s. split; [reflexivity|].
    apply Forall_take with (n := 8%nat) in Hall.
    rewrite Forall_forall in Hall.
    apply (Hall (s, m)). eapply list_elem_of_lookup_2, Ek. }
  assert (Hscore : forall m, In m models ->
            exists s, score_match query_terms m = Ok s).
  { intros m Hm.
    destruct (SearchFacts.scored_spec _ _ _ E) as [Hcat Hsc].
    rewrite <- Hcat in Hm. apply in_map_iff in Hm as (p & <- & Hp).
    rewrite Forall_forall in Hsc. exists (fst p).
    apply Hsc, list_elem_of_In, Hp. }
  (* a record of the catalog that scores strictly more stands before *)
  assert (Hbefore : forall (old new : Model) (so sn : pynum),
            In new models ->
            score_match query_terms old = Ok so ->
            score_match query_terms new = Ok sn ->
            lt so sn = true ->
            forall j : nat, map snd (take 8 R) !! j = Some old ->
            exists i : nat,
              (i < j)%nat /\ map snd (take 8 R) !! i = Some new).
  { intros old new so sn Hnew Hso Hsn Hgt j Hj.
    apply Hlook in Hj as (s & Hj & Hs).
    rewrite Hso in Hs. inversion Hs; subst s.
    assert (Hj8 : (j < 8)%nat /\ R !! j = Some (so, old)).
    { apply lookup_take_Some in Hj. tauto. }
    destruct Hj8 as [Hj8 HjR].
    assert (Hpos : gt sn (PyInt 0) = true).
    { rewrite Forall_forall in Hall.
      destruct (Hall (so, old)) as (_ & Hgo & _).
      { eapply list_elem_of_lookup_2, HjR. }
      unfold gt in *. cbn [fst] in Hgo.
      apply PyNumFacts.lt_true_iff in Hgo as [L1 N1].
      apply PyNumFacts.lt_true_iff in Hgt as [L2 N2].
      apply PyNumFacts.lt_true_iff. split.
      - eapply PyNumFacts.le_trans; eassumption.
      - intros C. apply N1. eapply PyNumFacts.le_trans; eassumption. }
    pose proof (Hin _ _ Hnew Hsn Hpos) as HinR.
    apply list_elem_of_In, list_elem_of_lookup_1 in HinR as [i Hi].
    exists i.
    assert (Hij : (i < j)%nat).
    { destruct (Nat.lt_trichotomy i j) as [?|[->|Hji]]; [assumption| |].
      - rewrite Hi in HjR. inversion HjR; subst.
        rewrite PyNumFacts.lt_irrefl in Hgt. discriminate.
      - pose proof (SearchFacts.sorted_lookup _ _ j i _ _ Hsorted Hji HjR Hi)
          as Hge.
        unfold key_ge in Hge. simpl in Hge.
        apply PyNumFacts.le_lt_false in Hge. congruence. }
    split; [exact Hij|].
    change (map snd (take 8 R)) with (snd <$> take 8 R).
    rewrite list_lookup_fmap.
    rewrite lookup_take_lt by lia. rewrite Hi. reflexivity. }
  split; [|split].
  - intros i j a b Hij Ha Hb.
    apply Hlook in Ha as (sa & Ha & Hsa). apply Hlook in Hb as (sb & Hb & Hsb).
    exists sa, sb. split; [exact Hsa|]. split; [exact Hsb|].
    apply (SearchFacts.sorted_lookup _ _ i j (sa, a) (sb, b)
             (SearchFacts.sorted_take _ 8 _ Hsorted) Hij Ha Hb).
  - intros old c Hn Hc0 Hc Hold Hnew.
    destruct (Hscore _ Hold) as [so Hso].
    destruct (Hscore _ Hnew) as [sn Hsn].
    pose proof (ScoreFacts.score_match_strict _ _ _ _ _ Hn Hc0 Hc Hso Hsn)
      as Hgt.
    split.
    + exists sn, so. split; [exact Hsn|]. split; [exact Hso|]. exact Hgt.
    + exact (Hbefore old (with_created old c) so sn Hnew Hso Hsn Hgt).
  - intros old c0 c Hsmall Hc Hlt Hold Hnew.
    destruct (Hscore _ Hold) as [so Hso].
    destruct (Hscore _ Hnew) as [sn Hsn].
    split.
    + exists sn, so. split; [exact Hsn|]. split; [exact Hso|].
      eapply ScoreFacts.score_match_mono; try eassumption. lia.
    + intros (sn' & so' & Hsn' & Hso' & Hgt).
      rewrite Hsn in Hsn'. rewrite Hso in Hso'.
      inversion Hsn'; inversion Hso'; subst sn' so'.
      exact (Hbefore old (with_created old c) so sn Hnew Hso Hsn Hgt).
Qed.

(** The theorem at work on two records one second apart, the earlier
    one first in the catalog: the later one scores strictly more and is
    returned before it. *)
Lemma search_sorted_by_score_witness :
  search ["gemini"] [gemini_pro; gemini_pro_newer]
  = Ok [gemini_pro_newer; gemini_pro]
  /\ (length ["gemini"] <= 272)%nat
  /\ (0 <= default 0%Z (created gemini_pro) < 1700000001)%Z
  /\ (1700000001 <= 10 ^ 12)%Z
  /\ In gemini_pro [gemini_pro; gemini_pro_newer]
  /\ In (with_created gemini_pro 1700000001) [gemini_pro; gemini_pro_newer]
  /\ score_ge ["gemini"] gemini_pro_newer gemini_pro
  /\ score_gt ["gemini"] (with_created gemini_pro 1700000001) gemini_pro
  /\ exists i : nat,
       (i < 1)%nat
       /\ [gemini_pro_newer; gemini_pro] !! i
          = Some (with_created gemini_pro 1700000001).
Proof.
  assert (H : search ["gemini"] [gemini_pro; gemini_pro_newer]
              = Ok [gemini_pro_newer; gemini_pro]) by (vm_compute; reflexivity).
  assert (Hn : (length ["gemini"] <= 272)%nat) by (simpl; lia).
  assert (Hc0 : (0 <= default 0%Z (created gemini_pro) < 1700000001)%Z)
    by (simpl; lia).
  assert (Hc : (1700000001 <= 10 ^ 12)%Z) by (vm_compute; discriminate).
  assert (Hold : In gemini_pro [gemini_pro; gemini_pro_newer])
    by (left; reflexivity).
  assert (Hnew : In (with_created gemini_pro 1700000001)
                   [gemini_pro; gemini_pro_newer])
    by (right; left; reflexivity).
  destruct (search_sorted_by_score _ _ _ H) as (Hs & Ht & _).
  destruct (Ht gemini_pro 1700000001%Z Hn Hc0 Hc Hold Hnew) as [Hgt Hpos].
  repeat (split; [assumption|]).
  split.
  - exact (Hs 0%nat 1%nat gemini_pro_newer gemini_pro (le_n 1) eq_refl eq_refl).
  - split; [exact Hgt|]. exact (Hpos 1%nat eq_refl).
Defined.

(** C10, as stated, fails: the identifier [acme/chat:FREE] does not
    contain [:free], its timestamp is positive, and still the penalty
    applies, on the lower-cased identifier; with a query that matches
    nothing the score is negative and the search returns nothing. *)
Lemma positive_timestamp_score_negative :
  PyStr.contains ":free" (model_id shouting_free) = false
  /\ created shouting_free = Some 1700000000%Z
  /\ (exists s, score_match ["zzz"] shouting_free = Ok s
                /\ gt s (PyInt 0) = false
                /\ lt s (PyInt 0) = true)
  /\ search ["zzz"] [shouting_free] = Ok [].
Proof.
  split; [reflexivity|]. split; [reflexivity|].
  split; [|vm_compute; reflexivity].
  eexists. split; [vm_compute; reflexivity|].
  split; vm_compute; reflexivity.
Qed.

(** C10, amended.  For a model whose lower-cased identifier does not
    contain [:free] and whose timestamp is a positive integer, every
    score that is computed is strictly positive, whatever the query
    terms; the score is computed as long as the timestamp and 15 times the
    number of terms are at most [2^1023]; and on a catalog that contains
    such a model the search never returns the empty list. *)
Theorem positive_timestamp_never_empty (query_terms : list string)
  (model : Model) (c : Z) :
  created model = Some c -> (0 < c)%Z ->
  PyStr.contains ":free" (PyStr.lower (model_id model)) = false ->
  (forall s, score_match query_terms model = Ok s -> gt s (PyInt 0) = true)
  /\ ((c <= 2 ^ 1023)%Z ->
      (15 * Z.of_nat (length query_terms) <= 2 ^ 1023)%Z ->
      exists s, score_match query_terms model = Ok s)
  /\ (forall models, In model models -> search query_terms models <> Ok []).
Proof.
  intros Hc Hpos Hfree.
  assert (Hpositive :
    forall s, score_match query_terms model = Ok s -> gt s (PyInt 0) = true).
  { intros s Hs. eapply ScoreFacts.score_positive; eassumption. }
  split; [exact Hpositive|]. split.
  - intros Hb Ht. apply ScoreFacts.score_match_total; [|exact Ht].
    rewrite Hc. change (default 0%Z (Some c)) with c. lia.
  - intros models Hin.
    rewrite SearchFacts.search_unfold.
    destruct (traverse (with_score query_terms) models)
      as [scored|e] eqn:E; cbn; [|discriminate].
    intros H. inversion H as [Hnil]; clear H.
    destruct (SearchFacts.ranked_spec _ _ _ E) as (_ & _ & Hranked).
    destruct (SearchFacts.scored_spec _ _ _ E) as [Hcat Hsc].
    assert (Hs : exists s, score_match query_terms model = Ok s).
    { rewrite <- Hcat in Hin. apply in_map_iff in Hin as (p & <- & Hp).
      rewrite Forall_forall in Hsc. exists (fst p).
      apply Hsc, list_elem_of_In, Hp. }
    destruct Hs as [s Hs].
    pose proof (Hranked _ _ Hin Hs (Hpositive _ Hs)) as HinR.
    destruct (ranked scored) as [|p R]; [contradiction|].
    discriminate.
Qed.

(** The theorem at work: a query that matches nothing, on a catalog with
    one record outside the free tier. *)
Lemma positive_timestamp_never_empty_witness :
  created gemini_pro = Some 1700000000%Z
  /\ (0 < 1700000000)%Z
  /\ PyStr.contains ":free" (PyStr.lower (model_id gemini_pro)) = false
  /\ search ["zzz"] [shouting_free; gemini_pro] <> Ok [].
Proof.
  split; [reflexivity|]. split; [reflexivity|]. split; [reflexivity|].
  refine (proj2 (proj2 (positive_timestamp_never_empty ["zzz"] gemini_pro
                          1700000000 eq_refl eq_refl eq_refl))
            [shouting_free; gemini_pro] _).
  right. left. reflexivity.
Defined.

(** ** Provider lister *)

(** Every entry of the table is the key followed by a slash. *)
Lemma provider_prefix_slash (provider : string) :
  provider_prefix provider = provider +:+ "/".
Proof.
  unfold provider_prefix.
  destruct (PROVIDER_PREFIXES !! provider) as [v|] eqn:E; [|reflexivity].
  unfold PROVIDER_PREFIXES in E.
  apply elem_of_list_to_map_2 in E.
  repeat (apply elem_of_cons in E as [E|E]; [now inversion E|]).
  now apply elem_of_nil in E.
Qed.

(** C8.  [list_provider] returns the records of the catalog whose
    identifier starts with the prefix of the key, all of them, each as
    often as the catalog has it and in the order of the catalog; for the
    key [google] they all start with [google/]. *)
Theorem list_provider_spec (provider : string) (models : list Model) :
  list_provider provider models
  = List.filter
      (fun m => PyStr.startswith (model_id m) (provider_prefix provider))
      models
  /\ (forall m,
        In m (list_provider provider models)
        <-> In m models
            /\ PyStr.startswith (model_id m) (provider_prefix provider) = true)
  /\ sublist (list_provider provider models) models
  /\ Forall (fun m => PyStr.startswith (model_id m) "google/" = true)
       (list_provider "google" models).
Proof.
  assert (E : forall p,
    list_provider p models
    = List.filter (fun m => PyStr.startswith (model_id m) (provider_prefix p))
        models).
  { intros p. unfold list_provider, provider_prefix.
    destruct (PROVIDER_PREFIXES !! p); reflexivity. }
  split; [apply E|]. split; [|split].
  - intros m. rewrite E. apply filter_In.
  - rewrite E. induction models as [|m l IH]; simpl; [constructor|].
    destruct (PyStr.startswith (model_id m) (provider_prefix provider)).
    + apply sublist_skip. apply IH. intros p. reflexivity.
    + apply sublist_cons. apply IH. intros p. reflexivity.
  - rewrite E. apply Forall_forall. intros m Hm.
    apply list_elem_of_In, filter_In in Hm as [_ Hm]. exact Hm.
Qed.

(** ** The process *)

Lemma bind_ok {A B : Type} (m : M A) (f : A -> M B) (w w' : world) (a : A) :
  m w = (Ok a, w') -> (m ≫= f) w = f a w'.
Proof. intros H. unfold mbind, M_bind. now rewrite H. Qed.

Lemma bind_err {A B : Type} (m : M A) (f : A -> M B) (w w' : world) (e : exn) :
  m w = (Err e, w') -> (m ≫= f) w = (Err e, w').
Proof. intros H. unfold mbind, M_bind. now rewrite H. Qed.

Lemma bind_inv {A B : Type} (m : M A) (f : A -> M B) (w w' : world)
  (r : result B) :
  (m ≫= f) w = (r, w') ->
  (exists e, m w = (Err e, w') /\ r = Err e)
  \/ (exists a w1, m w = (Ok a, w1) /\ f a w1 = (r, w')).
Proof.
  unfold mbind, M_bind. destruct (m w) as [[a|e] w1]; intros H.
  - right. eauto.
  - left. inversion H; subst. eauto.
Qed.

(** A loop whose body never raises never raises. *)
Lemma for_each_ok {A : Type} (f : A -> M unit) (l : list A) (w : world) :
  (forall x w0, exists w1, f x w0 = (Ok tt, w1)) ->
  exists w', for_each f l w = (Ok tt, w').
Proof.
  intros Hf. revert w. induction l as [|x l IH]; intros w; simpl.
  - eexists. reflexivity.
  - destruct (Hf x w) as [w1 H1]. rewrite (bind_ok _ _ _ _ _ H1). apply IH.
Qed.

Lemma print_ok (text : string) (w : world) :
  exists w', print text w = (Ok tt, w').
Proof. eexists. reflexivity. Qed.

Section ScriptFacts.

Context {json : Type}.
Variable json_loads : string -> option json.
Variable json_dumps : json -> string.
Variable json_getitem : json -> string -> option json.
Variable records : json -> list Model.

Abbreviation fetch := (fetch_models json_loads json_dumps json_getitem).
Abbreviation run_script :=
  (run json_loads json_dumps json_getitem records).
Abbreviation found :=
  (results_of json_loads json_dumps json_getitem records).

(** C1.  With a cache file whose age, the clock minus the modification
    time of the file, is below 3600 seconds, [fetch_models] sends
    nothing over the network, reads the file and nothing else, leaves it
    as it was, and returns what the text of the file parses to (raising
    the error of the parser when it does not parse). *)
Theorem fetch_models_fresh_cache (w : world) (mtime : float64)
  (content : string) :
  cache_file w = Some (mtime, content) ->
  lt (PyFloat (fsub (clock w) mtime)) (PyInt CACHE_TTL) = true ->
  exists w',
    fetch w
    = (match json_loads content with
       | Some v => Ok v
       | None => Err JSONDecodeError
       end, w')
    /\ network_calls w' = network_calls w
    /\ events w' = (events w ++ [ReadFile CACHE_PATH])%list
    /\ cache_file w' = cache_file w
    /\ clock w' = clock w.
Proof.
  intros Hc Hage.
  set (w1 := {| clock := clock w; cache_file := cache_file w;
                remote := remote w;
                events := (events w ++ [ReadFile CACHE_PATH])%list |}).
  exists w1.
  assert (Hexists : os_path_exists w = (Ok true, w)).
  { unfold os_path_exists. rewrite Hc.
    rewrite bool_decide_eq_true_2 by (eexists; reflexivity). reflexivity. }
  assert (Hmtime : os_path_getmtime w = (Ok mtime, w)).
  { unfold os_path_getmtime. now rewrite Hc. }
  assert (Hread : read_cache w = (Ok content, w1)).
  { unfold read_cache. rewrite Hc. reflexivity. }
  split.
  - unfold fetch_models.
    rewrite (bind_ok _ _ _ _ _ Hexists).
    destruct (json_loads content) as [v|] eqn:Ev.
    + rewrite (bind_ok _ _ w w1 (Some v)); [reflexivity|].
      erewrite bind_ok by reflexivity.
      rewrite (bind_ok _ _ _ _ _ Hmtime). rewrite Hage.
      rewrite (bind_ok _ _ _ _ _ Hread).
      unfold json_load. rewrite Ev. reflexivity.
    + rewrite (bind_err _ _ w w1 JSONDecodeError); [reflexivity|].
      erewrite bind_ok by reflexivity.
      rewrite (bind_ok _ _ _ _ _ Hmtime). rewrite Hage.
      rewrite (bind_ok _ _ _ _ _ Hread).
      unfold json_load. rewrite Ev. reflexivity.
  - unfold network_calls. simpl.
    rewrite List.filter_app, length_app. simpl. repeat split; lia.
Qed.

(** The fetcher raises the errors of the file system, of the network
    and of the parser, never [SystemExit]. *)
Lemma json_load_inv (text : string) (w w' : world) (r : result json) :
  json_load json_loads text w = (r, w') ->
  w' = w /\ (r = Err JSONDecodeError \/ exists v, r = Ok v).
Proof.
  unfold json_load. destruct (json_loads text); intros H; inversion H;
    subst; eauto.
Qed.

Lemma getitem_inv (data : json) (w w' : world) (r : result json) :
  getitem json_getitem data "data" w = (r, w') ->
  w' = w /\ (r = Err (KeyError "data") \/ exists v, r = Ok v).
Proof.
  unfold getitem. destruct (json_getitem data "data"); intros H;
    inversion H; subst; eauto.
Qed.

Lemma fetch_models_err (w w' : world) (e : exn) :
  fetch w = (Err e, w') ->
  e = JSONDecodeError \/ e = URLError \/ e = OSError
  \/ e = KeyError "data".
Proof.
  unfold fetch_models. intros H.
  apply bind_inv in H as [(e0 & H & _)|(ex & w1 & _ & H)];
    [unfold os_path_exists in H; discriminate|].
  apply bind_inv in H as [(e0 & H & E)|(cached & w2 & _ & H)].
  - (* reading the cache *)
    inversion E; subst e0; clear E.
    destruct ex; [|discriminate].
    apply bind_inv in H as [(e0 & H & _)|(now & w3 & _ & H)];
      [unfold time_time in H; discriminate|].
    apply bind_inv in H as [(e0 & H & E)|(mt & w4 & _ & H)].
    { inversion E; subst. unfold os_path_getmtime in H.
      destruct (cache_file w3) as [[? ?]|]; inversion H; auto. }
    destruct (lt (PyFloat (fsub now mt)) (PyInt CACHE_TTL)); [|discriminate].
    apply bind_inv in H as [(e0 & H & E)|(text & w5 & _ & H)].
    { inversion E; subst. unfold read_cache in H.
      destruct (cache_file w4) as [[? ?]|]; inversion H; auto. }
    apply bind_inv in H as [(e0 & H & E)|(v & w6 & _ & H)];
      [|discriminate].
    inversion E; subst.
    apply json_load_inv in H as [_ [H|[v H]]]; inversion H; auto.
  - (* asking the network *)
    destruct cached as [v|]; [discriminate|].
    apply bind_inv in H as [(e0 & H & E)|(body & w3 & _ & H)].
    { inversion E; subst. unfold urlopen in H.
      apply bind_inv in H as [(e1 & H & _)|(u & w4 & _ & H)];
        [discriminate|].
      destruct (remote w4); inversion H; auto. }
    apply bind_inv in H as [(e0 & H & E)|(data & w4 & _ & H)].
    { inversion E; subst.
      apply json_load_inv in H as [_ [H|[v H]]]; inversion H; auto. }
    apply bind_inv in H as [(e0 & H & _)|(u & w5 & _ & H)];
      [discriminate|].
    apply bind_inv in H as [(e0 & H & E)|(payload & w6 & _ & H)].
    { inversion E; subst.
      apply getitem_inv in H as [_ [H|[v H]]]; inversion H; auto. }
    apply bind_inv in H as [(e0 & H & _)|(u' & w7 & _ & H)];
      [discriminate|].
    apply getitem_inv in H as [_ [H|[v H]]]; inversion H; auto.
Qed.

(** C9.  The exit status is 0 or 1.  It is 0 exactly when the invocation
    finds at least one result, and 1 when there are fewer than one
    argument after the name of the script, when the listing of the
    provider is empty and when the search matches nothing. *)
Theorem exit_status_spec (argv : list string) (w : world) :
  let status := fst (run_script argv w) in
  (status = 0%Z \/ status = 1%Z)
  /\ (status = 0%Z <-> exists results,
                          found argv w = Some results
                          /\ results <> [])
  /\ ((length argv < 2)%nat -> status = 1%Z)
  /\ (forall data w',
        (2 <= length argv)%nat ->
        fetch w = (Ok data, w') ->
        nth 1 argv "" = "--list" ->
        list_provider (provider_of argv) (records data) = [] ->
        status = 1%Z)
  /\ (forall data w',
        (2 <= length argv)%nat ->
        fetch w = (Ok data, w') ->
        nth 1 argv "" <> "--list" ->
        search (drop 1 argv) (records data) = Ok [] ->
        status = 1%Z).
Proof.
  cbv zeta.
  assert (Hmain :
    (fst (run_script argv w) = 1%Z /\ ~ (exists results,
                                   found argv w = Some results
                                   /\ results <> []))
    \/ (fst (run_script argv w) = 0%Z /\ exists results,
                                   found argv w = Some results
                                   /\ results <> [])).
  { unfold run, results_of, main.
    destruct (length argv <? 2)%nat eqn:Hlen.
    { left. split; [reflexivity|]. intros (r & H & _). discriminate. }
    destruct (fetch w) as [[data|e] w1] eqn:Hfetch.
    2:{ left. rewrite (bind_err _ _ _ _ _ Hfetch). simpl. split.
        - destruct (fetch_models_err _ _ _ Hfetch) as [-> | [-> | [-> | ->]]];
            reflexivity.
        - intros (r & H & _). discriminate. }
    rewrite (bind_ok _ _ _ _ _ Hfetch). cbn [fst].
    destruct (String.eqb (nth 1 argv "") "--list") eqn:Hmode.
    - fold (provider_of argv).
      destruct (list_provider (provider_of argv) (records data))
        as [|m results] eqn:Hres.
      + left. split; [reflexivity|].
        intros (r & H & Hne). inversion H; subst. now apply Hne.
      + right. split; [|eexists; split; [reflexivity|discriminate]].
        erewrite bind_ok by reflexivity.
        edestruct (for_each_ok
          (fun m0 : Model =>
             print ("  " +:+ to_native_id (model_id m0) +:+ "  ("
                    +:+ default "" (model_name m0) +:+ ")"))
          (m :: results)) as [w2 Hloop];
          [intros; apply print_ok|].
        rewrite Hloop. reflexivity.
    - destruct (search (drop 1 argv) (records data)) as [results|e] eqn:Hs.
      2:{ left. apply SearchFacts.search_err in Hs. subst e. split.
          - reflexivity.
          - intros (r & H & _). discriminate. }
      erewrite bind_ok by reflexivity.
      destruct results as [|m results].
      + left. split; [reflexivity|].
        intros (r & H & Hne). inversion H; subst. now apply Hne.
      + right. split; [|eexists; split; [reflexivity|discriminate]].
        erewrite bind_ok by reflexivity.
        edestruct (for_each_ok
          (fun im : nat * Model =>
             print ("[" +:+ Fmt.str_int (Z.of_nat (fst im) + 1) +:+ "] "
                    +:+ format_model (snd im));;
             print "")
          (imap (fun i m0 => (i, m0)) (m :: results))) as [w2 Hloop].
        { intros x w0. eexists. reflexivity. }
        rewrite Hloop. reflexivity. }
  split; [tauto|]. split; [|split; [|split]].
  - split.
    + intros H0. destruct Hmain as [[H1 _]|[_ H]]; [congruence|exact H].
    + intros H. destruct Hmain as [[_ N]|[H0 _]]; [contradiction|exact H0].
  - intros Hlen. destruct Hmain as [[H1 _]|[_ (r & H & _)]]; [exact H1|].
    unfold results_of in H.
    apply Nat.ltb_lt in Hlen. rewrite Hlen in H. discriminate.
  - intros data w' Hlen Hfetch Hmode Hempty.
    destruct Hmain as [[H1 _]|[_ (r & H & Hne)]]; [exact H1|].
    unfold results_of in H.
    apply Nat.ltb_ge in Hlen. rewrite Hlen, Hfetch in H. cbn [fst] in H.
    rewrite Hmode, String.eqb_refl, Hempty in H. inversion H; subst.
    now contradiction Hne.
  - intros data w' Hlen Hfetch Hmode Hempty.
    destruct Hmain as [[H1 _]|[_ (r & H & Hne)]]; [exact H1|].
    unfold results_of in H.
    apply Nat.ltb_ge in Hlen. rewrite Hlen, Hfetch in H. cbn [fst] in H.
    apply String.eqb_neq in Hmode. rewrite Hmode, Hempty in H.
    inversion H; subst. now contradiction Hne.
Qed.

End ScriptFacts.

(** The theorem at work on a cache that is 100 seconds old, with no
    network to fall back on. *)
Lemma fetch_models_fresh_cache_witness :
  cache_file demo_world = Some (Fin 1700000000, "[gemini]")
  /\ lt (PyFloat (fsub (clock demo_world) (Fin 1700000000))) (PyInt CACHE_TTL)
     = true
  /\ exists w',
       fetch_models demo_loads demo_dumps demo_getitem demo_world
       = (Ok "[gemini]", w')
       /\ network_calls w' = 0%nat.
Proof.
  assert (Hage :
    lt (PyFloat (fsub (clock demo_world) (Fin 1700000000))) (PyInt CACHE_TTL)
    = true) by (vm_compute; reflexivity).
  split; [reflexivity|]. split; [exact Hage|].
  destruct (fetch_models_fresh_cache demo_loads demo_dumps demo_getitem
              demo_world _ _ eq_refl Hage) as (w' & H1 & H2 & _).
  exists w'. split; [exact H1 | exact H2].
Defined.

(** ** The script at work *)

Abbreviation demo_run :=
  (run demo_loads demo_dumps demo_getitem demo_records).

Example run_search : fst (demo_run ["lookup.py"; "gemini"] demo_world) = 0%Z.
Proof. vm_compute. reflexivity. Qed.

Example run_without_argument : fst (demo_run ["lookup.py"] demo_world) = 1%Z.
Proof. vm_compute. reflexivity. Qed.

Example run_list_unknown_provider :
  fst (demo_run ["lookup.py"; "--list"; "nobody"] demo_world) = 1%Z.
Proof. vm_compute. reflexivity. Qed.

Example run_list_default_provider :
  events (snd (demo_run ["lookup.py"; "--list"] demo_world))
  = [ ReadFile CACHE_PATH;
      Print ("Models from google (1 total):" +:+ nl);
      Print "  gemini-pro  (Google: Gemini Pro)" ].
Proof. vm_compute. reflexivity. Qed.

(** A query that matches nothing still finds the record: its timestamp
    alone makes its score positive. *)
Example run_search_unmatched :
  fst (demo_run ["lookup.py"; "zzz"] demo_world) = 0%Z.
Proof. vm_compute. reflexivity. Qed.

(** Neither a cache nor a network: the exception ends the run. *)
Example run_offline :
  fst (demo_run ["lookup.py"; "gemini"]
         {| clock := Fin 1700000100; cache_file := None; remote := None;
            events := [] |})
  = 1%Z.
Proof. vm_compute. reflexivity. Qed.

(** A stale cache is refreshed from the network and written back. *)
Example fetch_stale_cache :
  let w := {| clock := Fin 1700007200;
              cache_file := Some (Fin 1700000000, "old");
              remote := Some "[gemini]";
              events := [] |} in
  let '(r, w') := fetch_models demo_loads demo_dumps demo_getitem w in
  r = Ok "[gemini]"
  /\ cache_file w' = Some (Fin 1700007200, "[gemini]")
  /\ network_calls w' = 1%nat.
Proof. vm_compute. repeat split; reflexivity. Qed.

(** ** Agreement of [Float64] with [SpecFloat] on sample computations *)

Example of_int_agrees :
  of_spec (spec_of_int (2 ^ 53 + 1)) = of_Q (inject_Z (2 ^ 53 + 1))
  /\ of_spec (spec_of_int 1700000000) = of_Q (inject_Z 1700000000)
  /\ of_spec (spec_of_int (2 ^ 1024 - 2 ^ 970)) = of_Q (inject_Z (2 ^ 1024 - 2 ^ 970))
  /\ of_spec (spec_of_int (2 ^ 1024 - 2 ^ 970 - 1))
     = of_Q (inject_Z (2 ^ 1024 - 2 ^ 970 - 1))
  /\ of_spec (spec_of_int (- (2 ^ 60 + 2 ^ 7)))
     = of_Q (inject_Z (- (2 ^ 60 + 2 ^ 7))).
Proof. vm_compute. repeat split; reflexivity. Qed.

Example division_agrees :
  of_spec (SFdiv 53 1024 (spec_of_int 1700000000) spec_1e12)
  = fdiv (Fin 1700000000) f1e12
  /\ of_spec (SFdiv 53 1024 (spec_of_int 1) spec_1e12) = fdiv (Fin 1) f1e12
  /\ of_spec (SFdiv 53 1024 (spec_of_int (-7)) spec_1e12)
     = fdiv (Fin (-7)) f1e12.
Proof. vm_compute. repeat split; reflexivity. Qed.

Example addition_agrees :
  let boost := SFdiv 53 1024 (spec_of_int 1700000000) spec_1e12 in
  of_spec (SFadd 53 1024 (spec_of_int 15) boost)
  = fadd (Fin 15) (of_spec boost)
  /\ of_spec (SFsub 53 1024 (SFadd 53 1024 (spec_of_int 15) boost)
                (spec_of_int 3))
     = fsub (fadd (Fin 15) (of_spec boost)) (Fin 3)
  /\ of_spec (SFadd 53 1024 (spec_of_int 9000) boost)
     = fadd (Fin 9000) (of_spec boost).
Proof. vm_compute. repeat split; reflexivity. Qed.

(** * Further properties *)

(** ** Cache store and fetcher: every path *)

Section FetchPaths.

Context {json : Type}.
Variable json_loads : string -> option json.
Variable json_dumps : json -> string.
Variable json_getitem : json -> string -> option json.

Abbreviation fetch_ := (fetch_models json_loads json_dumps json_getitem).

Lemma after_nil (w : world) : after w [] = w.
Proof. destruct w. unfold after. simpl. now rewrite app_nil_r. Qed.

Lemma after_after (w : world) (es es' : list event) :
  after (after w es) es' = after w (es ++ es').
Proof. unfold after. simpl. now rewrite app_assoc. Qed.

(** With a fresh cache the fetcher reads the file and parses it. *)
Lemma fetch_fresh (w : world) (mtime : float64) (content : string) :
  cache_file w = Some (mtime, content) -> cache_fresh w = true ->
  fetch_ w
  = (match json_loads content with
     | Some v => Ok v
     | None => Err JSONDecodeError
     end, after w [ReadFile CACHE_PATH]).
Proof.
  intros Hc Hfresh. unfold cache_fresh in Hfresh. rewrite Hc in Hfresh.
  assert (Hexists : os_path_exists w = (Ok true, w)).
  { unfold os_path_exists. rewrite Hc.
    rewrite bool_decide_eq_true_2 by (eexists; reflexivity). reflexivity. }
  assert (Hmtime : os_path_getmtime w = (Ok mtime, w)).
  { unfold os_path_getmtime. now rewrite Hc. }
  assert (Hread : read_cache w = (Ok content, after w [ReadFile CACHE_PATH])).
  { unfold read_cache. rewrite Hc. reflexivity. }
  unfold fetch_models.
  rewrite (bind_ok _ _ _ _ _ Hexists).
  destruct (json_loads content) as [v|] eqn:Ev.
  - rewrite (bind_ok _ _ w (after w [ReadFile CACHE_PATH]) (Some v));
      [reflexivity|].
    erewrite bind_ok by reflexivity.
    rewrite (bind_ok _ _ _ _ _ Hmtime). rewrite Hfresh.
    rewrite (bind_ok _ _ _ _ _ Hread).
    unfold json_load. rewrite Ev. reflexivity.
  - rewrite (bind_err _ _ w (after w [ReadFile CACHE_PATH]) JSONDecodeError);
      [reflexivity|].
    erewrite bind_ok by reflexivity.
    rewrite (bind_ok _ _ _ _ _ Hmtime). rewrite Hfresh.
    rewrite (bind_ok _ _ _ _ _ Hread).
    unfold json_load. rewrite Ev. reflexivity.
Qed.

(** Without a fresh cache the fetcher goes to the network. *)
Lemma fetch_not_fresh (w : world) :
  cache_fresh w = false ->
  fetch_ w
  = (body ← urlopen API_URL "model-lookup/1.0" 10;
     data ← json_load json_loads body;
     open_cache_for_writing;;
     payload ← getitem json_getitem data "data";
     write_cache (json_dumps payload);;
     getitem json_getitem data "data") w.
Proof.
  intros Hstale. unfold cache_fresh in Hstale. unfold fetch_models.
  destruct (cache_file w) as [[mtime content]|] eqn:Hc.
  - assert (Hexists : os_path_exists w = (Ok true, w)).
    { unfold os_path_exists. rewrite Hc.
      rewrite bool_decide_eq_true_2 by (eexists; reflexivity). reflexivity. }
    assert (Hmtime : os_path_getmtime w = (Ok mtime, w)).
    { unfold os_path_getmtime. now rewrite Hc. }
    rewrite (bind_ok _ _ _ _ _ Hexists).
    rewrite (bind_ok _ _ w w None); [reflexivity|].
    erewrite bind_ok by reflexivity.
    rewrite (bind_ok _ _ _ _ _ Hmtime). rewrite Hstale. reflexivity.
  - assert (Hexists : os_path_exists w = (Ok false, w)).
    { unfold os_path_exists. rewrite Hc.
      rewrite bool_decide_eq_false_2; [reflexivity|].
      intros [x Hx]. discriminate. }
    rewrite (bind_ok _ _ _ _ _ Hexists).
    rewrite (bind_ok _ _ w w None); reflexivity.
Qed.

(** The four ways the refresh can go. *)
Lemma fetch_refresh_cases (w : world) :
  cache_fresh w = false ->
  fetch_ w
  = match remote w with
    | None => (Err URLError, after w [the_request])
    | Some body =>
        match json_loads body with
        | None => (Err JSONDecodeError, after w [the_request])
        | Some data =>
            match json_getitem data "data" with
            | None =>
                (Err (KeyError "data"),
                 rewritten (after w [the_request]) "")
            | Some payload =>
                (Ok payload,
                 after (rewritten (after w [the_request])
                          (json_dumps payload))
                   [WriteFile CACHE_PATH (json_dumps payload)])
            end
        end
    end.
Proof.
  intros Hstale. rewrite (fetch_not_fresh w Hstale).
  destruct (remote w) as [body|] eqn:Hr.
  - assert (Hget : urlopen API_URL "model-lookup/1.0" 10 w
                   = (Ok body, after w [the_request])).
    { unfold urlopen. erewrite bind_ok by reflexivity. simpl.
      unfold after, the_request. revert Hr.
      destruct (remote w); intros Hr; inversion Hr; reflexivity. }
    rewrite (bind_ok _ _ _ _ _ Hget).
    unfold json_load. destruct (json_loads body) as [data|]; [|reflexivity].
    erewrite bind_ok by reflexivity.
    erewrite bind_ok by reflexivity.
    unfold getitem. destruct (json_getitem data "data") as [payload|];
      reflexivity.
  - assert (Hget : urlopen API_URL "model-lookup/1.0" 10 w
                   = (Err URLError, after w [the_request])).
    { unfold urlopen. erewrite bind_ok by reflexivity. simpl.
      unfold after, the_request. revert Hr.
      destruct (remote w); intros Hr; inversion Hr; reflexivity. }
    rewrite (bind_err _ _ _ _ _ Hget). reflexivity.
Qed.

Lemma network_calls_after (w : world) (es : list event) :
  network_calls (after w es)
  = (network_calls w + length (List.filter is_network es))%nat.
Proof.
  unfold network_calls, after. simpl.
  now rewrite List.filter_app, length_app.
Qed.

(** A file written at the time of the clock has age zero. *)
Lemma written_now_fresh (w : world) (c : Q) (content : string) :
  clock w = Fin c -> cache_file w = Some (Fin c, content) ->
  cache_fresh w = true.
Proof.
  intros Hclock Hc. unfold cache_fresh. rewrite Hc, Hclock.
  unfold fsub. cbn [fneg fadd].
  rewrite (Float64Facts.of_Q_comp (c + Qred (- c)) 0).
  - vm_compute. reflexivity.
  - rewrite Qred_correct. ring.
Qed.

(** X1.  Without a fresh cache, when the endpoint answers a document
    that parses and has a ["data"] member, the fetcher sends exactly one
    request, to the fixed address with the fixed user agent and a timeout
    of 10 seconds, writes the serialized member to the cache file, whose
    modification time becomes the time of the clock, and returns the
    member. *)
Theorem fetch_models_refresh (w : world) (body : string)
  (data payload : json) :
  cache_fresh w = false ->
  remote w = Some body ->
  json_loads body = Some data ->
  json_getitem data "data" = Some payload ->
  exists w',
    fetch_ w = (Ok payload, w')
    /\ events w'
       = (events w
          ++ [HttpGet "https://openrouter.ai/api/v1/models"
                "model-lookup/1.0" 10;
              WriteFile CACHE_PATH (json_dumps payload)])%list
    /\ cache_file w' = Some (clock w, json_dumps payload)
    /\ network_calls w' = S (network_calls w)
    /\ clock w' = clock w.
Proof.
  intros Hstale Hr Hl Hg.
  rewrite (fetch_refresh_cases w Hstale), Hr, Hl, Hg.
  eexists. split; [reflexivity|].
  split; [simpl; now rewrite <- app_assoc|].
  split; [reflexivity|]. split; [|reflexivity].
  unfold network_calls. simpl.
  rewrite !List.filter_app, !length_app. simpl. lia.
Qed.

(** X2.  A refresh followed by another fetch while the clock has not
    moved: when the serializer and the parser of the [json] module are
    inverse on the catalog, the second fetch returns the same catalog from
    the cache file and sends nothing over the network. *)
Theorem fetch_models_refresh_then_cached (w : world) (c : Q) (body : string)
  (data payload : json) :
  cache_fresh w = false ->
  clock w = Fin c ->
  remote w = Some body ->
  json_loads body = Some data ->
  json_getitem data "data" = Some payload ->
  json_loads (json_dumps payload) = Some payload ->
  exists w1 w2,
    fetch_ w = (Ok payload, w1)
    /\ fetch_ w1 = (Ok payload, w2)
    /\ network_calls w2 = network_calls w1
    /\ cache_file w2 = cache_file w1.
Proof.
  intros Hstale Hclock Hr Hl Hg Hround.
  rewrite (fetch_refresh_cases w Hstale), Hr, Hl, Hg.
  eexists. eexists. split; [reflexivity|].
  match goal with |- fetch_ ?x = _ /\ _ => set (w1 := x) end.
  assert (Hc1 : cache_file w1 = Some (Fin c, json_dumps payload)).
  { unfold w1. simpl. now rewrite Hclock. }
  assert (Hfresh : cache_fresh w1 = true).
  { apply (written_now_fresh w1 c (json_dumps payload)); [|exact Hc1].
    unfold w1. simpl. exact Hclock. }
  rewrite (fetch_fresh w1 _ _ Hc1 Hfresh), Hround.
  split; [reflexivity|]. split; [|reflexivity].
  rewrite network_calls_after. cbn [List.filter is_network length].
  fold w1. lia.
Qed.

(** X3.  Without a fresh cache, when the request fails, the fetcher
    raises the error of the network after its one request; a stale cache
    file is not used in its place, and it is left as it was. *)
Theorem fetch_models_network_failure (w : world) :
  cache_fresh w = false ->
  remote w = None ->
  exists w',
    fetch_ w = (Err URLError, w')
    /\ cache_file w' = cache_file w
    /\ network_calls w' = S (network_calls w).
Proof.
  intros Hstale Hr. rewrite (fetch_refresh_cases w Hstale), Hr.
  eexists. split; [reflexivity|]. split; [reflexivity|].
  rewrite network_calls_after. unfold the_request.
  cbn [List.filter is_network length]. lia.
Qed.

(** X4.  Without a fresh cache, when the answer of the endpoint does not
    parse, the fetcher raises the error of the parser and the cache file
    is left as it was: the file is opened only after the answer has been
    parsed. *)
Theorem fetch_models_unparsable_answer (w : world) (body : string) :
  cache_fresh w = false ->
  remote w = Some body ->
  json_loads body = None ->
  exists w',
    fetch_ w = (Err JSONDecodeError, w')
    /\ cache_file w' = cache_file w
    /\ events w' = (events w ++ [the_request])%list.
Proof.
  intros Hstale Hr Hl. rewrite (fetch_refresh_cases w Hstale), Hr, Hl.
  eexists. split; [reflexivity|]. split; reflexivity.
Qed.

(** X5.  Without a fresh cache, when the answer parses and has no
    ["data"] member, the fetcher raises [KeyError] after it has opened the
    cache file for writing: the file is left empty, stamped with the time
    of the clock.  While the clock has not moved, the next fetch finds
    this empty file fresh, sends nothing over the network and raises the
    error of the parser on the empty text. *)
Theorem fetch_models_missing_data_empties_cache (w : world) (c : Q)
  (body : string) (data : json) :
  cache_fresh w = false ->
  clock w = Fin c ->
  remote w = Some body ->
  json_loads body = Some data ->
  json_getitem data "data" = None ->
  json_loads "" = None ->
  exists w1 w2,
    fetch_ w = (Err (KeyError "data"), w1)
    /\ cache_file w1 = Some (clock w, "")
    /\ fetch_ w1 = (Err JSONDecodeError, w2)
    /\ network_calls w2 = network_calls w1.
Proof.
  intros Hstale Hclock Hr Hl Hg Hempty.
  rewrite (fetch_refresh_cases w Hstale), Hr, Hl, Hg.
  eexists. eexists. split; [reflexivity|].
  split; [reflexivity|].
  match goal with |- fetch_ ?x = _ /\ _ => set (w1 := x) end.
  assert (Hc1 : cache_file w1 = Some (Fin c, "")).
  { unfold w1. simpl. now rewrite Hclock. }
  assert (Hfresh : cache_fresh w1 = true).
  { apply (written_now_fresh w1 c ""); [|exact Hc1].
    unfold w1. simpl. exact Hclock. }
  rewrite (fetch_fresh w1 _ _ Hc1 Hfresh), Hempty.
  split; [reflexivity|].
  rewrite network_calls_after. cbn [List.filter is_network length].
  fold w1. lia.
Qed.

(** X6.  On every path the fetcher keeps the clock and the endpoint as
    they are, only adds to the trace, sends at most one request, prints
    nothing, and when it returns a catalog the cache file exists. *)
Theorem fetch_models_frame (w : world) :
  let w' := snd (fetch_ w) in
  clock w' = clock w
  /\ remote w' = remote w
  /\ (exists es,
        events w' = (events w ++ es)%list
        /\ (length (List.filter is_network es) <= 1)%nat
        /\ Forall (fun e => forall text, e <> Print text) es)
  /\ (forall v, fst (fetch_ w) = Ok v -> is_Some (cache_file w')).
Proof.
  cbv zeta. destruct (cache_fresh w) eqn:Hfresh.
  - assert (Hc : exists mtime content, cache_file w = Some (mtime, content)).
    { unfold cache_fresh in Hfresh.
      destruct (cache_file w) as [[mtime content]|]; [eauto|discriminate]. }
    destruct Hc as (mtime & content & Hc).
    rewrite (fetch_fresh w _ _ Hc Hfresh). simpl.
    split; [reflexivity|]. split; [reflexivity|]. split.
    + exists [ReadFile CACHE_PATH]. split; [reflexivity|].
      split; [simpl; lia|]. repeat constructor. discriminate.
    + intros _ _. rewrite Hc. eauto.
  - rewrite (fetch_refresh_cases w Hfresh).
    destruct (remote w) as [body|] eqn:Hr.
    2:{ simpl. rewrite Hr. repeat split.
        - exists [the_request]. split; [reflexivity|].
          split; [simpl; lia|]. repeat constructor. discriminate.
        - discriminate. }
    destruct (json_loads body) as [data|].
    2:{ simpl. rewrite Hr. repeat split.
        - exists [the_request]. split; [reflexivity|].
          split; [simpl; lia|]. repeat constructor. discriminate.
        - discriminate. }
    destruct (json_getitem data "data") as [payload|].
    + simpl. rewrite Hr. repeat split.
      * exists [the_request; WriteFile CACHE_PATH (json_dumps payload)].
        split; [now rewrite <- app_assoc|].
        split; [simpl; lia|]. repeat constructor; discriminate.
      * eauto.
    + simpl. rewrite Hr. repeat split.
      * exists [the_request]. split; [reflexivity|].
        split; [simpl; lia|]. repeat constructor. discriminate.
      * discriminate.
Qed.

End FetchPaths.

(** The refresh at work on a cache that is exactly 3600 seconds old. *)
Lemma fetch_models_refresh_witness :
  cache_fresh (stale_world (Some "[gemini]")) = false
  /\ exists w',
       fetch_models demo_loads demo_dumps demo_getitem
         (stale_world (Some "[gemini]"))
       = (Ok "[gemini]", w')
       /\ cache_file w' = Some (Fin 1700003600, "[gemini]").
Proof.
  assert (H : cache_fresh (stale_world (Some "[gemini]")) = false)
    by (vm_compute; reflexivity).
  split; [exact H|].
  destruct (fetch_models_refresh demo_loads demo_dumps demo_getitem
              (stale_world (Some "[gemini]")) "[gemini]" "[gemini]" "[gemini]"
              H eq_refl eq_refl eq_refl) as (w' & H1 & _ & H3 & _).
  exists w'. split; [exact H1 | exact H3].
Defined.

(** The refresh and the fetch after it. *)
Lemma fetch_models_refresh_then_cached_witness :
  cache_fresh (stale_world (Some "[gemini]")) = false
  /\ exists w1 w2,
       fetch_models demo_loads demo_dumps demo_getitem
         (stale_world (Some "[gemini]"))
       = (Ok "[gemini]", w1)
       /\ fetch_models demo_loads demo_dumps demo_getitem w1
          = (Ok "[gemini]", w2)
       /\ network_calls w2 = network_calls w1.
Proof.
  assert (H : cache_fresh (stale_world (Some "[gemini]")) = false)
    by (vm_compute; reflexivity).
  split; [exact H|].
  destruct (fetch_models_refresh_then_cached demo_loads demo_dumps
              demo_getitem (stale_world (Some "[gemini]")) 1700003600
              "[gemini]" "[gemini]" "[gemini]"
              H eq_refl eq_refl eq_refl eq_refl eq_refl)
    as (w1 & w2 & H1 & H2 & H3 & _).
  exists w1, w2. split; [exact H1|]. split; [exact H2 | exact H3].
Defined.

(** A stale cache and no network. *)
Lemma fetch_models_network_failure_witness :
  cache_fresh (stale_world None) = false
  /\ exists w',
       fetch_models demo_loads demo_dumps demo_getitem (stale_world None)
       = (Err URLError, w')
       /\ cache_file w' = Some (Fin 1700000000, "old").
Proof.
  assert (H : cache_fresh (stale_world None) = false)
    by (vm_compute; reflexivity).
  split; [exact H|].
  destruct (fetch_models_network_failure demo_loads demo_dumps demo_getitem
              (stale_world None) H eq_refl) as (w' & H1 & H2 & _).
  exists w'. split; [exact H1 | exact H2].
Defined.

(** A stale cache and an empty answer. *)
Lemma fetch_models_unparsable_answer_witness :
  cache_fresh (stale_world (Some "")) = false
  /\ exists w',
       fetch_models demo_loads demo_dumps demo_getitem (stale_world (Some ""))
       = (Err JSONDecodeError, w')
       /\ cache_file w' = Some (Fin 1700000000, "old").
Proof.
  assert (H : cache_fresh (stale_world (Some "")) = false)
    by (vm_compute; reflexivity).
  split; [exact H|].
  destruct (fetch_models_unparsable_answer demo_loads demo_dumps demo_getitem
              (stale_world (Some "")) "" H eq_refl eq_refl)
    as (w' & H1 & H2 & _).
  exists w'. split; [exact H1 | exact H2].
Defined.

(** A stale cache and an answer without the member. *)
Lemma fetch_models_missing_data_empties_cache_witness :
  cache_fresh (stale_world (Some "{}")) = false
  /\ exists w1 w2,
       fetch_models demo_loads demo_dumps demo_getitem_strict
         (stale_world (Some "{}"))
       = (Err (KeyError "data"), w1)
       /\ cache_file w1 = Some (Fin 1700003600, "")
       /\ fetch_models demo_loads demo_dumps demo_getitem_strict w1
          = (Err JSONDecodeError, w2).
Proof.
  assert (H : cache_fresh (stale_world (Some "{}")) = false)
    by (vm_compute; reflexivity).
  split; [exact H|].
  destruct (fetch_models_missing_data_empties_cache demo_loads demo_dumps
              demo_getitem_strict (stale_world (Some "{}")) 1700003600
              "{}" "{}" H eq_refl eq_refl eq_refl eq_refl eq_refl)
    as (w1 & w2 & H1 & H2 & H3 & _).
  exists w1, w2. split; [exact H1|]. split; [exact H2 | exact H3].
Defined.

(** ** ID translator: both branches *)

Module NativeIdMore.

Import Re ReFacts NativeId.

Lemma contains_cons_false (n : string) (c : ascii) (s : string) :
  PyStr.contains n (String c s) = false -> PyStr.contains n s = false.
Proof.
  simpl. intros H. apply Bool.orb_false_iff in H as [_ H]. exact H.
Qed.

Lemma contains_char_head (c : ascii) (s : string) :
  PyStr.contains (String c "") (String c s) = true.
Proof.
  simpl. destruct (ascii_dec c c) as [_|N]; [|now contradict N].
  destruct s; reflexivity.
Qed.

Lemma contains_char_neq (c a : ascii) (s : string) :
  PyStr.contains (String c "") (String a s) = false -> Ascii.eqb a c = false.
Proof.
  destruct (Ascii.eqb_spec a c) as [->|]; [|reflexivity].
  rewrite contains_char_head. discriminate.
Qed.

(** Without the separator, [partition] returns the text and two empty
    strings. *)
Lemma partition_absent (c : ascii) (s : string) :
  PyStr.contains (String c "") s = false ->
  PyStr.partition c s = (s, "", "").
Proof.
  induction s as [|a s IH]; intros H; [reflexivity|].
  simpl. rewrite (contains_char_neq _ _ _ H).
  rewrite (IH (contains_cons_false _ _ _ H)). reflexivity.
Qed.

(** [partition] splits at a separator that the head does not contain. *)
Lemma partition_app (c : ascii) (s t : string) :
  PyStr.contains (String c "") s = false ->
  PyStr.partition c (s +:+ String c t) = (s, String c "", t).
Proof.
  induction s as [|a s IH]; intros H; simpl.
  - now rewrite Ascii.eqb_refl.
  - rewrite (contains_char_neq _ _ _ H).
    rewrite (IH (contains_cons_false _ _ _ H)). reflexivity.
Qed.

Lemma sub_version_empty : sub_version "" = "".
Proof. reflexivity. Qed.

(** The substitution turns dots into dashes and leaves the rest. *)
Lemma dashed_refl (s : string) : dashed s s.
Proof. induction s; constructor; assumption. Qed.

Lemma dashed_app (a s r : string) : dashed s r -> dashed (a +:+ s) (a +:+ r).
Proof. intros H. induction a; simpl; [assumption | now constructor]. Qed.

Lemma sub_from_dashed (fuel : nat) (s : string) : dashed s (sub_from fuel s).
Proof.
  revert s; induction fuel as [|fuel IH]; intros s; simpl; [apply dashed_refl|].
  destruct (match_version s) as [[[d1 d2] rest]|] eqn:E.
  - apply match_version_app in E. subst s.
    apply dashed_app. simpl. apply dashed_dot. apply dashed_app. apply IH.
  - destruct s as [|c s]; [constructor|]. apply dashed_same, IH.
Qed.

Lemma dashed_split_head (s r : string) :
  dashed s r ->
  dashed (PyStr.split_head ":" s) (PyStr.split_head ":" r).
Proof.
  induction 1 as [|c s r H IH|s r H IH]; simpl.
  - constructor.
  - destruct (Ascii.eqb c ":"); [constructor | now constructor].
  - now constructor.
Qed.

Lemma split_head_no_sep (c : ascii) (s : string) :
  PyStr.contains (String c "") (PyStr.split_head c s) = false.
Proof.
  induction s as [|a s IH]; [reflexivity|]. simpl.
  destruct (Ascii.eqb a c) eqn:E; [reflexivity|].
  cbn [PyStr.contains String.prefix].
  destruct (ascii_dec c a) as [->|N].
  - rewrite Ascii.eqb_refl in E. discriminate.
  - exact IH.
Qed.

Lemma split_head_id (c : ascii) (s : string) :
  PyStr.contains (String c "") s = false -> PyStr.split_head c s = s.
Proof.
  induction s as [|a s IH]; intros H; [reflexivity|]. simpl.
  rewrite (contains_char_neq _ _ _ H).
  now rewrite (IH (contains_cons_false _ _ _ H)).
Qed.

Lemma split_head_full (c : ascii) (s : string) :
  String.length (PyStr.split_head c s) = String.length s ->
  PyStr.split_head c s = s.
Proof.
  induction s as [|a s IH]; [reflexivity|]. simpl.
  destruct (Ascii.eqb a c); simpl; [discriminate|].
  intros H. f_equal. apply IH. lia.
Qed.

End NativeIdMore.

(** X7.  For a provider other than [anthropic], the translation of
    [provider/slug] is the slug, whatever it contains: further slashes,
    colons and dotted versions stay as they are. *)
Theorem to_native_id_other_provider (provider slug : string) :
  PyStr.contains "/" provider = false ->
  provider <> "anthropic" ->
  to_native_id (provider +:+ "/" +:+ slug) = slug.
Proof.
  intros Hsep Hp. unfold to_native_id.
  change (provider +:+ "/" +:+ slug)
    with (provider +:+ String "/"%char slug).
  rewrite (NativeIdMore.partition_app _ _ _ Hsep).
  apply String.eqb_neq in Hp. now rewrite Hp.
Qed.

Lemma to_native_id_other_provider_witness :
  PyStr.contains "/" "openai" = false
  /\ "openai" <> "anthropic"
  /\ to_native_id "openai/gpt-4.1:extended" = "gpt-4.1:extended".
Proof.
  split; [reflexivity|]. split; [discriminate|].
  apply (to_native_id_other_provider "openai" "gpt-4.1:extended");
    [reflexivity | discriminate].
Defined.

(** X8.  An identifier without a slash has no model part: its
    translation is the empty string, also when the identifier is a bare
    model name. *)
Theorem to_native_id_without_separator (x : string) :
  PyStr.contains "/" x = false -> to_native_id x = "".
Proof.
  intros H. unfold to_native_id.
  rewrite (NativeIdMore.partition_absent _ _ H).
  destruct (String.eqb x "anthropic"); reflexivity.
Qed.

Lemma to_native_id_without_separator_witness :
  PyStr.contains "/" "gpt-4o" = false /\ to_native_id "gpt-4o" = "".
Proof.
  split; [reflexivity|].
  apply (to_native_id_without_separator "gpt-4o"). reflexivity.
Defined.

(** X9.  For the provider [anthropic] the translation is the slug up to
    its first colon, with some of its dots turned into dashes and no other
    character changed, added or removed; it contains no colon. *)
Theorem to_native_id_anthropic_shape (slug : string) :
  dashed (PyStr.split_head ":" slug) (to_native_id ("anthropic/" +:+ slug))
  /\ PyStr.contains ":" (to_native_id ("anthropic/" +:+ slug)) = false.
Proof.
  assert (E : to_native_id ("anthropic/" +:+ slug)
              = PyStr.split_head ":" (Re.sub_version slug)).
  { unfold to_native_id.
    change ("anthropic/" +:+ slug) with ("anthropic" +:+ String "/"%char slug).
    rewrite (NativeIdMore.partition_app "/" "anthropic" slug eq_refl).
    reflexivity. }
  rewrite E. split.
  - apply NativeIdMore.dashed_split_head, NativeIdMore.sub_from_dashed.
  - apply NativeIdMore.split_head_no_sep.
Qed.

Module SubFixpoint.

Import Re ReFacts NativeIdMore.

Lemma has_dotted_cons (c : ascii) (s : string) :
  has_dotted_version s = true -> has_dotted_version (String c s) = true.
Proof.
  destruct s as [|b [|c' t]]; try discriminate.
  intros H.
  change (has_dotted_version (String c (String b (String c' t))))
    with ((is_digit c && Ascii.eqb b "." && is_digit c')
          || has_dotted_version (String b (String c' t))).
  rewrite H. apply Bool.orb_true_r.
Qed.

Lemma span_digits_head (s d r : string) (c : ascii) :
  span_digits s = (String c d, r) ->
  exists s', s = String c s' /\ is_digit c = true /\ span_digits s' = (d, r).
Proof.
  destruct s as [|a s]; simpl; [discriminate|].
  destruct (is_digit a) eqn:Ea; [|discriminate].
  destruct (span_digits s) as [d' r'] eqn:E.
  intros H; inversion H; subst. eauto.
Qed.

(** A digit run, a dot and a digit at the head: a dotted version. *)
Lemma run_dot_digit (s d r2 : string) (c c2 : ascii) :
  span_digits s = (String c d, String "." (String c2 r2)) ->
  is_digit c2 = true ->
  has_dotted_version s = true.
Proof.
  revert c d. induction s as [|a s IH]; intros c d H Hc2; [discriminate|].
  apply span_digits_head in H as (s' & Es & Hc & Hspan).
  inversion Es; subst a s'.
  destruct d as [|c' d'].
  - apply span_digits_app in Hspan. subst s.
    change ("" +:+ String "." (String c2 r2))
      with (String "."%char (String c2 r2)).
    change (has_dotted_version (String c (String "." (String c2 r2))))
      with ((is_digit c && Ascii.eqb "." "." && is_digit c2)
            || has_dotted_version (String "." (String c2 r2))).
    rewrite Hc, Hc2. reflexivity.
  - apply has_dotted_cons. eapply IH; eassumption.
Qed.

(** Where the pattern matches there is a dotted version. *)
Lemma match_version_dotted (s d1 d2 rest : string) :
  match_version s = Some (d1, d2, rest) -> has_dotted_version s = true.
Proof.
  unfold match_version.
  destruct (span_digits s) as [e1 r1] eqn:E1.
  destruct e1 as [|c e1]; [discriminate|].
  destruct r1 as [|c1 r2]; [discriminate|].
  destruct (Ascii.eqb_spec c1 "."%char) as [->|Hne].
  2:{ destruct c1 as [[] [] [] [] [] [] [] []]; try discriminate.
      now contradict Hne. }
  destruct (span_digits r2) as [e2 r3] eqn:E2.
  destruct e2 as [|c2 e2]; [discriminate|].
  intros _.
  apply span_digits_head in E2 as (r2' & -> & Hc2 & _).
  eapply run_dot_digit; eassumption.
Qed.

(** A digit, a dot and a digit at the head: the pattern matches. *)
Lemma triple_matches (a c : ascii) (t : string) :
  is_digit a = true -> is_digit c = true ->
  match_version (String a (String "." (String c t))) <> None.
Proof.
  intros Ha Hc. unfold match_version.
  cbn [span_digits]. rewrite Ha.
  change (is_digit ".") with false. cbn iota.
  cbn [span_digits]. rewrite Hc.
  destruct (span_digits t) as [d r]. discriminate.
Qed.

Lemma append_inv_head (a x y : string) : a +:+ x = a +:+ y -> x = y.
Proof.
  induction a as [|c a IH]; simpl; intros H; [exact H|].
  inversion H. now apply IH.
Qed.

(** The substitution leaves a string as it is exactly when the string has
    no dotted version. *)
Lemma sub_from_fixpoint (fuel : nat) (s : string) :
  (String.length s <= fuel)%nat ->
  (sub_from fuel s = s <-> has_dotted_version s = false).
Proof.
  revert s; induction fuel as [|fuel IH]; intros s Hlen.
  - destruct s; [|simpl in Hlen; lia]. split; reflexivity.
  - cbn [sub_from].
    destruct (match_version s) as [[[d1 d2] rest]|] eqn:E.
    + pose proof (match_version_dotted _ _ _ _ E) as Hd.
      apply match_version_app in E. rewrite Hd. split; [|discriminate].
      intros H. rewrite E in H.
      apply append_inv_head in H. discriminate.
    + destruct s as [|c s]; [split; reflexivity|].
      cbn [String.length] in Hlen.
      specialize (IH s ltac:(lia)).
      split.
      * intros H. injection H as H'.
        apply IH in H'.
        destruct s as [|b [|c' t]]; try reflexivity.
        change (has_dotted_version (String c (String b (String c' t))))
          with ((is_digit c && Ascii.eqb b "." && is_digit c')
                || has_dotted_version (String b (String c' t))).
        rewrite H', Bool.orb_false_r.
        destruct (is_digit c) eqn:Hc; [|reflexivity].
        destruct (Ascii.eqb_spec b "."%char) as [->|]; [|reflexivity].
        destruct (is_digit c') eqn:Hc'; [|reflexivity].
        exfalso. exact (triple_matches c c' t Hc Hc' E).
      * intros H. f_equal. apply IH.
        destruct (has_dotted_version s) eqn:Hs; [|reflexivity].
        rewrite (has_dotted_cons c s Hs) in H. discriminate.
Qed.

Lemma sub_version_fixpoint (s : string) :
  sub_version s = s <-> has_dotted_version s = false.
Proof. apply sub_from_fixpoint. lia. Qed.

End SubFixpoint.

(** X10.  For the provider [anthropic]: a slug that the translation
    gives back unchanged has no colon and no digit, dot and digit in a
    row; and an ASCII slug that has neither is given back unchanged. *)
Theorem to_native_id_anthropic_unchanged (slug : string) :
  (to_native_id ("anthropic/" +:+ slug) = slug ->
   Re.has_dotted_version slug = false /\ PyStr.contains ":" slug = false)
  /\ (isascii slug = true ->
      Re.has_dotted_version slug = false ->
      PyStr.contains ":" slug = false ->
      to_native_id ("anthropic/" +:+ slug) = slug).
Proof.
  assert (E : to_native_id ("anthropic/" +:+ slug)
              = PyStr.split_head ":" (Re.sub_version slug)).
  { unfold to_native_id.
    change ("anthropic/" +:+ slug) with ("anthropic" +:+ String "/"%char slug).
    rewrite (NativeIdMore.partition_app "/" "anthropic" slug eq_refl).
    reflexivity. }
  rewrite E. split.
  - intros H.
    assert (Hfull : PyStr.split_head ":" (Re.sub_version slug)
                    = Re.sub_version slug).
    { apply NativeIdMore.split_head_full.
      rewrite H at 1. now rewrite ReFacts.sub_version_length. }
    rewrite Hfull in H. split.
    + now apply SubFixpoint.sub_version_fixpoint.
    + rewrite <- H at 1. rewrite <- Hfull.
      apply NativeIdMore.split_head_no_sep.
  - intros _ Hd Hc.
    apply SubFixpoint.sub_version_fixpoint in Hd. rewrite Hd.
    now apply NativeIdMore.split_head_id.
Qed.

Lemma to_native_id_anthropic_unchanged_witness :
  isascii "claude-opus-4" = true
  /\ Re.has_dotted_version "claude-opus-4" = false
  /\ PyStr.contains ":" "claude-opus-4" = false
  /\ to_native_id "anthropic/claude-opus-4" = "claude-opus-4".
Proof.
  split; [reflexivity|]. split; [reflexivity|]. split; [reflexivity|].
  exact (proj2 (to_native_id_anthropic_unchanged "claude-opus-4")
           eq_refl eq_refl eq_refl).
Defined.

(** ** Matcher: what the score depends on *)

Module ScoreMore.

Import ScoreFacts.

Lemma sum_Z_perm (l l' : list Z) : Permutation l l' -> sum_Z l = sum_Z l'.
Proof.
  induction 1 as [|x l l' _ IH|x y l|l l' l'' _ IH1 _ IH2]; simpl;
    unfold sum_Z in *; simpl; lia.
Qed.

(** The integer part as a sum over the lower-cased terms. *)
Lemma points_sum (terms : list string) (m : Model) :
  points terms m
  = sum_Z (map (term_points (PyStr.lower (model_id m))
                  (PyStr.lower (default "" (model_name m))))
             (map PyStr.lower terms)).
Proof.
  unfold points, points_with.
  rewrite fold_score_term_with, Z.add_0_l. now rewrite map_map.
Qed.

(** The score is a function of the integer part, the timestamp and the
    free-tier mark. *)
Lemma score_match_factors (terms terms' : list string) (m m' : Model) :
  points terms m = points terms' m' ->
  created m = created m' ->
  is_free m = is_free m' ->
  score_match terms m = score_match terms' m'.
Proof.
  intros Hp Hc Hf. unfold score_match, score_match_with.
  fold (points_with PyStr.lower terms m) (points_with PyStr.lower terms' m')
    (is_free_with PyStr.lower m) (is_free_with PyStr.lower m').
  unfold points, is_free in Hp, Hf.
  now rewrite Hp, Hc, Hf.
Qed.

(** A term scores 0, 5, 10 or 15 points, and more than 0 exactly when it
    matches. *)
Lemma points_positive (lower : string -> string) (terms : list string)
  (m : Model) :
  (points_with lower terms m = 0%Z \/ 5 <= points_with lower terms m)%Z
  /\ ((0 < points_with lower terms m)%Z
      <-> Exists (fun t => matches_term_with lower m t = true) terms).
Proof.
  unfold points_with. rewrite fold_score_term_with, Z.add_0_l.
  induction terms as [|t terms [IH1 IH2]].
  - split; [now left|]. split; [simpl; lia|]. intros H. inversion H.
  - pose proof (points_bounds_with lower (lower (model_id m))
                  (lower (default "" (model_name m))) terms) as B.
    rewrite Exists_cons. unfold matches_term_with at 1.
    cbn [map].
    match goal with
    | |- context [sum_Z (?x :: ?l)] =>
        change (sum_Z (x :: l)) with (x + sum_Z l)%Z;
        set (rest := sum_Z l) in *
    end.
    unfold term_points.
    destruct (PyStr.contains (lower t) (lower (model_id m))),
             (PyStr.contains (lower t)
                (lower (default "" (model_name m)))); simpl;
      (split; [lia|]); split; try (intros _; now left); try lia.
    + intros H. right. apply IH2. lia.
    + intros [H|H]; [discriminate|]. apply IH2 in H. lia.
Qed.

End ScoreMore.



(** X12.  The score does not depend on the order of the query terms. *)
Theorem score_match_term_order (terms terms' : list string) (m : Model) :
  Permutation terms terms' ->
  score_match terms m = score_match terms' m.
Proof.
  intros H. apply ScoreMore.score_match_factors; try reflexivity.
  rewrite !ScoreMore.points_sum. apply ScoreMore.sum_Z_perm.
  now apply Permutation_map, Permutation_map.
Qed.

Lemma score_match_term_order_witness :
  score_match ["gemini"; "pro"; "zzz"] gemini_pro
  = score_match ["zzz"; "gemini"; "pro"] gemini_pro.
Proof.
  apply (score_match_term_order ["gemini"; "pro"; "zzz"]
           ["zzz"; "gemini"; "pro"] gemini_pro).
  change (Permutation ([ "gemini"; "pro"] ++ ["zzz"])
            (["zzz"] ++ ["gemini"; "pro"])).
  apply Permutation_app_comm.
Defined.

(** X13.  For a record without a timestamp, or with the timestamp zero,
    the score is an integer, computing it raises nothing, and it is
    positive exactly when some query term is a substring of the
    identifier or of the display name, all in lower case: with no match
    the score is 0, or -3 in the free tier.  This holds whatever the case
    mapping [lower] that [str.lower] applies. *)
Theorem score_match_without_timestamp (lower : string -> string)
  (terms : list string) (m : Model) :
  default 0%Z (created m) = 0%Z ->
  exists n : Z,
    score_match_with lower terms m = Ok (PyInt n)
    /\ (gt (PyInt n) (PyInt 0) = true
        <-> Exists (fun t => matches_term_with lower m t = true) terms)
    /\ (~ Exists (fun t => matches_term_with lower m t = true) terms ->
        n = if PyStr.contains ":free" (lower (model_id m))
            then (-3)%Z else 0%Z).
Proof.
  intros H0. rewrite (ScoreFacts.score_match_zero_with lower terms m H0).
  destruct (ScoreMore.points_positive lower terms m) as [Hval Hpos].
  eexists. split; [reflexivity|].
  unfold gt, lt. fold (is_free_with lower m). split.
  - rewrite <- Hpos. rewrite Z.ltb_lt. destruct (is_free_with lower m); lia.
  - intros Hno. rewrite <- Hpos in Hno.
    destruct (is_free_with lower m); lia.
Qed.

(** The theorem at work on ASCII text, where the case mapping is
    [PyStr.lower]: a query that matches nothing, in the free tier. *)
Lemma score_match_without_timestamp_witness :
  default 0%Z (created undated_free) = 0%Z
  /\ exists n, score_match ["zzz"] undated_free = Ok (PyInt n)
               /\ n = (-3)%Z.
Proof.
  split; [reflexivity|].
  destruct (score_match_without_timestamp PyStr.lower ["zzz"] undated_free
              eq_refl)
    as (n & Hs & _ & Hn).
  exists n. split; [exact Hs|].
  apply Hn. intros H. inversion H as [? ? H1|? ? H1]; subst.
  - discriminate H1.
  - inversion H1.
Defined.

(** X14.  Computing a score raises nothing but [OverflowError], and only
    when the timestamp or 15 times the number of terms exceeds [2^1023]
    in magnitude; a score that is computed is a number, never a NaN. *)
Theorem score_match_errors (terms : list string) (m : Model) :
  match score_match terms m with
  | Ok s => is_number (value s)
  | Err e =>
      e = OverflowError
      /\ (2 ^ 1023 < Z.abs (default 0%Z (created m))
          \/ 2 ^ 1023 < 15 * Z.of_nat (length terms))%Z
  end.
Proof.
  destruct (score_match terms m) as [s|e] eqn:E.
  - eapply SearchFacts.score_number, E.
  - split; [eapply ScoreFacts.score_match_err, E|].
    destruct (Z_le_gt_dec (Z.abs (default 0%Z (created m))) (2 ^ 1023))
      as [Hc|Hc]; [|left; lia].
    destruct (Z_le_gt_dec (15 * Z.of_nat (length terms)) (2 ^ 1023))
      as [Ht|Ht]; [|right; lia].
    destruct (ScoreFacts.score_match_total terms m Hc Ht) as [s Hs].
    congruence.
Qed.

(** ** Matcher: what the search returns *)

Module SearchMore.

Import Float64Facts PyNumFacts ScoreFacts SearchFacts.

Lemma filter_sublist {A : Type} (f : A -> bool) (l : list A) :
  List.filter f l `sublist_of` l.
Proof.
  induction l as [|x l IH]; simpl; [constructor|].
  destruct (f x); [now apply sublist_skip | now apply sublist_cons].
Qed.

Lemma filter_map_snd {A B : Type} (f : B -> bool) (g : A * B -> bool)
  (l : list (A * B)) :
  Forall (fun p => g p = f (snd p)) l ->
  map snd (List.filter g l) = List.filter f (map snd l).
Proof.
  induction 1 as [|p l Hp _ IH]; [reflexivity|].
  simpl. rewrite <- Hp. destruct (g p); simpl; now rewrite IH.
Qed.

Lemma filter_ext_Forall {A : Type} (f g : A -> bool) (l : list A) :
  Forall (fun x => f x = g x) l -> List.filter f l = List.filter g l.
Proof.
  induction 1 as [|x l Hx _ IH]; [reflexivity|].
  simpl. now rewrite Hx, IH.
Qed.

(** The shape of a search that returns. *)
Lemma search_inv (terms : list string) (models results : list Model) :
  search terms models = Ok results ->
  exists scored,
    traverse (with_score terms) models = Ok scored
    /\ results = map snd (take 8 (ranked scored)).
Proof.
  rewrite search_unfold.
  destruct (traverse (with_score terms) models) as [scored|e]; cbn;
    [|discriminate].
  intros H; inversion H; subst. eauto.
Qed.

Lemma positive_consistent (terms : list string)
  (scored : list (pynum * Model)) :
  Forall (fun p => score_match terms (snd p) = Ok (fst p)) scored ->
  Forall (fun p => gt (fst p) (PyInt 0) = scores_positive terms (snd p))
    scored.
Proof.
  intros H. eapply Forall_impl; [exact H|].
  intros p Hp. unfold scores_positive. now rewrite Hp.
Qed.

(** The records that pass the filter, in the order of the catalog. *)
Lemma positive_records (terms : list string) (models : list Model)
  (scored : list (pynum * Model)) :
  traverse (with_score terms) models = Ok scored ->
  map snd (List.filter (fun sm => gt (fst sm) (PyInt 0)) scored)
  = List.filter (scores_positive terms) models.
Proof.
  intros H. destruct (scored_spec _ _ _ H) as [Hcat Hsc].
  rewrite <- Hcat. apply filter_map_snd.
  now apply positive_consistent.
Qed.

(** A record that scores strictly more than a returned one is returned
    before it. *)
Lemma ranked_before (terms : list string) (models : list Model)
  (scored : list (pynum * Model)) (j : nat) (r m : Model) :
  traverse (with_score terms) models = Ok scored ->
  map snd (take 8 (ranked scored)) !! j = Some r ->
  In m models -> score_gt terms m r ->
  exists i, (i < j)%nat /\ map snd (take 8 (ranked scored)) !! i = Some m.
Proof.
  intros E Hj Hm (sm & sr & Hsm & Hsr & Hgt).
  destruct (ranked_spec _ _ _ E) as (Hsorted & Hall & Hin).
  set (R := ranked scored) in *.
  change (map snd (take 8 R)) with (snd <$> take 8 R) in *.
  rewrite list_lookup_fmap in Hj.
  destruct (take 8 R !! j) as [[s r']|] eqn:Ej; [|discriminate].
  simpl in Hj. inversion Hj; subst r'.
  apply lookup_take_Some in Ej as [HjR Hj8].
  assert (Hs : score_match terms r = Ok s /\ gt s (PyInt 0) = true).
  { rewrite Forall_forall in Hall.
    destruct (Hall (s, r)) as (H1 & H2 & _);
      [eapply list_elem_of_lookup_2, HjR | auto]. }
  destruct Hs as [Hs Hpos]. rewrite Hsr in Hs. inversion Hs; subst s.
  assert (Hpos' : gt sm (PyInt 0) = true).
  { unfold gt in *.
    apply lt_true_iff in Hpos as [L1 N1].
    apply lt_true_iff in Hgt as [L2 N2].
    apply lt_true_iff. split.
    - eapply le_trans; eassumption.
    - intros C. apply N1. eapply le_trans; eassumption. }
  pose proof (Hin _ _ Hm Hsm Hpos') as HinR.
  apply list_elem_of_In, list_elem_of_lookup_1 in HinR as [i Hi].
  exists i.
  assert (Hij : (i < j)%nat).
  { destruct (Nat.lt_trichotomy i j) as [?|[->|Hji]]; [assumption| |].
    - rewrite Hi in HjR. inversion HjR; subst.
      rewrite lt_irrefl in Hgt. discriminate.
    - pose proof (sorted_lookup _ _ j i _ _ Hsorted Hji HjR Hi) as Hge.
      unfold key_ge in Hge. simpl in Hge.
      apply le_lt_false in Hge. congruence. }
  split; [exact Hij|].
  rewrite list_lookup_fmap, lookup_take_lt by lia. rewrite Hi. reflexivity.
Qed.

End SearchMore.

(** X15.  The search returns as many records as the catalog has with a
    positive score, up to 8: none is left out while there is room. *)
Theorem search_length (terms : list string) (models results : list Model) :
  search terms models = Ok results ->
  length results
  = Nat.min 8 (length (List.filter (scores_positive terms) models)).
Proof.
  intros H. apply SearchMore.search_inv in H as (scored & E & ->).
  rewrite length_map, length_take.
  unfold ranked. rewrite (Permutation_length (SearchFacts.sort_desc_perm _)).
  rewrite <- (SearchMore.positive_records _ _ _ E), length_map. reflexivity.
Qed.

Lemma search_length_witness :
  search ["gemini"] [undated_free; gemini_pro; shouting_free]
  = Ok [gemini_pro]
  /\ length [gemini_pro]
     = Nat.min 8
         (length (List.filter (scores_positive ["gemini"])
                    [undated_free; gemini_pro; shouting_free])).
Proof.
  assert (H : search ["gemini"] [undated_free; gemini_pro; shouting_free]
              = Ok [gemini_pro]) by (vm_compute; reflexivity).
  split; [exact H|].
  exact (search_length _ _ _ H).
Defined.

(** X16.  The search returns no record more often than the catalog has
    it: the results are a part of the catalog, as multisets, and a
    catalog without duplicates gives results without duplicates. *)
Theorem search_part_of_catalog (terms : list string)
  (models results : list Model) :
  search terms models = Ok results ->
  results ⊆+ models /\ (NoDup models -> NoDup results).
Proof.
  intros H. apply SearchMore.search_inv in H as (scored & E & ->).
  assert (Hsub : map snd (take 8 (ranked scored)) ⊆+ models).
  { destruct (SearchFacts.scored_spec _ _ _ E) as [Hcat _].
    rewrite <- Hcat.
    change (snd <$> take 8 (ranked scored) ⊆+ snd <$> scored).
    apply fmap_submseteq.
    etransitivity; [apply submseteq_take|].
    unfold ranked. rewrite (SearchFacts.sort_desc_perm _).
    apply sublist_submseteq, SearchMore.filter_sublist. }
  split; [exact Hsub|].
  intros Hnd. apply submseteq_Permutation in Hsub as [k Hk].
  rewrite Hk in Hnd. now apply NoDup_app in Hnd as [Hnd _].
Qed.

Lemma search_part_of_catalog_witness :
  search ["gemini"] [undated_free; gemini_pro; shouting_free]
  = Ok [gemini_pro]
  /\ [gemini_pro] ⊆+ [undated_free; gemini_pro; shouting_free].
Proof.
  assert (H : search ["gemini"] [undated_free; gemini_pro; shouting_free]
              = Ok [gemini_pro]) by (vm_compute; reflexivity).
  split; [exact H|].
  exact (proj1 (search_part_of_catalog _ _ _ H)).
Defined.

(** X17.  The results are the best of the catalog: a record of the
    catalog that scores strictly more than a returned record is returned
    as well, at an earlier position. *)
Theorem search_returns_the_best (terms : list string)
  (models results : list Model) :
  search terms models = Ok results ->
  forall (j : nat) (r m : Model),
    results !! j = Some r ->
    In m models ->
    score_gt terms m r ->
    exists i, (i < j)%nat /\ results !! i = Some m.
Proof.
  intros H j r m Hj Hm Hgt.
  apply SearchMore.search_inv in H as (scored & E & ->).
  eapply SearchMore.ranked_before; eassumption.
Qed.

Lemma search_returns_the_best_witness :
  search ["gemini"] [gemini_pro; gemini_pro_newer]
  = Ok [gemini_pro_newer; gemini_pro]
  /\ exists i, (i < 1)%nat
               /\ [gemini_pro_newer; gemini_pro] !! i = Some gemini_pro_newer.
Proof.
  assert (H : search ["gemini"] [gemini_pro; gemini_pro_newer]
              = Ok [gemini_pro_newer; gemini_pro]) by (vm_compute; reflexivity).
  split; [exact H|].
  apply (search_returns_the_best _ _ _ H 1%nat gemini_pro gemini_pro_newer).
  - reflexivity.
  - right. left. reflexivity.
  - eexists. eexists.
    split; [vm_compute; reflexivity|].
    split; [vm_compute; reflexivity|].
    vm_compute. reflexivity.
Defined.

Module Stability.

Import Float64Facts PyNumFacts ScoreFacts SearchFacts SearchMore.

(** Two numbers that tie with a third one are not in strict order. *)
Lemma tie_le (k a : pynum) :
  is_number (value k) -> is_number (value a) ->
  tie k a = true -> le a k /\ le k a.
Proof.
  unfold tie, le. intros Nk Na H.
  apply andb_prop in H as [H1 H2].
  apply Bool.negb_true_iff in H1, H2.
  rewrite lt_value in H1, H2.
  split.
  - apply (proj1 (flt_false_iff (value a) (value k) Na Nk) H1).
  - apply (proj1 (flt_false_iff (value k) (value a) Nk Na) H2).
Qed.

Lemma tie_not_lt (k a b : pynum) :
  is_number (value k) -> is_number (value a) -> is_number (value b) ->
  tie k a = true -> tie k b = true -> lt a b = false.
Proof.
  intros Nk Na Nb Ha Hb.
  destruct (tie_le k a Nk Na Ha) as [_ Hka].
  destruct (tie_le k b Nk Nb Hb) as [Hbk _].
  apply le_lt_false. eapply le_trans; eassumption.
Qed.

(** A number that ties with a positive one is positive. *)
Lemma tie_positive (k s : pynum) :
  is_number (value k) -> is_number (value s) ->
  gt k (PyInt 0) = true -> tie k s = true -> gt s (PyInt 0) = true.
Proof.
  unfold gt. intros Nk Ns Hk Ht.
  destruct (tie_le k s Nk Ns Ht) as [Hsk Hks].
  apply lt_true_iff in Hk as [L N].
  apply lt_true_iff. split.
  - eapply le_trans; [exact L | exact Hks].
  - intros C. apply N. eapply le_trans; [exact Hks | exact C].
Qed.

(** Inserting keeps, among the elements that tie with [k], the order the
    elements had, the new one first. *)
Lemma insert_desc_stable {A : Type} (k : pynum) (x : pynum * A)
  (l : list (pynum * A)) :
  is_number (value k) -> key_number x -> Forall key_number l ->
  List.filter (fun p => tie k (fst p)) (insert_desc x l)
  = List.filter (fun p => tie k (fst p)) (x :: l).
Proof.
  intros Nk Nx Nl. induction Nl as [|y l Ny Nl IH]; [reflexivity|].
  cbn [insert_desc].
  destruct (lt (fst x) (fst y)) eqn:E; [|reflexivity].
  cbn [List.filter] in *. rewrite IH.
  destruct (tie k (fst x)) eqn:Tx; [|reflexivity].
  destruct (tie k (fst y)) eqn:Ty; [|reflexivity].
  rewrite (tie_not_lt k (fst x) (fst y) Nk Nx Ny Tx Ty) in E. discriminate.
Qed.

(** The sort is stable. *)
Lemma sort_desc_stable {A : Type} (k : pynum) (l : list (pynum * A)) :
  is_number (value k) -> Forall key_number l ->
  List.filter (fun p => tie k (fst p)) (sort_desc l)
  = List.filter (fun p => tie k (fst p)) l.
Proof.
  intros Nk Nl. induction Nl as [|x l Nx Nl IH]; [reflexivity|].
  change (sort_desc (x :: l)) with (insert_desc x (sort_desc l)).
  rewrite insert_desc_stable; [| assumption | assumption |].
  - cbn [List.filter]. now rewrite IH.
  - rewrite (sort_desc_perm l). exact Nl.
Qed.

(** A sorted list is sorted already. *)
Lemma sort_desc_sorted_id {A : Type} (l : list (pynum * A)) :
  StronglySorted key_ge l -> sort_desc l = l.
Proof.
  induction 1 as [|x l Hs IH Hx]; [reflexivity|].
  change (sort_desc (x :: l)) with (insert_desc x (sort_desc l)).
  rewrite IH. destruct l as [|y l]; [reflexivity|].
  cbn [insert_desc].
  inversion Hx as [|? ? Hxy _]; subst.
  unfold key_ge in Hxy. now rewrite (le_lt_false _ _ Hxy).
Qed.

Lemma filter_take_prefix {A : Type} (f : A -> bool) (n : nat) (l : list A) :
  exists rest,
    List.filter f l = (List.filter f (take n l) ++ rest)%list.
Proof.
  exists (List.filter f (drop n l)).
  rewrite <- List.filter_app. now rewrite take_drop.
Qed.

Lemma filter_filter_implies {A : Type} (f g : A -> bool) (l : list A) :
  (forall x, In x l -> f x = true -> g x = true) ->
  List.filter f (List.filter g l) = List.filter f l.
Proof.
  induction l as [|x l IH]; intros H; [reflexivity|].
  simpl. destruct (g x) eqn:G; simpl.
  - rewrite IH; [reflexivity|]. intros y Hy. apply H. now right.
  - destruct (f x) eqn:F.
    + rewrite (H x (or_introl eq_refl) F) in G. discriminate.
    + apply IH. intros y Hy. apply H. now right.
Qed.

End Stability.

(** X18.  The sort is stable: among the records of the catalog that have
    one and the same positive score, the results hold the first ones of
    the catalog, in the order of the catalog. *)
Theorem search_keeps_catalog_order_on_ties (terms : list string)
  (models results : list Model) (k : pynum) :
  search terms models = Ok results ->
  is_number (value k) ->
  gt k (PyInt 0) = true ->
  exists rest,
    List.filter (same_score terms k) models
    = (List.filter (same_score terms k) results ++ rest)%list.
Proof.
  intros H Nk Hk.
  apply SearchMore.search_inv in H as (scored & E & ->).
  destruct (SearchFacts.scored_spec _ _ _ E) as [Hcat Hsc].
  assert (Hnum : Forall key_number scored).
  { eapply Forall_impl; [exact Hsc|].
    intros p Hp. eapply SearchFacts.score_number, Hp. }
  assert (Hcons : forall l : list (pynum * Model),
            Forall (fun p => score_match terms (snd p) = Ok (fst p)) l ->
            map snd (List.filter (fun p => tie k (fst p)) l)
            = List.filter (same_score terms k) (map snd l)).
  { intros l Hl. apply SearchMore.filter_map_snd.
    eapply Forall_impl; [exact Hl|].
    intros p Hp. unfold same_score. now rewrite Hp. }
  set (positive := fun sm : pynum * Model => gt (fst sm) (PyInt 0)).
  assert (Hpos_sub : forall P : pynum * Model -> Prop,
            Forall P scored -> Forall P (List.filter positive scored)).
  { intros P HP. apply Forall_forall. intros p Hp.
    apply list_elem_of_In, filter_In in Hp as [Hp _].
    rewrite Forall_forall in HP. apply HP, list_elem_of_In, Hp. }
  assert (HscR : Forall (fun p => score_match terms (snd p) = Ok (fst p))
                   (ranked scored)).
  { unfold ranked. rewrite (SearchFacts.sort_desc_perm _).
    now apply Hpos_sub. }
  destruct (Stability.filter_take_prefix
              (fun p : pynum * Model => tie k (fst p)) 8 (ranked scored))
    as [rest Hrest].
  exists (map snd rest).
  rewrite <- (Hcons (take 8 (ranked scored)))
    by (now apply Forall_take).
  rewrite <- map_app, <- Hrest.
  unfold ranked. rewrite Stability.sort_desc_stable;
    [|exact Nk | now apply Hpos_sub].
  fold positive. rewrite Stability.filter_filter_implies.
  - rewrite <- Hcat. symmetry. now apply Hcons.
  - intros p Hp Ht. unfold positive.
    rewrite Forall_forall in Hnum.
    eapply Stability.tie_positive; [exact Nk| |exact Hk|exact Ht].
    apply Hnum, list_elem_of_In, Hp.
Qed.

Lemma search_keeps_catalog_order_on_ties_witness :
  search ["gemini"] [far_old; far_new] = Ok [far_old; far_new]
  /\ is_number (value far_score)
  /\ gt far_score (PyInt 0) = true
  /\ List.filter (same_score ["gemini"] far_score) [far_old; far_new]
     = [far_old; far_new]
  /\ exists rest,
       List.filter (same_score ["gemini"] far_score) [far_old; far_new]
       = (List.filter (same_score ["gemini"] far_score) [far_old; far_new]
          ++ rest)%list.
Proof.
  assert (H : search ["gemini"] [far_old; far_new] = Ok [far_old; far_new])
    by (vm_compute; reflexivity).
  assert (N : is_number (value far_score)) by (vm_compute; exact I).
  assert (P : gt far_score (PyInt 0) = true) by (vm_compute; reflexivity).
  split; [exact H|]. split; [exact N|]. split; [exact P|].
  split; [vm_compute; reflexivity|].
  exact (search_keeps_catalog_order_on_ties _ _ _ far_score H N P).
Defined.

Module SearchInvariance.

Import SearchFacts SearchMore.



(** The records the search returns come with their scores, sorted and
    positive. *)
Lemma traverse_scored (terms : list string) (l : list (pynum * Model)) :
  Forall (fun p => score_match terms (snd p) = Ok (fst p)) l ->
  traverse (with_score terms) (map snd l) = Ok l.
Proof.
  induction 1 as [|p l Hp _ IH]; [reflexivity|].
  destruct p as [s m]. cbn [fst snd] in Hp.
  assert (Hw : with_score terms m = Ok (s, m)).
  { unfold with_score. now rewrite Hp. }
  cbn [map traverse snd]. rewrite Hw.
  cbn [mbind result_bind]. rewrite IH. reflexivity.
Qed.

Lemma filter_all {A : Type} (f : A -> bool) (l : list A) :
  Forall (fun x => f x = true) l -> List.filter f l = l.
Proof.
  induction 1 as [|x l Hx _ IH]; [reflexivity|]. simpl. now rewrite Hx, IH.
Qed.

End SearchInvariance.



(** X20.  Searching again among the results changes nothing: the same
    query on the results returns the results, in the same order. *)
Theorem search_among_results (terms : list string)
  (models results : list Model) :
  search terms models = Ok results ->
  search terms results = Ok results.
Proof.
  intros H. apply SearchMore.search_inv in H as (scored & E & ->).
  destruct (SearchFacts.ranked_spec _ _ _ E) as (Hsorted & Hall & _).
  set (T := take 8 (ranked scored)).
  assert (HallT : Forall (fun p => score_match terms (snd p) = Ok (fst p)
                                   /\ gt (fst p) (PyInt 0) = true
                                   /\ In (snd p) models) T).
  { now apply Forall_take. }
  rewrite SearchFacts.search_unfold.
  rewrite (SearchInvariance.traverse_scored terms T).
  2:{ eapply Forall_impl; [exact HallT|]. now intros p (Hp & _). }
  cbn. f_equal. f_equal. unfold ranked.
  rewrite SearchInvariance.filter_all.
  2:{ eapply Forall_impl; [exact HallT|]. now intros p (_ & Hp & _). }
  rewrite Stability.sort_desc_sorted_id
    by (apply SearchFacts.sorted_take, Hsorted).
  apply take_ge. unfold T. rewrite length_take. lia.
Qed.

Lemma search_among_results_witness :
  search ["gemini"] [gemini_pro; undated_free; gemini_pro_newer]
  = Ok [gemini_pro_newer; gemini_pro]
  /\ search ["gemini"] [gemini_pro_newer; gemini_pro]
     = Ok [gemini_pro_newer; gemini_pro].
Proof.
  assert (H : search ["gemini"] [gemini_pro; undated_free; gemini_pro_newer]
              = Ok [gemini_pro_newer; gemini_pro]) by (vm_compute; reflexivity).
  split; [exact H|].
  exact (search_among_results _ _ _ H).
Defined.

(** ** Provider lister: how listings compose *)

Module ListerMore.

Import NativeIdMore.

Lemma prefix_app (a s : string) :
  String.prefix a s = true -> exists t, s = a +:+ t.
Proof.
  revert s; induction a as [|c a IH]; intros s H.
  - now exists s.
  - destruct s as [|b s]; cbn [String.prefix] in H; [discriminate|].
    destruct (ascii_dec c b) as [e|]; [subst b|discriminate].
    destruct (IH s H) as [t Ht]. exists t. subst s. reflexivity.
Qed.

Lemma append_assoc (a b c : string) : (a +:+ b) +:+ c = a +:+ (b +:+ c).
Proof.
  induction a as [|x a IH]; [reflexivity|].
  change (String x ((a +:+ b) +:+ c) = String x (a +:+ b +:+ c)).
  now f_equal.
Qed.

(** The identifiers that [list_provider] keeps. *)
Lemma list_provider_In (provider : string) (models : list Model) (m : Model) :
  In m (list_provider provider models) ->
  In m models /\ exists slug, model_id m = provider +:+ String "/"%char slug.
Proof.
  unfold list_provider.
  fold (provider_prefix provider).
  replace (default (provider +:+ "/") (PROVIDER_PREFIXES !! provider))
    with (provider_prefix provider)
    by (unfold provider_prefix; now destruct (PROVIDER_PREFIXES !! provider)).
  rewrite provider_prefix_slash.
  intros H. apply filter_In in H as [Hin Hp]. split; [exact Hin|].
  apply prefix_app in Hp as [t Ht]. exists t.
  rewrite Ht. now rewrite append_assoc.
Qed.

End ListerMore.

(** X21.  Listing distributes over the concatenation of catalogs, and
    listing a listing again changes nothing. *)
Theorem list_provider_compose (provider : string) (a b : list Model) :
  list_provider provider (a ++ b)
  = (list_provider provider a ++ list_provider provider b)%list
  /\ list_provider provider (list_provider provider a)
     = list_provider provider a.
Proof.
  unfold list_provider. split; [apply List.filter_app|].
  set (f := fun m : Model => _).
  induction a as [|m a IH]; [reflexivity|].
  simpl. destruct (f m) eqn:E; simpl; [rewrite E|]; now rewrite ?IH.
Qed.

(** X22.  For a provider key without a slash other than [anthropic], a
    listed record gives back its identifier from the key and the native
    identifier that list mode prints for it. *)
Theorem list_provider_native_id (provider : string) (models : list Model)
  (m : Model) :
  PyStr.contains "/" provider = false ->
  provider <> "anthropic" ->
  In m (list_provider provider models) ->
  model_id m = provider +:+ "/" +:+ to_native_id (model_id m).
Proof.
  intros Hsep Hp Hin.
  apply ListerMore.list_provider_In in Hin as [_ [slug Hid]].
  rewrite Hid at 2. unfold to_native_id.
  rewrite (NativeIdMore.partition_app _ _ _ Hsep).
  apply String.eqb_neq in Hp. rewrite Hp. exact Hid.
Qed.

Lemma list_provider_native_id_witness :
  PyStr.contains "/" "google" = false
  /\ "google" <> "anthropic"
  /\ In gemini_pro (list_provider "google" [shouting_free; gemini_pro])
  /\ model_id gemini_pro
     = "google" +:+ "/" +:+ to_native_id (model_id gemini_pro).
Proof.
  assert (Hin : In gemini_pro
                  (list_provider "google" [shouting_free; gemini_pro])).
  { vm_compute. left. reflexivity. }
  split; [reflexivity|]. split; [discriminate|]. split; [exact Hin|].
  apply (list_provider_native_id "google" [shouting_free; gemini_pro]);
    [reflexivity | discriminate | exact Hin].
Defined.

(** X23.  The listings of two different provider keys without a slash
    have no record in common. *)
Theorem list_provider_disjoint (p q : string) (models : list Model)
  (m : Model) :
  PyStr.contains "/" p = false ->
  PyStr.contains "/" q = false ->
  p <> q ->
  In m (list_provider p models) ->
  ~ In m (list_provider q models).
Proof.
  intros Hp Hq Hne Hinp Hinq.
  apply ListerMore.list_provider_In in Hinp as [_ [s1 H1]].
  apply ListerMore.list_provider_In in Hinq as [_ [s2 H2]].
  pose proof (NativeIdMore.partition_app "/" p s1 Hp) as P1.
  pose proof (NativeIdMore.partition_app "/" q s2 Hq) as P2.
  rewrite <- H1 in P1. rewrite <- H2 in P2. rewrite P1 in P2.
  inversion P2. contradiction.
Qed.

Lemma list_provider_disjoint_witness :
  PyStr.contains "/" "google" = false
  /\ PyStr.contains "/" "goo" = false
  /\ "google" <> "goo"
  /\ In gemini_pro (list_provider "google" [gemini_pro])
  /\ ~ In gemini_pro (list_provider "goo" [gemini_pro]).
Proof.
  assert (Hin : In gemini_pro (list_provider "google" [gemini_pro])).
  { vm_compute. left. reflexivity. }
  split; [reflexivity|]. split; [reflexivity|]. split; [discriminate|].
  split; [exact Hin|].
  apply (list_provider_disjoint "google" "goo" [gemini_pro] gemini_pro);
    [reflexivity | reflexivity | discriminate | exact Hin].
Defined.

(** ** Formatter: the thousands separators *)

Module FmtMore.

Lemma strip_append (a b : string) :
  strip_commas (a +:+ b) = strip_commas a +:+ strip_commas b.
Proof.
  induction a as [|c a IH]; simpl; [reflexivity|].
  destruct (Ascii.eqb c ","); simpl; now rewrite IH.
Qed.

Lemma strip_of_list (l : list ascii) :
  strip_commas (string_of_list_ascii l)
  = string_of_list_ascii (List.filter not_comma l).
Proof.
  induction l as [|c l IH]; simpl; [reflexivity|].
  unfold not_comma at 1. destruct (Ascii.eqb c ","); simpl; now rewrite IH.
Qed.

Lemma filter_rev' {A : Type} (f : A -> bool) (l : list A) :
  List.filter f (rev l) = rev (List.filter f l).
Proof.
  induction l as [|x l IH]; [reflexivity|].
  simpl. rewrite List.filter_app, IH. simpl.
  destruct (f x); simpl; [reflexivity | now rewrite app_nil_r].
Qed.

(** Grouping adds commas and nothing else. *)
Lemma group3_strip (l : list ascii) (n : nat) :
  Forall (fun c => not_comma c = true) l ->
  List.filter not_comma (Fmt.group3 l n) = l.
Proof.
  intros H. revert n. induction H as [|c l Hc _ IH]; intros n;
    [reflexivity|].
  cbn [Fmt.group3].
  destruct n as [|[|[|[|n]]]]; cbn [List.filter];
    rewrite ?Hc; cbn [not_comma]; rewrite ?IH; try reflexivity.
Qed.

(** The commas of a grouping are at every fourth place. *)
Lemma group3_positions (l : list ascii) (n i : nat) (c : ascii) :
  Forall (fun c => not_comma c = true) l ->
  (n <= 3)%nat ->
  Fmt.group3 l n !! i = Some c ->
  (c = ","%char <-> ((i + n) mod 4 = 3)%nat).
Proof.
  intros H. revert n i. induction H as [|a l Ha _ IH]; intros n i Hn Hi;
    [discriminate|].
  assert (Hna : a <> ","%char).
  { intros ->. discriminate. }
  cbn [Fmt.group3] in Hi.
  destruct n as [|[|[|[|n]]]]; try lia.
  - destruct i as [|i]; simpl in Hi.
    + inversion Hi; subst. split; [contradiction | discriminate].
    + rewrite (IH 1%nat i ltac:(lia) Hi).
      replace (S i + 0)%nat with (i + 1)%nat by lia. reflexivity.
  - destruct i as [|i]; simpl in Hi.
    + inversion Hi; subst. split; [contradiction | discriminate].
    + rewrite (IH 2%nat i ltac:(lia) Hi).
      replace (S i + 1)%nat with (i + 2)%nat by lia. reflexivity.
  - destruct i as [|i]; simpl in Hi.
    + inversion Hi; subst. split; [contradiction | discriminate].
    + rewrite (IH 3%nat i ltac:(lia) Hi).
      replace (S i + 2)%nat with (i + 3)%nat by lia. reflexivity.
  - destruct i as [|[|i]]; simpl in Hi.
    + inversion Hi; subst. split; reflexivity.
    + inversion Hi; subst. split; [contradiction | discriminate].
    + rewrite (IH 1%nat i ltac:(lia) Hi).
      replace (S (S i) + 3)%nat with (i + 1 + 1 * 4)%nat by lia.
      now rewrite Nat.Div0.mod_add.
Qed.

Lemma digit_not_comma (c : ascii) : Re.is_digit c = true -> not_comma c = true.
Proof.
  destruct c as [[] [] [] [] [] [] [] []]; try discriminate; reflexivity.
Qed.

Lemma uint_digits (d : Decimal.uint) :
  Forall (fun c => not_comma c = true)
    (list_ascii_of_string (NilEmpty.string_of_uint d)).
Proof. induction d; simpl; constructor; try reflexivity; assumption. Qed.

(** The decimal digits of a natural number have no comma. *)
Lemma str_int_digits (z : Z) :
  Forall (fun c => not_comma c = true)
    (list_ascii_of_string (Fmt.str_int (Z.abs z))).
Proof.
  unfold Fmt.str_int.
  destruct z as [|p|p]; simpl Z.abs.
  - simpl. repeat constructor.
  - simpl. unfold NilZero.string_of_uint.
    destruct (Pos.to_uint p); try apply uint_digits. repeat constructor.
  - simpl. unfold NilZero.string_of_uint.
    destruct (Pos.to_uint p); try apply uint_digits. repeat constructor.
Qed.

Lemma str_int_sign (z : Z) :
  Fmt.str_int z
  = (if (z <? 0)%Z then "-" else "") +:+ Fmt.str_int (Z.abs z).
Proof. destruct z; reflexivity. Qed.

End FmtMore.

(** X24.  The thousands separators of a context length: taking the
    commas out of the formatted number gives its plain decimal form, and
    for a number that is not negative the commas are, counted from the
    right, at every fourth place and nowhere else. *)
Theorem str_int_commas_spec (z : Z) :
  strip_commas (Fmt.str_int_commas z) = Fmt.str_int z
  /\ ((0 <= z)%Z ->
      forall (i : nat) (c : ascii),
        rev (list_ascii_of_string (Fmt.str_int_commas z)) !! i = Some c ->
        (c = ","%char <-> (i mod 4 = 3)%nat)).
Proof.
  pose proof (FmtMore.str_int_digits z) as Hd.
  assert (Hr : Forall (fun c => not_comma c = true)
                 (rev (list_ascii_of_string (Fmt.str_int (Z.abs z))))).
  { apply Forall_forall. intros c Hc. rewrite Forall_forall in Hd.
    apply Hd. apply list_elem_of_In. apply list_elem_of_In in Hc.
    now apply in_rev. }
  split.
  - unfold Fmt.str_int_commas.
    rewrite FmtMore.strip_append, FmtMore.strip_of_list, FmtMore.filter_rev'.
    rewrite (FmtMore.group3_strip _ 0 Hr), rev_involutive.
    rewrite string_of_list_ascii_of_string.
    rewrite (FmtMore.str_int_sign z).
    destruct (z <? 0)%Z; reflexivity.
  - intros Hz i c Hi. unfold Fmt.str_int_commas in Hi.
    assert (Hs : (z <? 0)%Z = false) by (apply Z.ltb_ge; lia).
    rewrite Hs in Hi. cbv zeta in Hi.
    change ("" +:+ ?x) with x in Hi.
    rewrite list_ascii_of_string_of_list_ascii, rev_involutive in Hi.
    rewrite (FmtMore.group3_positions _ 0 i c Hr ltac:(lia) Hi).
    now rewrite Nat.add_0_r.
Qed.

(** ** Command line: what a run prints *)

Lemma print_after (text : string) (w : world) :
  print text w = (Ok tt, after w [Print text]).
Proof. reflexivity. Qed.

Lemma for_each_print {A : Type} (f : A -> string) (l : list A) (w : world) :
  for_each (fun x => print (f x)) l w
  = (Ok tt, after w (map Print (map f l))).
Proof.
  revert w; induction l as [|x l IH]; intros w.
  - simpl. now rewrite after_nil.
  - cbn [for_each]. rewrite (bind_ok _ _ _ _ _ (print_after _ _)).
    rewrite IH, after_after. reflexivity.
Qed.

Lemma for_each_print_blocks {A : Type} (f : A -> string) (l : list A)
  (w : world) :
  for_each (fun x => print (f x);; print "") l w
  = (Ok tt, after w (map Print (flat_map (fun x => [f x; ""]) l))).
Proof.
  revert w; induction l as [|x l IH]; intros w.
  - simpl. now rewrite after_nil.
  - cbn [for_each].
    assert (H : (print (f x);; print "") w
                = (Ok tt, after w [Print (f x); Print ""])).
    { rewrite (bind_ok _ _ _ _ _ (print_after _ _)).
      rewrite print_after, after_after. reflexivity. }
    rewrite (bind_ok _ _ _ _ _ H).
    rewrite IH, after_after. reflexivity.
Qed.

Section MainPaths.

Context {json : Type}.
Variable json_loads : string -> option json.
Variable json_dumps : json -> string.
Variable json_getitem : json -> string -> option json.
Variable records : json -> list Model.

Abbreviation fetch1 := (fetch_models json_loads json_dumps json_getitem).
Abbreviation main1 := (main json_loads json_dumps json_getitem records).

(** Every path of [main], with the loops run. *)
Lemma main_unfold (argv : list string) (w : world) :
  main1 argv w
  = if (length argv <? 2)%nat
    then (Err (SystemExit 1), after w (map Print usage_lines))
    else
      match fetch1 w with
      | (Err e, w1) => (Err e, w1)
      | (Ok data, w1) =>
          if String.eqb (nth 1 argv "") "--list"
          then
            match list_provider (provider_of argv) (records data) with
            | [] =>
                (Err (SystemExit 1),
                 after w1 [Print ("No models found for provider: "
                                  +:+ provider_of argv)])
            | results =>
                (Ok tt,
                 after w1
                   (map Print
                      (list_header (provider_of argv) (length results)
                       :: map list_line results)))
            end
          else
            match search (drop 1 argv) (records data) with
            | Err e => (Err e, w1)
            | Ok [] =>
                (Err (SystemExit 1),
                 after w1 [Print ("No models found matching: "
                                  +:+ PyStr.join " " (drop 1 argv))])
            | Ok results =>
                (Ok tt,
                 after w1
                   (map Print
                      (search_header (drop 1 argv)
                       :: flat_map match_lines
                            (imap (fun i m => (i, m)) results))))
            end
      end.
Proof.
  unfold main. destruct (length argv <? 2)%nat.
  { rewrite (bind_ok _ _ _ _ _ (print_after _ _)).
    rewrite (bind_ok _ _ _ _ _ (print_after _ _)).
    unfold sys_exit, raise. rewrite after_after. reflexivity. }
  destruct (fetch1 w) as [[data|e] w1] eqn:Hfetch.
  2:{ now rewrite (bind_err _ _ _ _ _ Hfetch). }
  rewrite (bind_ok _ _ _ _ _ Hfetch).
  destruct (String.eqb (nth 1 argv "") "--list").
  - fold (provider_of argv).
    destruct (list_provider (provider_of argv) (records data))
      as [|m results].
    + rewrite (bind_ok _ _ _ _ _ (print_after _ _)). reflexivity.
    + rewrite (bind_ok _ _ _ _ _ (print_after _ _)).
      etransitivity; [apply (for_each_print list_line)|].
      rewrite after_after. reflexivity.
  - destruct (search (drop 1 argv) (records data)) as [results|e] eqn:Hs.
    2:{ erewrite bind_err by reflexivity. reflexivity. }
    erewrite bind_ok by reflexivity.
    destruct results as [|m results].
    + rewrite (bind_ok _ _ _ _ _ (print_after _ _)). reflexivity.
    + rewrite (bind_ok _ _ _ _ _ (print_after _ _)).
      etransitivity;
        [apply (for_each_print_blocks
                  (fun im : nat * Model =>
                     "[" +:+ Fmt.str_int (Z.of_nat (fst im) + 1) +:+ "] "
                     +:+ format_model (snd im)))|].
      rewrite after_after. reflexivity.
Qed.

(** What the fetcher leaves of the world. *)
Lemma fetch_world (w : world) :
  exists io,
    events (snd (fetch1 w)) = (events w ++ io)%list
    /\ clock (snd (fetch1 w)) = clock w
    /\ List.filter is_print io = []
    /\ (length (List.filter is_network io) <= 1)%nat
    /\ (cache_fresh w = true ->
        List.filter is_network io = []
        /\ cache_file (snd (fetch1 w)) = cache_file w).
Proof.
  destruct (cache_fresh w) eqn:Hfresh.
  - assert (Hc : exists mtime content, cache_file w = Some (mtime, content)).
    { unfold cache_fresh in Hfresh.
      destruct (cache_file w) as [[mtime content]|]; [eauto|discriminate]. }
    destruct Hc as (mtime & content & Hc).
    rewrite (fetch_fresh _ _ _ w _ _ Hc Hfresh).
    exists [ReadFile CACHE_PATH]. simpl. repeat split; lia.
  - rewrite (fetch_refresh_cases _ _ _ w Hfresh).
    destruct (remote w) as [body|];
      [destruct (json_loads body) as [data|];
       [destruct (json_getitem data "data") as [payload|]|]|].
    + exists [the_request; WriteFile CACHE_PATH (json_dumps payload)].
      simpl. rewrite <- app_assoc. repeat split; try lia; discriminate.
    + exists [the_request]. simpl. repeat split; try lia; discriminate.
    + exists [the_request]. simpl. repeat split; try lia; discriminate.
    + exists [the_request]. simpl. repeat split; try lia; discriminate.
Qed.

(** X25.  With no argument after the name of the script, the run prints
    the two lines of the usage and exits with status 1; it reads no file
    and sends no request, and the fetcher is not called. *)
Theorem main_usage (argv : list string) (w : world) :
  (length argv < 2)%nat ->
  main1 argv w = (Err (SystemExit 1), after w (map Print usage_lines)).
Proof.
  intros H. rewrite main_unfold.
  apply Nat.ltb_lt in H. now rewrite H.
Qed.

(** X26.  List mode, once the catalog is fetched: an empty listing
    prints one line that names the provider and exits with status 1;
    otherwise the run prints a header with the provider and the number of
    records listed, then one line for each record, in the order of the
    catalog, with its native identifier and its display name. *)
Theorem main_list_mode (argv : list string) (w w1 : world) (data : json) :
  (2 <= length argv)%nat ->
  nth 1 argv "" = "--list" ->
  fetch1 w = (Ok data, w1) ->
  main1 argv w
  = match list_provider (provider_of argv) (records data) with
    | [] =>
        (Err (SystemExit 1),
         after w1 [Print ("No models found for provider: "
                          +:+ provider_of argv)])
    | results =>
        (Ok tt,
         after w1
           (map Print
              (list_header (provider_of argv) (length results)
               :: map list_line results)))
    end.
Proof.
  intros Hlen Hmode Hfetch. rewrite main_unfold, Hfetch, Hmode.
  apply Nat.ltb_ge in Hlen. now rewrite Hlen.
Qed.

(** X27.  Search mode, once the catalog is fetched: all the arguments
    after the name of the script are the terms.  An error of the scoring
    ends the run with nothing printed; no match prints one line with the
    terms and exits with status 1; otherwise the run prints a header and,
    for each match in the order of the ranking, its block numbered from 1
    and an empty line. *)
Theorem main_search_mode (argv : list string) (w w1 : world) (data : json) :
  (2 <= length argv)%nat ->
  nth 1 argv "" <> "--list" ->
  fetch1 w = (Ok data, w1) ->
  main1 argv w
  = match search (drop 1 argv) (records data) with
    | Err e => (Err e, w1)
    | Ok [] =>
        (Err (SystemExit 1),
         after w1 [Print ("No models found matching: "
                          +:+ PyStr.join " " (drop 1 argv))])
    | Ok results =>
        (Ok tt,
         after w1
           (map Print
              (search_header (drop 1 argv)
               :: flat_map match_lines (imap (fun i m => (i, m)) results))))
    end.
Proof.
  intros Hlen Hmode Hfetch. rewrite main_unfold, Hfetch.
  apply Nat.ltb_ge in Hlen. rewrite Hlen.
  apply String.eqb_neq in Hmode. now rewrite Hmode.
Qed.

(** X28.  In list mode the provider is the argument after [--list], and
    [google] when there is none; what follows the provider is ignored. *)
Theorem main_list_arguments (prog p : string) (rest : list string)
  (w : world) :
  main1 [prog; "--list"] w = main1 [prog; "--list"; "google"] w
  /\ main1 (prog :: "--list" :: p :: rest) w = main1 [prog; "--list"; p] w.
Proof.
  rewrite !main_unfold. split; reflexivity.
Qed.

(** X29.  What every run leaves: the clock is not changed; the trace
    grows by the file and network events of the fetcher, at most one
    request among them, and after these the printed lines, so nothing is
    printed before the catalog is there.  Nothing at all is printed
    exactly when the run ends with an exception other than that of
    [sys.exit].  With a fresh cache the run sends no request and leaves
    the cache file as it was. *)
Theorem main_trace (argv : list string) (w : world) :
  exists (io : list event) (out : list string),
    events (snd (main1 argv w)) = (events w ++ io ++ map Print out)%list
    /\ List.filter is_print io = []
    /\ (length (List.filter is_network io) <= 1)%nat
    /\ clock (snd (main1 argv w)) = clock w
    /\ (out = [] <->
        exists e, fst (main1 argv w) = Err e
                  /\ forall status, e <> SystemExit status)
    /\ (cache_fresh w = true ->
        List.filter is_network io = []
        /\ cache_file (snd (main1 argv w)) = cache_file w).
Proof.
  rewrite main_unfold.
  destruct (length argv <? 2)%nat.
  { exists [], usage_lines. simpl. repeat split; try lia; try discriminate.
    intros (e & He & Hne). inversion He; subst. now destruct (Hne 1%Z). }
  destruct (fetch_world w) as (io & Hev & Hclock & Hpr & Hnet & Hfresh).
  destruct (fetch1 w) as [[data|e] w1] eqn:Hfetch; cbn [snd] in *.
  2:{ exists io, []. cbn [fst snd map]. rewrite app_nil_r.
      repeat split; try assumption; try (now apply Hfresh).
      intros _. exists e. split; [reflexivity|].
      intros status ->.
      destruct (fetch_models_err _ _ _ _ _ _ Hfetch)
        as [H | [H | [H | H]]]; discriminate. }
  assert (Hout : forall (r : result unit) (out : list string),
    (out = [] <-> exists e, r = Err e /\ forall s, e <> SystemExit s) ->
    exists (io0 : list event) (out0 : list string),
      events (snd (r, after w1 (map Print out)))
      = (events w ++ io0 ++ map Print out0)%list
      /\ List.filter is_print io0 = []
      /\ (length (List.filter is_network io0) <= 1)%nat
      /\ clock (snd (r, after w1 (map Print out))) = clock w
      /\ (out0 = [] <->
          exists e, fst (r, after w1 (map Print out)) = Err e
                    /\ forall status, e <> SystemExit status)
      /\ (cache_fresh w = true ->
          List.filter is_network io0 = []
          /\ cache_file (snd (r, after w1 (map Print out))) = cache_file w)).
  { intros r out Hr. exists io, out. cbn [fst snd after events clock cache_file].
    rewrite Hev, <- app_assoc.
    repeat split; try assumption; try (now apply Hr); now apply Hfresh. }
  assert (Hexit : forall line : string,
    [line] = [] <-> exists e, Err (A:=unit) (SystemExit 1) = Err e
                              /\ forall s, e <> SystemExit s).
  { intros line. split; [discriminate|].
    intros (e & He & Hne). inversion He; subst. now destruct (Hne 1%Z). }
  assert (Hdone : forall (line : string) (lines : list string),
    line :: lines = [] <-> exists e, Ok tt = Err e
                                     /\ forall s, e <> SystemExit s).
  { intros line lines. split; [discriminate|].
    intros (e & He & _). discriminate. }
  destruct (String.eqb (nth 1 argv "") "--list").
  - destruct (list_provider (provider_of argv) (records data)) as [|m l].
    + apply (Hout _ [_]). apply Hexit.
    + apply (Hout _ (_ :: _)). apply Hdone.
  - destruct (search (drop 1 argv) (records data)) as [[|m l]|e] eqn:Hs.
    + apply (Hout _ [_]). apply Hexit.
    + apply (Hout _ (_ :: _)). apply Hdone.
    + apply SearchFacts.search_err in Hs. subst e.
      rewrite <- (after_nil w1). apply (Hout _ []).
      split; [|reflexivity]. intros _. exists OverflowError.
      split; [reflexivity | discriminate].
Qed.

End MainPaths.

Lemma main_usage_witness :
  (length ["lookup.py"] < 2)%nat
  /\ main demo_loads demo_dumps demo_getitem demo_records
       ["lookup.py"] (stale_world None)
     = (Err (SystemExit 1), after (stale_world None) (map Print usage_lines)).
Proof.
  split; [simpl; lia|].
  apply (main_usage demo_loads demo_dumps demo_getitem demo_records
           ["lookup.py"] (stale_world None)).
  simpl; lia.
Defined.

Lemma main_list_mode_witness :
  (2 <= length ["lookup.py"; "--list"])%nat
  /\ nth 1 ["lookup.py"; "--list"] "" = "--list"
  /\ fetch_models demo_loads demo_dumps demo_getitem demo_world
     = (Ok "[gemini]", after demo_world [ReadFile CACHE_PATH])
  /\ main demo_loads demo_dumps demo_getitem demo_records
       ["lookup.py"; "--list"] demo_world
     = (Ok tt,
        after (after demo_world [ReadFile CACHE_PATH])
          (map Print [list_header "google" 1; list_line gemini_pro])).
Proof.
  assert (Hfetch : fetch_models demo_loads demo_dumps demo_getitem demo_world
                   = (Ok "[gemini]", after demo_world [ReadFile CACHE_PATH]))
    by (vm_compute; reflexivity).
  split; [simpl; lia|]. split; [reflexivity|]. split; [exact Hfetch|].
  rewrite (main_list_mode demo_loads demo_dumps demo_getitem demo_records
             ["lookup.py"; "--list"] demo_world _ "[gemini]"
             ltac:(simpl; lia) eq_refl Hfetch).
  reflexivity.
Defined.

Lemma main_search_mode_witness :
  (2 <= length ["lookup.py"; "gemini"; "pro"])%nat
  /\ nth 1 ["lookup.py"; "gemini"; "pro"] "" <> "--list"
  /\ fetch_models demo_loads demo_dumps demo_getitem demo_world
     = (Ok "[gemini]", after demo_world [ReadFile CACHE_PATH])
  /\ main demo_loads demo_dumps demo_getitem demo_records
       ["lookup.py"; "gemini"; "pro"] demo_world
     = (Ok tt,
        after (after demo_world [ReadFile CACHE_PATH])
          (map Print (search_header ["gemini"; "pro"]
                      :: match_lines (0%nat, gemini_pro)))).
Proof.
  assert (Hfetch : fetch_models demo_loads demo_dumps demo_getitem demo_world
                   = (Ok "[gemini]", after demo_world [ReadFile CACHE_PATH]))
    by (vm_compute; reflexivity).
  assert (Hmode : nth 1 ["lookup.py"; "gemini"; "pro"] "" <> "--list")
    by discriminate.
  split; [simpl; lia|]. split; [exact Hmode|]. split; [exact Hfetch|].
  rewrite (main_search_mode demo_loads demo_dumps demo_getitem demo_records
             ["lookup.py"; "gemini"; "pro"] demo_world _ "[gemini]"
             ltac:(simpl; lia) Hmode Hfetch).
  vm_compute. reflexivity.
Defined.

(** ** Formatter: the features line *)

Lemma mem_In (x : string) (l : list string) :
  Fmt.mem x l = true <-> In x l.
Proof.
  unfold Fmt.mem. rewrite existsb_exists. split.
  - intros (y & Hy & E). apply String.eqb_eq in E. now subst.
  - intros H. exists x. split; [exact H | apply String.eqb_refl].
Qed.

Lemma mem_ext (x : string) (l l' : list string) :
  (In x l <-> In x l') -> Fmt.mem x l = Fmt.mem x l'.
Proof.
  intros H. destruct (Fmt.mem x l) eqn:E, (Fmt.mem x l') eqn:E';
    try reflexivity.
  - apply mem_In, H, mem_In in E. congruence.
  - apply mem_In, H, mem_In in E'. congruence.
Qed.

(** X30.  The formatter reads the supported parameters only to see which
    of five names are among them: two lists that hold the same of these
    names give the same text, whatever their order, their repetitions and
    their other entries. *)
Theorem format_model_parameters (m : Model) (params params' : list string) :
  (forall x, In x feature_parameters -> (In x params <-> In x params')) ->
  format_model (with_parameters m params)
  = format_model (with_parameters m params').
Proof.
  intros H. unfold format_model.
  cbn [with_parameters model_id model_name context_length pricing_prompt
       pricing_completion input_modalities supported_parameters].
  rewrite (mem_ext "tools" params params'),
    (mem_ext "response_format" params params'),
    (mem_ext "structured_outputs" params params'),
    (mem_ext "include_reasoning" params params'),
    (mem_ext "reasoning" params params');
    try reflexivity; apply H; unfold feature_parameters; simpl; tauto.
Qed.

Lemma format_model_parameters_witness :
  (forall x, In x feature_parameters ->
     (In x ["reasoning"; "tools"; "temperature"]
      <-> In x ["tools"; "tools"; "reasoning"]))
  /\ format_model (with_parameters gemini_pro
                     ["reasoning"; "tools"; "temperature"])
     = format_model (with_parameters gemini_pro
                       ["tools"; "tools"; "reasoning"]).
Proof.
  assert (H : forall x, In x feature_parameters ->
     (In x ["reasoning"; "tools"; "temperature"]
      <-> In x ["tools"; "tools"; "reasoning"])).
  { intros x Hx. unfold feature_parameters in Hx. simpl in Hx.
    destruct Hx as [<- | [<- | [<- | [<- | [<- | []]]]]]; simpl;
      split; intros Hin;
      repeat (destruct Hin as [Hin|Hin]; try discriminate Hin);
      try contradiction; tauto. }
  split; [exact H|].
  apply (format_model_parameters gemini_pro _ _ H).
Defined.
